(** * VoxAI Studio TTS: the credit ledger, the WAV encoder and the
      generation pipeline, embedded from [src/server.ts].

    First the program:
    - [JsNum]    : JavaScript numbers as IEEE-754 binary64 ([PrimFloat]);
    - [JsString] : strings as UTF-16 code units, with [trim], [includes]
                   and [atob];
    - [Wav]      : [createWavUrl], the 44-byte RIFF header writer;
    - [Ledger]   : the in-memory [usersDb] and the Express handlers
                   [GET /api/user], [POST /api/user/deduct], [/auth/callback];
    - [Client]   : [generateSpeech] and [handleCancel] of the React
                   component, as a machine that is stepped by what the user,
                   the model and the server do;
    - [Session]  : the rest of a session: [POST /api/auth/logout], the
                   preview login, the two profile fetches, [handleLogout]
                   and the balance in the header.
    Then its properties, module by module ([SF] and [JsNumFacts] hold the
    two facts about binary64 subtraction the ledger rests on).  The
    further properties follow: whole numbers in binary64 ([SFExact],
    [JsNumExact]), the server request by request ([ServerFacts]), the
    audio container ([WavFormat]) and the session action by action
    ([SessionFacts]), with concrete sessions in [SessionExamples].

    Conventions.  [usersDb] is a plain object used as a dictionary; the
    [gmap string user] of the model holds its own properties.  A lookup
    [usersDb[key]] also finds the members of [Object.prototype]
    ([Ledger.OBJECT_PROTOTYPE]): the handlers are modelled for the keys
    that are [Ledger.own_only].  A cookie, a token or an identity is a
    [string]: [cookie-parser] hands the handlers the string that was sent
    unless it starts with j: ([Ledger.json_cookie]), and the handlers are
    modelled for the cookies that arrive [Ledger.as_sent].  The component
    is modelled with one run of [generateSpeech] at a time
    ([Session.one_run_at_a_time]). *)

From Stdlib Require Import ZArith NArith Floats Lia List Bool Ascii String.
From stdpp Require Import base option gmap strings list.

Local Open Scope Z_scope.

(* ===================================================================== *)
(** ** JavaScript numbers *)
(* ===================================================================== *)

Module JsNum.

(** A JavaScript [number] is a binary64 float; [PrimFloat.float] is the
    same format with the same round-to-nearest-even operations. *)
Definition number := float.
Bind Scope float_scope with number.

(** [a < b] (false as soon as one side is [NaN]). *)
Definition lt (a b : number) : bool := PrimFloat.ltb a b.

(** [a <= b]. *)
Definition le (a b : number) : bool := PrimFloat.leb a b.

(** [a - b]. *)
Definition sub (a b : number) : number := PrimFloat.sub a b.

(** [a === b] on numbers: IEEE equality ([NaN] differs from itself,
    [+0 === -0]). *)
Definition strict_eq (a b : number) : bool := PrimFloat.eqb a b.

(** [a !== b]. *)
Definition strict_neq (a b : number) : bool := negb (strict_eq a b).

Definition Infinity : number := PrimFloat.infinity.
Definition NaN : number := PrimFloat.nan.

(** [Number.isFinite]. *)
Definition is_finite (a : number) : bool :=
  negb (PrimFloat.is_nan a) && negb (PrimFloat.is_infinity a).

(** [a === a]: [a] is a number, that is, not [NaN]. *)
Definition is_number (a : number) : bool := strict_eq a a.

(** The number a non-negative integer such as [String.prototype.length]
    denotes (exact below [2^53]). *)
Definition of_nat (n : nat) : number :=
  PrimFloat.of_uint63 (Uint63.of_Z (Z.of_nat n)).

End JsNum.

(* ===================================================================== *)
(** ** JavaScript strings *)
(* ===================================================================== *)

Module JsString.

(** A JavaScript string is a sequence of UTF-16 code units; [length],
    [trim], [includes] and [substring] all work on code units. *)
Abbreviation jsstring := (list N).

(** A string literal of the source (ASCII only). *)
Definition lit (s : string) : jsstring :=
  map N_of_ascii (String.list_ascii_of_string s).

(** [s.length]. *)
Definition len (s : jsstring) : Z := Z.of_nat (length s).

(** ECMAScript [WhiteSpace] and [LineTerminator] code units, the ones
    [String.prototype.trim] strips. *)
Definition is_white_space (c : N) : bool :=
  ((9 <=? c) && (c <=? 13) || (c =? 32) || (c =? 160) || (c =? 5760)
   || (8192 <=? c) && (c <=? 8202) || (c =? 8232) || (c =? 8233)
   || (c =? 8239) || (c =? 8287) || (c =? 12288) || (c =? 65279))%N.

Fixpoint trim_start (s : jsstring) : jsstring :=
  match s with
  | c :: r => if is_white_space c then trim_start r else s
  | [] => []
  end.

(** [s.trim()]. *)
Definition trim (s : jsstring) : jsstring :=
  reverse (trim_start (reverse (trim_start s))).

(** A string is falsy exactly when it is empty. *)
Definition is_empty (s : jsstring) : bool :=
  match s with [] => true | _ => false end.

Fixpoint starts_with (p s : jsstring) : bool :=
  match p, s with
  | [], _ => true
  | a :: p', b :: s' => (a =? b)%N && starts_with p' s'
  | _ :: _, [] => false
  end.

(** [s.includes(p)]: [p] occurs in [s] (case-sensitive). *)
Fixpoint includes (s p : jsstring) : bool :=
  starts_with p s
  || match s with
     | [] => false
     | _ :: r => includes r p
     end.

(** [s.substring(0, n)]. *)
Definition substring0 (n : nat) (s : jsstring) : jsstring := take n s.

(** *** [atob]: the forgiving-base64 decoder of the HTML standard *)

Definition is_ascii_whitespace (c : N) : bool :=
  ((c =? 9) || (c =? 10) || (c =? 12) || (c =? 13) || (c =? 32))%N.

(** The 6-bit value of a character of the base64 alphabet. *)
Definition b64_value (c : N) : option N :=
  if ((65 <=? c) && (c <=? 90))%N then Some (c - 65)%N
  else if ((97 <=? c) && (c <=? 122))%N then Some (c - 71)%N
  else if ((48 <=? c) && (c <=? 57))%N then Some (c + 4)%N
  else if (c =? 43)%N then Some 62%N
  else if (c =? 47)%N then Some 63%N
  else None.

(** Removes one or two trailing [=], given the string reversed. *)
Definition strip_padding_rev (r : jsstring) : jsstring :=
  match r with
  | 61%N :: 61%N :: r' => r'
  | 61%N :: r' => r'
  | _ => r
  end.

Fixpoint b64_decode (vs : list N) : list N :=
  match vs with
  | a :: b :: c :: d :: rest =>
      let n := (((a * 64 + b) * 64 + c) * 64 + d)%N in
      (n / 65536)%N :: (n / 256 mod 256)%N :: (n mod 256)%N :: b64_decode rest
  | [a; b; c] =>
      let n := (((a * 64 + b) * 64 + c) / 4)%N in
      [(n / 256)%N; (n mod 256)%N]
  | [a; b] => [((a * 64 + b) / 16)%N]
  | _ => []
  end.

(** [atob(data)]: the decoded bytes (the char codes of the binary
    string), or [None] where it throws [InvalidCharacterError]. *)
Definition atob (data : jsstring) : option (list N) :=
  let d := filter (fun c => is_ascii_whitespace c = false) data in
  let d := if decide (length d mod 4 = 0)%nat
           then reverse (strip_padding_rev (reverse d)) else d in
  if decide (length d mod 4 = 1)%nat then None
  else b64_decode <$> mapM b64_value d.

End JsString.

(* ===================================================================== *)
(** ** [createWavUrl]: the audio container encoder *)
(* ===================================================================== *)

Module Wav.
Import JsString.

(** An [ArrayBuffer]: its bytes. *)
Abbreviation buffer := (list N).

(** [view.setUint8(offset, v)]; [None] stands for the [RangeError] of an
    access outside the buffer. *)
Definition setUint8 (offset : nat) (v : N) (buf : buffer) : option buffer :=
  if decide (offset < length buf)%nat
  then Some (<[offset := (v mod 256)%N]> buf)
  else None.

(** The [n] low bytes of [v], least significant first. *)
Fixpoint le_bytes (n : nat) (v : N) : list N :=
  match n with
  | O => []
  | S n' => (v mod 256)%N :: le_bytes n' (v / 256)%N
  end.

(** Overwrites [buf] from [offset] on with [bs]. *)
Definition blit (offset : nat) (bs : list N) (buf : buffer) : buffer :=
  take offset buf ++ bs ++ drop (offset + length bs) buf.

(** [ToUint32] / [ToUint16] of an integer-valued number. *)
Definition ToUint (bits : Z) (v : Z) : N := Z.to_N (v mod 2 ^ bits).

(** [view.setUint32(offset, v, true)]. *)
Definition setUint32 (offset : nat) (v : Z) (buf : buffer) : option buffer :=
  if decide (offset + 4 <= length buf)%nat
  then Some (blit offset (le_bytes 4 (ToUint 32 v)) buf)
  else None.

(** [view.setUint16(offset, v, true)]. *)
Definition setUint16 (offset : nat) (v : Z) (buf : buffer) : option buffer :=
  if decide (offset + 2 <= length buf)%nat
  then Some (blit offset (le_bytes 2 (ToUint 16 v)) buf)
  else None.

(** Sequencing of writes: an exception skips what follows. *)
Definition and_then (m : option buffer) (f : buffer -> option buffer)
  : option buffer :=
  match m with
  | Some buf => f buf
  | None => None
  end.

Local Infix ">>=" := and_then (at level 61, left associativity).

(** The local [writeString(offset, string)]: one [setUint8] per code unit. *)
Fixpoint writeString (offset : nat) (s : jsstring) (buf : buffer) : option buffer :=
  match s with
  | [] => Some buf
  | c :: r => setUint8 offset c buf >>= writeString (S offset) r
  end.

(** [view.getUint32(offset, true)] and [view.getUint16(offset, true)], used
    to read the header back. *)
Fixpoint of_le_bytes (bs : list N) : N :=
  match bs with
  | [] => 0%N
  | b :: r => (b + 256 * of_le_bytes r)%N
  end.

Definition getUint (n : nat) (offset : nat) (buf : buffer) : Z :=
  Z.of_N (of_le_bytes (take n (drop offset buf))).

(** Lines 264-285: the buffer [createWavUrl] builds around the decoded
    payload [bytes].  [sampleRate] is an integer-valued number (the product
    [sampleRate * 2] is then exact in binary64 for every rate below
    [2^52]). *)
Definition wav_buffer (bytes : list N) (sampleRate : Z) : option buffer :=
  let n := length bytes in
  let buffer := replicate (44 + n) 0%N in
  writeString 0 (lit "RIFF") buffer
  >>= setUint32 4 (36 + Z.of_nat n)
  >>= writeString 8 (lit "WAVE")
  >>= writeString 12 (lit "fmt ")
  >>= setUint32 16 16
  >>= setUint16 20 1
  >>= setUint16 22 1
  >>= setUint32 24 sampleRate
  >>= setUint32 28 (sampleRate * 2)
  >>= setUint16 32 2
  >>= setUint16 34 16
  >>= writeString 36 (lit "data")
  >>= setUint32 40 (Z.of_nat n)
  >>= (fun buffer => Some (blit 44 (map (fun b => b mod 256)%N bytes) buffer)).

(** [createWavUrl(base64, sampleRate)].  The object URL is identified with
    the bytes of the blob it names; [None] is the exception of [atob]. *)
Definition createWavUrl (base64 : jsstring) (sampleRate : Z) : option buffer :=
  match atob base64 with
  | Some bytes => wav_buffer bytes sampleRate
  | None => None
  end.

End Wav.

(* ===================================================================== *)
(** ** The server: [usersDb] and its handlers *)
(* ===================================================================== *)

Module Ledger.
Import JsNum.

(** [usersDb]'s values: [{ email, credits, isPremium }]. *)
Record user := mkUser {
  email : string;
  credits : number;
  isPremium : bool
}.

Definition SPECIAL_EMAILS : list string :=
  [ "amliyarsachin248@gmail.com"; "amaliyarmanu5@gmail.com";
    "sachinamliyar15@gmail.com"; "robotlinkan@gmail.com" ]%string.

(** [req.cookies]: each cookie is a string or [undefined]. *)
Record cookies := mkCookies {
  mock_session : option string;
  session : option string
}.

(** [cookie-parser] (line 24) hands the handlers the value that was sent,
    except for a value that starts with j:, which it replaces by what
    [JSON.parse] makes of the rest (when that is truthy): such a cookie
    need not arrive as a string. *)
Definition json_cookie (s : string) : bool := String.prefix "j:" s.

(** The cookies of a request reach the handlers as they were sent. *)
Definition as_sent (ck : cookies) : Prop :=
  ∀ s, mock_session ck = Some s ∨ session ck = Some s -> json_cookie s = false.

(** The members of [Object.prototype].  [usersDb] is a plain object (line
    16), so [usersDb[key]] finds one of them, a truthy value that is no
    account, when [key] names one and is no own property. *)
Definition OBJECT_PROTOTYPE : list string :=
  [ "constructor"; "__proto__"; "hasOwnProperty"; "isPrototypeOf";
    "propertyIsEnumerable"; "toLocaleString"; "toString"; "valueOf";
    "__defineGetter__"; "__defineSetter__"; "__lookupGetter__";
    "__lookupSetter__" ]%string.

(** A key that [usersDb[key]] finds as an own property or not at all. *)
Definition own_only (e : string) : Prop := e ∉ OBJECT_PROTOTYPE.

(** Truthiness of a cookie value: [undefined] and the empty string are
    falsy. *)
Definition truthy (c : option string) : option string :=
  match c with
  | Some s => if decide (s = ""%string) then None else Some s
  | None => None
  end.

(** What a handler sends: [res.status(n).json({ error })] or
    [res.json(user)] (status 200). *)
Inductive response :=
| RError (status : nat) (error : string)
| RUser (u : user).

Definition status_of (r : response) : nat :=
  match r with
  | RError s _ => s
  | RUser _ => 200%nat
  end.

(** The object literal that initialises an account, lines 82-87 and
    150-155. *)
Definition new_user (e : string) : user :=
  let isSpecial := bool_decide (e ∈ SPECIAL_EMAILS) in
  {| email := e;
     credits := if isSpecial then Infinity else 20000%float;
     isPremium := isSpecial |}.

(** [if (!usersDb[email]) usersDb[email] = {...}]. *)
Definition init_user (db : gmap string user) (e : string) : gmap string user :=
  match db !! e with
  | Some _ => db
  | None => <[e := new_user e]> db
  end.

Section Handlers.
(** [jwt.verify(token, JWT_SECRET)]: the [email] of the payload, or
    [None] when it throws (bad signature, expired).  [jwt.sign] issues
    the token for an email. *)
Variable jwt_verify : string -> option string.
Variable jwt_sign : string -> string.

(** [GET /api/user], lines 145-171, for cookies that arrive [as_sent] and
    identities that are [own_only]: [db !! e] is then [usersDb[e]].  (For a
    key that names a member of [Object.prototype] and is no own property,
    lines 149 and 166 find that member: no account is created and the
    answer is 200.) *)
Definition get_user (db : gmap string user) (ck : cookies)
  : gmap string user * response :=
  match truthy (mock_session ck) with
  | Some mockEmail =>
      match db !! mockEmail with
      | Some u => (db, RUser u)
      | None =>
          let u := new_user mockEmail in
          (<[mockEmail := u]> db, RUser u)
      end
  | None =>
      match truthy (session ck) with
      | None => (db, RError 401 "Unauthorized")
      | Some token =>
          match jwt_verify token with
          | Some e =>
              match db !! e with
              | None => (db, RError 404 "User not found")
              | Some u => (db, RUser u)
              end
          | None => (db, RError 401 "Invalid token")
          end
      end
  end.

(** [POST /api/user/deduct], lines 181-205.  [amount] is
    [req.body.amount] after the [ToNumber] that both [<] and [-=] apply
    to it: a missing or non-numeric field arrives as [NaN], an
    out-of-range literal as an infinity.  (A request without a body object
    throws at line 199, before the ledger is touched; it is left out.)
    As [get_user], the handler is modelled for cookies that arrive
    [as_sent] and identities that are [own_only].  (For a key that names a
    member of [Object.prototype] and is no own property, line 196 finds
    that member and the answer is 200 where the model has 404.) *)
Definition deduct (db : gmap string user) (ck : cookies) (amount : number)
  : gmap string user * response :=
  let resolved :=
    match truthy (mock_session ck) with
    | Some mockEmail => inr mockEmail
    | None =>
        match truthy (session ck) with
        | None => inl (RError 401 "Unauthorized")
        | Some token =>
            match jwt_verify token with
            | Some e => inr e
            | None => inl (RError 401 "Invalid token")
            end
        end
    end in
  match resolved with
  | inl r => (db, r)
  | inr e =>
      match db !! e with
      | None => (db, RError 404 "User not found")
      | Some u =>
          if strict_neq (credits u) Infinity then
            if lt (credits u) amount then
              (db, RError 400 "Insufficient credits")
            else
              let u' := {| email := email u;
                           credits := sub (credits u) amount;
                           isPremium := isPremium u |} in
              (<[e := u']> db, RUser u')
          else (db, RUser u)
      end
  end.

(** [/auth/callback] once the identity provider has answered with
    [email], lines 80-95: the account is initialised, then the session
    cookie is signed. *)
Definition auth_callback (db : gmap string user) (e : string)
  : gmap string user * cookies :=
  (init_user db e,
   {| mock_session := None; session := Some (jwt_sign e) |}).

(** A sequence of deduction requests, served one after the other (the
    handler is synchronous, so Node never interleaves two of them). *)
Fixpoint deduct_all (db : gmap string user) (reqs : list (cookies * number))
  : gmap string user :=
  match reqs with
  | [] => db
  | (ck, amount) :: rest => deduct_all (fst (deduct db ck amount)) rest
  end.

(** The identity a request's cookies resolve to in [deduct]. *)
Definition resolves_to (ck : cookies) (e : string) : Prop :=
  truthy (mock_session ck) = Some e
  ∨ (truthy (mock_session ck) = None
     ∧ ∃ token, truthy (session ck) = Some token ∧ jwt_verify token = Some e).

End Handlers.

End Ledger.

(* ===================================================================== *)
(** ** The client: [generateSpeech] and [handleCancel] *)
(* ===================================================================== *)

Module Client.
Import JsNum JsString.

(** *** Values the component holds *)

(** What [res.json()] yields for an answer of the server.  A balance that
    is not finite ([Infinity], [NaN]) is serialised as [null]; a negative
    zero as [0]. *)
Inductive juser :=
| JUser (email : string) (credits : option number) (isPremium : bool)
| JError (error : string).

Definition json_number (f : number) : option number :=
  if is_finite f
  then Some (if strict_eq f 0%float then 0%float else f)
  else None.

Definition to_json (r : Ledger.response) : juser :=
  match r with
  | Ledger.RUser u =>
      JUser (Ledger.email u) (json_number (Ledger.credits u)) (Ledger.isPremium u)
  | Ledger.RError _ e => JError e
  end.

(** The value of the expression [user.credits]. *)
Inductive cval :=
| VNum (n : number)
| VNull
| VUndefined.

Definition credits_of (u : juser) : cval :=
  match u with
  | JUser _ (Some n) _ => VNum n
  | JUser _ None _ => VNull
  | JError _ => VUndefined
  end.

(** [user.credits !== Infinity]. *)
Definition neq_Infinity (v : cval) : bool :=
  match v with
  | VNum n => strict_neq n Infinity
  | VNull | VUndefined => true
  end.

(** [user.credits < n] for a length [n]: [null] is converted to [0],
    [undefined] to [NaN]. *)
Definition lt_length (v : cval) (n : nat) : bool :=
  match v with
  | VNum c => lt c (of_nat n)
  | VNull => lt 0%float (of_nat n)
  | VUndefined => false
  end.

Inductive Mode := tts | voice_changer | dubbing.

#[global] Instance Mode_eq_dec : EqDecision Mode.
Proof. solve_decision. Defined.

Record upload := mkUpload { base64 : jsstring; mimeType : jsstring }.

Record voice := mkVoice { voice_id : jsstring; voice_name : jsstring }.

Record HistoryItem := mkHistoryItem {
  h_id : jsstring;
  h_text : jsstring;
  h_voice : jsstring;
  h_audioUrl : Wav.buffer;
  h_timestamp : number
}.

(** The argument of [setError]: a string, the one template literal that
    prints numbers being kept symbolic. *)
Inductive errmsg :=
| Msg (s : jsstring)
| MsgInsufficient (need : nat) (have : cval).

(** A thrown value, as the [catch] blocks look at it. *)
Record jserror := mkError {
  err_name : option jsstring;
  err_message : option jsstring
}.

(** [new Error(message)]. *)
Definition Error (message : jsstring) : jserror :=
  {| err_name := Some (lit "Error"); err_message := Some message |}.

(** How an awaited call settles. *)
Inductive settled (A : Type) :=
| Return (a : A)
| Throw (e : jserror).
Arguments Return {A} a.
Arguments Throw {A} e.

Inductive AbortController := Controller (aborted : bool).

Definition MAX_CHARS : Z := 20000.

(** *** The component *)

(** What the user chose before pressing the button; no step below changes
    it. *)
Record settings := mkSettings {
  mode : Mode;
  uploadedAudio : option upload;
  targetLanguage : jsstring;
  selectedVoice : voice;
  (** the [DOMException] a failing [atob] throws (its message is the
      browser's) *)
  atob_error : jserror
}.

(** The React state and the ref. *)
Record component := mkComponent {
  text : jsstring;
  user : option juser;
  isGenerating : bool;
  loadingStatus : option jsstring;
  error : option errmsg;
  showMonetization : bool;
  audioUrl : option Wav.buffer;
  history : list HistoryItem;
  abortControllerRef : option AbortController
}.

Definition setText v (c : component) :=
  mkComponent v (user c) (isGenerating c) (loadingStatus c) (error c)
    (showMonetization c) (audioUrl c) (history c) (abortControllerRef c).
Definition setUser v (c : component) :=
  mkComponent (text c) v (isGenerating c) (loadingStatus c) (error c)
    (showMonetization c) (audioUrl c) (history c) (abortControllerRef c).
Definition setIsGenerating v (c : component) :=
  mkComponent (text c) (user c) v (loadingStatus c) (error c)
    (showMonetization c) (audioUrl c) (history c) (abortControllerRef c).
Definition setLoadingStatus v (c : component) :=
  mkComponent (text c) (user c) (isGenerating c) v (error c)
    (showMonetization c) (audioUrl c) (history c) (abortControllerRef c).
Definition setError v (c : component) :=
  mkComponent (text c) (user c) (isGenerating c) (loadingStatus c) v
    (showMonetization c) (audioUrl c) (history c) (abortControllerRef c).
Definition setShowMonetization v (c : component) :=
  mkComponent (text c) (user c) (isGenerating c) (loadingStatus c) (error c)
    v (audioUrl c) (history c) (abortControllerRef c).
Definition setAudioUrl v (c : component) :=
  mkComponent (text c) (user c) (isGenerating c) (loadingStatus c) (error c)
    (showMonetization c) v (history c) (abortControllerRef c).
Definition setHistory v (c : component) :=
  mkComponent (text c) (user c) (isGenerating c) (loadingStatus c) (error c)
    (showMonetization c) (audioUrl c) v (abortControllerRef c).
Definition setAbortControllerRef v (c : component) :=
  mkComponent (text c) (user c) (isGenerating c) (loadingStatus c) (error c)
    (showMonetization c) (audioUrl c) (history c) v.

(** *** One run of [generateSpeech] *)

(** Where a run of [generateSpeech] is suspended.  The closure captured
    [user] when the run started, so the suspended run keeps that value. *)
Inductive pc :=
| Idle
| AwaitTranscribe (u : juser)                       (* line 468 *)
| AwaitSynthesis (u : juser) (processingText : jsstring).  (* line 539 *)

(** The [return] (or the end) through which a run left [generateSpeech]. *)
Inductive exit :=
| Exit_login              (* line 448 *)
| Exit_no_upload          (* line 457 *)
| Exit_preprocess_error   (* line 488 *)
| Exit_empty              (* line 496 *)
| Exit_too_long           (* line 503 *)
| Exit_insufficient       (* line 511 *)
| Exit_cancelled          (* line 589 *)
| Exit_error              (* line 596 *)
| Exit_completed.         (* line 582 *)

(** The calls that leave the component, in the order they are made. *)
Inductive call :=
| CallTranscribe (audio : upload) (prompt : jsstring)   (* gemini-2.5-flash *)
| CallSynthesize (text : jsstring) (voiceName : jsstring) (* ...-preview-tts *)
| CallDeduct (amount : nat).                             (* POST /api/user/deduct *)

(** The browser tab, the server it talks to and the requests in flight
    between them.  [calls] and [last_exit] are a log: no step reads them. *)
Record world := mkWorld {
  ui : component;
  cfg : settings;
  run : pc;
  usersDb : gmap string Ledger.user;
  cookie_jar : Ledger.cookies;
  inflight : list nat;
  calls : list call;
  last_exit : option exit
}.

Definition with_ui (f : component -> component) (w : world) : world :=
  mkWorld (f (ui w)) (cfg w) (run w) (usersDb w) (cookie_jar w) (inflight w)
    (calls w) (last_exit w).
Definition with_run (p : pc) (w : world) : world :=
  mkWorld (ui w) (cfg w) p (usersDb w) (cookie_jar w) (inflight w)
    (calls w) (last_exit w).
Definition with_call (c : call) (w : world) : world :=
  mkWorld (ui w) (cfg w) (run w) (usersDb w) (cookie_jar w) (inflight w)
    (calls w ++ [c]) (last_exit w).
Definition with_exit (e : exit) (w : world) : world :=
  mkWorld (ui w) (cfg w) Idle (usersDb w) (cookie_jar w) (inflight w)
    (calls w) (Some e).
(** [fetch('/api/user/deduct', ...)]: the request leaves; its answer is
    handled when it comes back. *)
Definition send_deduct (amount : nat) (w : world) : world :=
  mkWorld (ui w) (cfg w) (run w) (usersDb w) (cookie_jar w)
    (inflight w ++ [amount]) (calls w ++ [CallDeduct amount]) (last_exit w).

(** What the user or the outside world does next. *)
Inductive event :=
| Generate                                   (* generateSpeech() *)
| Transcribed (r : settled (option jsstring)) (* [textResponse.text] *)
| Synthesized (r : settled (option jsstring)) (id : jsstring) (now : number)
                                             (* [...inlineData?.data] *)
| Cancel                                     (* handleCancel() *)
| Deduct_answered.                           (* the oldest request in flight
                                                is served and answered *)

Definition prompt_of (s : settings) : jsstring :=
  match mode s with
  | dubbing =>
      lit "Translate the speech in this audio to " ++ targetLanguage s
      ++ lit ". Return ONLY the translated text, nothing else."
  | _ =>
      lit "Transcribe the speech in this audio exactly. Return ONLY the transcription, nothing else."
  end.

(** [x || d] for a string that may be [undefined]. *)
Definition or_else (x : option jsstring) (d : jsstring) : jsstring :=
  match x with
  | Some s => if is_empty s then d else s
  | None => d
  end.

(** ["..." + x]. *)
Definition to_string (x : option jsstring) : jsstring :=
  match x with
  | Some s => s
  | None => lit "undefined"
  end.

(** The [finally] block, lines 597-601. *)
Definition finally (c : component) : component :=
  setAbortControllerRef None (setLoadingStatus None (setIsGenerating false c)).

(** The first [catch], lines 483-489. *)
Definition preprocess_failed (err : jserror) (w : world) : world :=
  with_exit Exit_preprocess_error
    (with_ui (fun c =>
       setLoadingStatus None (setIsGenerating false
         (setError (Some (Msg (lit "Failed to process audio file. "
                               ++ to_string (err_message err)))) c))) w).

(** [err.name === 'AbortError' || err.message?.includes('abort')]. *)
Definition is_abort (err : jserror) : bool :=
  match err_name err with
  | Some n => bool_decide (n = lit "AbortError")
  | None => false
  end
  || match err_message err with
     | Some m => includes m (lit "abort")
     | None => false
     end.

Definition is_quota (err : jserror) : bool :=
  match err_message err with
  | Some m =>
      negb (is_empty m)
      && (includes m (lit "429") || includes m (lit "RESOURCE_EXHAUSTED")
          || includes m (lit "quota"))
  | None => false
  end.

(** The second [catch] and the [finally], lines 586-601. *)
Definition generation_failed (err : jserror) (w : world) : world :=
  if is_abort err then
    with_exit Exit_cancelled (with_ui finally w)
  else
    let message :=
      if is_quota err then
        lit "API Quota Exceeded (429): Your API key has reached its limit. Please wait a minute or check your Google Cloud billing."
      else
        or_else (err_message err)
          (lit "Connection failed. Please check your internet or API key.") in
    with_exit Exit_error
      (with_ui (fun c => finally (setError (Some (Msg message)) c)) w).

(** Lines 492-549: from the checks on the resolved text to the suspended
    synthesis call. *)
Definition synthesize (u : juser) (processingText : jsstring) (w : world)
  : world :=
  let stop (m : errmsg) (c : component) :=
    setLoadingStatus None (setIsGenerating false (setError (Some m) c)) in
  if is_empty (trim processingText) then
    with_exit Exit_empty (with_ui (stop (Msg (lit "Text is empty."))) w)
  else if len processingText >? MAX_CHARS then
    with_exit Exit_too_long
      (with_ui (stop (Msg (lit "Text exceeds the 20000 character limit."))) w)
  else if neq_Infinity (credits_of u)
          && lt_length (credits_of u) (length processingText) then
    with_exit Exit_insufficient
      (with_ui (fun c =>
         setLoadingStatus None (setIsGenerating false (setShowMonetization true
           (setError (Some (MsgInsufficient (length processingText)
                                            (credits_of u))) c)))) w)
  else
    with_run (AwaitSynthesis u processingText)
      (with_call (CallSynthesize processingText (voice_id (selectedVoice (cfg w))))
        (with_ui (fun c =>
           setAbortControllerRef (Some (Controller false))
             (setError None
               (setLoadingStatus (Some (lit "Generating AI voice..."))
                 (setIsGenerating true c)))) w)).

(** Lines 459-476: the transcription or translation call is made and the
    run is suspended on it. *)
Definition transcribe (u : juser) (audio : upload) (w : world) : world :=
  with_run (AwaitTranscribe u)
    (with_call (CallTranscribe audio (prompt_of (cfg w)))
      (with_ui (fun c =>
         setError None
           (setLoadingStatus
              (Some (if decide (mode (cfg w) = dubbing)
                     then lit "Translating audio..."
                     else lit "Analyzing audio..."))
              (setIsGenerating true c))) w)).

(** Lines 445-490: [generateSpeech] up to its first suspension. *)
Definition generateSpeech (w : world) : world :=
  match user (ui w) with
  | None => with_exit Exit_login w
  | Some u =>
      if decide (mode (cfg w) = tts) then synthesize u (text (ui w)) w
      else
        match uploadedAudio (cfg w) with
        | None =>
            with_exit Exit_no_upload
              (with_ui (setError (Some (Msg (lit "Please upload an audio file first.")))) w)
        | Some audio => transcribe u audio w
        end
  end.

(** Lines 478-482, when the transcription or translation call settles. *)
Definition transcribed (u : juser) (r : settled (option jsstring)) (w : world)
  : world :=
  match r with
  | Throw err => preprocess_failed err w
  | Return t =>
      let processingText := or_else t [] in
      if is_empty (trim processingText) then
        preprocess_failed (Error (lit "Could not extract speech from audio.")) w
      else
        synthesize u processingText (with_ui (setText processingText) w)
  end.

(** Lines 551-585, when the synthesis call wins the race.  The timer of
    line 576, which starts the playback, touches the audio element only and
    is left out. *)
Definition synthesized (u : juser) (processingText : jsstring)
    (r : settled (option jsstring)) (id : jsstring) (now : number) (w : world)
  : world :=
  match r with
  | Throw err => generation_failed err w
  | Return data =>
      let base64Audio := or_else data [] in
      if is_empty base64Audio then
        generation_failed
          (Error (lit "The AI model returned an empty response. Please try again with shorter text or a different voice."))
          w
      else
        let w1 :=
          if neq_Infinity (credits_of u)
          then send_deduct (length processingText) w
          else w in
        match Wav.createWavUrl base64Audio 24000 with
        | None => generation_failed (atob_error (cfg w)) w1
        | Some url =>
            let newItem :=
              {| h_id := id;
                 h_text := if len processingText >? 80
                           then substring0 80 processingText ++ lit "..."
                           else processingText;
                 h_voice := voice_name (selectedVoice (cfg w));
                 h_audioUrl := url;
                 h_timestamp := now |} in
            with_exit Exit_completed
              (with_ui (fun c =>
                 finally (setHistory (newItem :: history c)
                           (setAudioUrl (Some url) c))) w1)
        end
  end.

(** [handleCancel], lines 604-611.  [abort()] fires the listener of line
    545, which rejects the race with [new Error('AbortError')]; the [catch]
    of the suspended run then handles that error. *)
Definition handleCancel (w : world) : world :=
  match abortControllerRef (ui w) with
  | None => w
  | Some _ =>
      let w1 :=
        with_ui (fun c =>
          setLoadingStatus None (setIsGenerating false
            (setAbortControllerRef None c))) w in
      match run w with
      | AwaitSynthesis _ _ => generation_failed (Error (lit "AbortError")) w1
      | _ => w1
      end
  end.

Section Steps.
Variable jwt_verify : string -> option string.

(** The server serves the oldest request in flight; line 560 stores the
    parsed answer with [setUser]. *)
Definition deduct_answered (w : world) : world :=
  match inflight w with
  | [] => w
  | amount :: rest =>
      let '(db, r) :=
        Ledger.deduct jwt_verify (usersDb w) (cookie_jar w) (of_nat amount) in
      mkWorld (setUser (Some (to_json r)) (ui w)) (cfg w) (run w) db
        (cookie_jar w) rest (calls w) (last_exit w)
  end.

(** One event.  An event no suspended run waits for changes nothing.
    The world has one run slot: [generateSpeech] itself has no guard
    (lines 445-449), and a call while a run is suspended would start a
    second, overlapping run; the model covers the sessions in which it is
    called only when no run is suspended, and leaves such a call out. *)
Definition step (w : world) (e : event) : world :=
  match e, run w with
  | Generate, Idle => generateSpeech w
  | Transcribed r, AwaitTranscribe u => transcribed u r w
  | Synthesized r id now, AwaitSynthesis u t => synthesized u t r id now w
  | Cancel, _ => handleCancel w
  | Deduct_answered, _ => deduct_answered w
  | _, _ => w
  end.

Definition steps (w : world) (es : list event) : world :=
  fold_left step es w.

End Steps.

(** The states of the pipeline, as the run and its last exit show them:
    a suspended run is preprocessing or synthesizing; a run that is over
    completed, was cancelled (the [return] of line 589) or failed (any other
    exit that reports an error). *)
Inductive pipeline :=
| NotStarted | Preprocessing | Synthesizing | Completed | Cancelled | Failed.

Definition pipeline_of (w : world) : pipeline :=
  match run w, last_exit w with
  | AwaitTranscribe _, _ => Preprocessing
  | AwaitSynthesis _ _, _ => Synthesizing
  | Idle, Some Exit_completed => Completed
  | Idle, Some Exit_cancelled => Cancelled
  | Idle, Some Exit_login => NotStarted
  | Idle, Some _ => Failed
  | Idle, None => NotStarted
  end.

End Client.

(* ===================================================================== *)
(** ** The rest of the session: signing in and out, the profile fetches *)
(* ===================================================================== *)

Module Session.
Import JsNum JsString Client.

(** *** The server *)

(** [POST /api/auth/logout], lines 174-178: the answer clears both cookies
    in the browser; [usersDb] is not touched. *)
Definition logout (db : gmap string Ledger.user) (ck : Ledger.cookies)
  : gmap string Ledger.user * Ledger.cookies :=
  (db, {| Ledger.mock_session := None; Ledger.session := None |}).

(** The [login()] of the preview page, lines 123-136: an empty input does
    nothing; otherwise the marker cookie is set to the input
    ([encodeURIComponent], which [cookie-parser] undoes).  The handlers
    then see the input itself, unless it starts with j: (see
    [Ledger.json_cookie]). *)
Definition mock_login (input : string) (jar : Ledger.cookies) : Ledger.cookies :=
  if decide (input = EmptyString) then jar
  else {| Ledger.mock_session := Some input; Ledger.session := Ledger.session jar |}.

(** A request as the server sees it: the route, the cookies it carries and
    its body.  [AuthCallback e] is [/auth/callback] once the identity
    provider has answered with [e]. *)
Inductive request :=
| GetUser (ck : Ledger.cookies)
| Deduct (ck : Ledger.cookies) (amount : number)
| AuthCallback (e : string)
| Logout (ck : Ledger.cookies).

Section Server.
Variable jwt_verify : string -> option string.
Variable jwt_sign : string -> string.

(** What serving one request leaves in [usersDb]. *)
Definition serve (db : gmap string Ledger.user) (r : request)
  : gmap string Ledger.user :=
  match r with
  | GetUser ck => fst (Ledger.get_user jwt_verify db ck)
  | Deduct ck amount => fst (Ledger.deduct jwt_verify db ck amount)
  | AuthCallback e => fst (Ledger.auth_callback jwt_sign db e)
  | Logout ck => fst (logout db ck)
  end.

Definition serve_all (db : gmap string Ledger.user) (rs : list request)
  : gmap string Ledger.user :=
  fold_left serve rs db.

(** *** The client *)

(** Lines 339-345, what [setUser] receives: the parsed body of an answer
    that is [ok] and has no [error] field, else [null]. *)
Definition loaded_user (r : Ledger.response) : option juser :=
  match r with
  | Ledger.RUser _ => Some (to_json r)
  | Ledger.RError _ _ => None
  end.

(** Lines 653-658, the balance in the header of a signed-in visitor: the
    word Unlimited or the number.  [None] is the [TypeError] of calling
    [toLocaleString] on [null] or [undefined], which ends the render. *)
Inductive label :=
| Unlimited
| Amount (n : number).

Definition render_credits (u : juser) : option label :=
  match credits_of u with
  | VNum n => Some (if strict_eq n Infinity then Unlimited else Amount n)
  | VNull | VUndefined => None
  end.

(** Whether the header renders. *)
Definition renders (c : component) : bool :=
  match user c with
  | Some u => bool_decide (is_Some (render_credits u))
  | None => true
  end.

Definition with_server (db : gmap string Ledger.user) (jar : Ledger.cookies)
    (f : component -> component) (w : world) : world :=
  mkWorld (f (ui w)) (cfg w) (run w) db jar (inflight w) (calls w) (last_exit w).

(** The effect of lines 337-350: the profile request of the first render
    is served and its answer stored. *)
Definition fetch_user_on_load (w : world) : world :=
  let '(db, r) := Ledger.get_user jwt_verify (usersDb w) (cookie_jar w) in
  with_server db (cookie_jar w) (setUser (loaded_user r)) w.

(** [handleMessage], lines 354-361, on a message whose [data.type] is
    ['OAUTH_AUTH_SUCCESS']: the profile is requested and the parsed answer
    is stored, whatever its status. *)
Definition handleMessage (w : world) : world :=
  let '(db, r) := Ledger.get_user jwt_verify (usersDb w) (cookie_jar w) in
  with_server db (cookie_jar w) (setUser (Some (to_json r))) w.

(** [handleLogout], lines 376-386, the request being answered. *)
Definition handleLogout (w : world) : world :=
  let '(db, jar) := logout (usersDb w) (cookie_jar w) in
  with_server db jar
    (fun c => setAudioUrl None (setHistory [] (setUser None c))) w.

(** The popup of [handleLogin] ends on the preview page, where the visitor
    submits [input] ... *)
Definition preview_login (input : string) (w : world) : world :=
  with_server (usersDb w) (mock_login input (cookie_jar w)) id w.

(** ... or on [/auth/callback], the identity provider naming [e]. *)
Definition google_login (e : string) (w : world) : world :=
  let '(db, ck) := Ledger.auth_callback jwt_sign (usersDb w) e in
  with_server db
    {| Ledger.mock_session := Ledger.mock_session (cookie_jar w);
       Ledger.session := Ledger.session ck |}
    id w.

Definition set_jar (jar : Ledger.cookies) (w : world) : world :=
  mkWorld (ui w) (cfg w) (run w) (usersDb w) jar (inflight w) (calls w)
    (last_exit w).

(** A request carries the cookies the jar held when [fetch] was called.
    [deduct_answered] reads the jar when the request is served, which is
    the same as long as the jar has not changed in between; [served ck]
    is the oldest deduction in flight being served with the cookies [ck]
    it left with. *)
Definition served (ck : Ledger.cookies) (w : world) : world :=
  set_jar (cookie_jar w) (deduct_answered jwt_verify (set_jar ck w)).

(** What happens in a session, besides the events of a generation run.
    A profile or sign-out request and the callback that stores its answer
    are taken together.  A render that throws (see [render_credits])
    takes the component off the page: the visitor can then do nothing
    more, while suspended runs and requests in flight still complete; the
    sequences of actions below include the ones that stop there. *)
Inductive action :=
| Pipeline (e : event)
| Served (ck : Ledger.cookies)
| Typed (t : jsstring)    (* line 734 *)
| Loaded
| Message
| PreviewLogin (input : string)
| GoogleLogin (e : string)
| LoggedOut.

Definition act (w : world) (a : action) : world :=
  match a with
  | Pipeline e => step jwt_verify w e
  | Served ck => served ck w
  | Typed t => with_ui (setText t) w
  | Loaded => fetch_user_on_load w
  | Message => handleMessage w
  | PreviewLogin input => preview_login input w
  | GoogleLogin e => google_login e w
  | LoggedOut => handleLogout w
  end.

Definition acts (w : world) (l : list action) : world := fold_left act l w.

(** [generateSpeech] has no guard of its own against a second call while
    a run is suspended (lines 445-449).  The sequences of actions in
    which it is not called then: [Generate] comes only when no run is
    suspended. *)
Definition starts_no_second_run (w : world) (a : action) : bool :=
  match a, run w with
  | Pipeline Generate, AwaitTranscribe _ => false
  | Pipeline Generate, AwaitSynthesis _ _ => false
  | _, _ => true
  end.

Fixpoint one_run_at_a_time (w : world) (l : list action) : bool :=
  match l with
  | [] => true
  | a :: l' => starts_no_second_run w a && one_run_at_a_time (act w a) l'
  end.

End Server.

(** The first render: nothing typed, nobody signed in, no run started. *)
Definition first_render (s : settings) (db : gmap string Ledger.user)
    (jar : Ledger.cookies)
  : world :=
  {| ui := {| text := []; user := None; isGenerating := false;
              loadingStatus := None; error := None; showMonetization := false;
              audioUrl := None; history := []; abortControllerRef := None |};
     cfg := s; run := Idle; usersDb := db; cookie_jar := jar;
     inflight := []; calls := []; last_exit := None |}.

End Session.

(* ===================================================================== *)
(** * Properties *)
(* ===================================================================== *)

(** ** Binary64 subtraction and comparison

    [PrimFloat]'s operations are specified by [SpecFloat]'s; the facts the
    ledger needs are proved on the specification: subtracting a number
    that is not greater from a finite one that is not below zero gives a
    number that is not below zero, and subtracting a negative number never
    gives less. *)

Module SF.

Abbreviation fexp := (SpecFloat.fexp prec emax).
Abbreviation valid := (SpecFloat.valid_binary prec emax).

Lemma fexp_mono a b : a <= b -> fexp a <= fexp b.
Proof. unfold SpecFloat.fexp; lia. Qed.

Lemma fexp_ge_emin a : emin <= fexp a.
Proof. unfold SpecFloat.fexp; lia. Qed.

Lemma digits2_pos_bounds (m : positive) :
  2 ^ (Z.pos (digits2_pos m) - 1) <= Z.pos m < 2 ^ Z.pos (digits2_pos m).
Proof.
  induction m as [p IH|p IH|]; cbn [digits2_pos].
  - rewrite Pos2Z.inj_succ, Z.pow_succ_r by lia.
    replace (Z.succ (Z.pos (digits2_pos p)) - 1) with (Z.succ (Z.pos (digits2_pos p) - 1)) by lia.
    rewrite Z.pow_succ_r by lia. lia.
  - rewrite Pos2Z.inj_succ, Z.pow_succ_r by lia.
    replace (Z.succ (Z.pos (digits2_pos p)) - 1) with (Z.succ (Z.pos (digits2_pos p) - 1)) by lia.
    rewrite Z.pow_succ_r by lia. lia.
  - cbn. lia.
Qed.

Lemma digits2_pos_shift (p m : positive) :
  digits2_pos (shift_pos p m) = (digits2_pos m + p)%positive.
Proof.
  unfold shift_pos. induction p as [|p IH] using Pos.peano_ind.
  - cbn. lia.
  - rewrite Pos.iter_succ. cbn [digits2_pos]. rewrite IH. lia.
Qed.

Lemma shl_align_spec (m : positive) (e e' : Z) :
  e' <= e ->
  let r := shl_align m e e' in
  Z.pos (fst r) = Z.pos m * 2 ^ (e - e') /\ snd r = e'
  /\ Z.pos (digits2_pos (fst r)) + snd r = Z.pos (digits2_pos m) + e.
Proof.
  intros He. unfold shl_align.
  destruct (e' - e) as [|d|d] eqn:Hd; cbn [fst snd]; try lia.
  - replace (e - e') with 0 by lia. replace e' with e by lia. lia.
  - change (Pos.iter xO m d) with (shift_pos d m).
    rewrite shift_pos_correct, digits2_pos_shift, Z.pow_pos_fold.
    replace (e - e') with (Z.pos d) by lia. lia.
Qed.

Lemma shl_align_noop (m : positive) (e e' : Z) :
  e <= e' -> shl_align m e e' = (m, e).
Proof.
  intros He. unfold shl_align. destruct (e' - e) eqn:Hd; try reflexivity. lia.
Qed.

(** Of two canonical positive floats the one with the bigger exponent is
    the bigger number. *)
Lemma canonical_exp_lt (mx my : positive) (ex ey : Z) :
  canonical_mantissa prec emax mx ex = true ->
  canonical_mantissa prec emax my ey = true ->
  ey < ex -> Z.pos my < Z.pos mx * 2 ^ (ex - ey).
Proof.
  unfold canonical_mantissa. intros Hx%Z.eqb_eq Hy%Z.eqb_eq Hlt.
  assert (Hd : Z.pos (digits2_pos my) + ey < Z.pos (digits2_pos mx) + ex).
  { destruct (Z.lt_ge_cases (Z.pos (digits2_pos my) + ey) (Z.pos (digits2_pos mx) + ex)) as [|Hge]; [assumption|].
    apply fexp_mono in Hge. lia. }
  pose proof (digits2_pos_bounds mx) as [Hx1 _].
  pose proof (digits2_pos_bounds my) as [_ Hy2].
  assert (2 ^ Z.pos (digits2_pos my) <= 2 ^ (Z.pos (digits2_pos mx) - 1 + (ex - ey)))
    by (apply Z.pow_le_mono_r; lia).
  rewrite Z.pow_add_r in H by lia.
  assert (0 < 2 ^ (ex - ey)) by (apply Z.pow_pos_nonneg; lia).
  nia.
Qed.

(** *** Right shifts and rounding never go below the truncation *)

Lemma shr_1_m mrs : 0 <= shr_m mrs -> shr_m (shr_1 mrs) = shr_m mrs / 2.
Proof.
  destruct mrs as [m r s]. cbn [shr_m shr_1]. intros Hm.
  rewrite <- Z.div2_div.
  destruct m as [|[p|p|]|p]; cbn; try reflexivity; lia.
Qed.

Lemma pow2_xO (p : positive) : 2 ^ Z.pos p~0 = 2 ^ Z.pos p * 2 ^ Z.pos p.
Proof. rewrite <- Z.pow_add_r by lia. f_equal. lia. Qed.

Lemma pow2_xI (p : positive) : 2 ^ Z.pos p~1 = 2 * (2 ^ Z.pos p * 2 ^ Z.pos p).
Proof.
  rewrite <- Z.pow_add_r, <- Z.pow_succ_r by lia. f_equal. lia.
Qed.

Lemma iter_shr_1_m (p : positive) : forall mrs,
  0 <= shr_m mrs ->
  shr_m (SpecFloat.iter_pos shr_1 p mrs) = shr_m mrs / 2 ^ Z.pos p.
Proof.
  assert (P2 : forall q, 0 < 2 ^ Z.pos q) by (intros; apply Z.pow_pos_nonneg; lia).
  induction p as [p IH|p IH|]; intros mrs Hm; cbn [SpecFloat.iter_pos].
  - assert (H1 : 0 <= shr_m (shr_1 mrs)) by (rewrite shr_1_m by lia; apply Z.div_pos; lia).
    assert (H2 : 0 <= shr_m (SpecFloat.iter_pos shr_1 p (shr_1 mrs)))
      by (rewrite IH by lia; apply Z.div_pos; [lia|apply P2]).
    rewrite IH, IH, shr_1_m by lia.
    pose proof (P2 p).
    rewrite !Z.div_div by lia.
    rewrite pow2_xI. f_equal; ring.
  - assert (H2 : 0 <= shr_m (SpecFloat.iter_pos shr_1 p mrs))
      by (rewrite IH by lia; apply Z.div_pos; [lia|apply P2]).
    rewrite IH, IH by lia.
    pose proof (P2 p).
    rewrite !Z.div_div by lia.
    rewrite pow2_xO. reflexivity.
  - rewrite shr_1_m by lia. reflexivity.
Qed.

Lemma shr_spec mrs e n :
  0 <= shr_m mrs ->
  let r := shr mrs e n in
  shr_m (fst r) = shr_m mrs / 2 ^ (Z.max 0 n) /\ snd r = e + Z.max 0 n.
Proof.
  intros Hm. unfold shr. destruct n as [|p|p]; cbn [fst snd].
  - rewrite Z.max_id. cbn. rewrite Z.div_1_r. lia.
  - rewrite Z.max_r by lia. rewrite iter_shr_1_m by lia. lia.
  - rewrite Z.max_l by lia. cbn. rewrite Z.div_1_r. lia.
Qed.

Lemma shr_record_of_loc_m m l : shr_m (shr_record_of_loc m l) = m.
Proof. destruct l as [|[| |]]; reflexivity. Qed.

Lemma round_nearest_even_ge m l : m <= round_nearest_even m l.
Proof.
  unfold round_nearest_even. destruct l as [|[| |]]; try lia.
  destruct (Z.even m); lia.
Qed.

(** [shr_fexp] on a positive mantissa: it is divided by [2 ^ k], where [k]
    is the distance (if positive) to the canonical exponent, and stays
    positive. *)
Lemma shr_fexp_spec (m : positive) (e : Z) (l : location) :
  emin <= e ->
  let r := shr_fexp prec emax (Z.pos m) e l in
  let k := Z.max 0 (fexp (Z.pos (digits2_pos m) + e) - e) in
  shr_m (fst r) = Z.pos m / 2 ^ k /\ snd r = e + k /\ 0 < shr_m (fst r).
Proof.
  intros He r k. subst r. unfold shr_fexp. cbn [Zdigits2].
  destruct (shr_spec (shr_record_of_loc (Z.pos m) l) e
              (fexp (Z.pos (digits2_pos m) + e) - e)) as [H1 H2].
  { rewrite shr_record_of_loc_m. lia. }
  rewrite shr_record_of_loc_m in H1. fold k in H1, H2.
  rewrite H1, H2. repeat split.
  assert (Hk : k <= Z.pos (digits2_pos m) - 1).
  { unfold k, SpecFloat.fexp, SpecFloat.emin, prec, emax in *. lia. }
  pose proof (digits2_pos_bounds m) as [Hlo _].
  assert (2 ^ k <= 2 ^ (Z.pos (digits2_pos m) - 1)) by (apply Z.pow_le_mono_r; lia).
  assert (0 < 2 ^ k) by (apply Z.pow_pos_nonneg; unfold k; lia).
  apply Z.div_str_pos. lia.
Qed.

Lemma canonical_ge_emin m e : canonical_mantissa prec emax m e = true -> emin <= e.
Proof.
  unfold canonical_mantissa. intros H%Z.eqb_eq. rewrite <- H. apply fexp_ge_emin.
Qed.

(** Rounding a positive integer [M * 2^e] that is at least the canonical
    float [mx * 2^ex] never gives less than that float. *)
Lemma binary_round_ge (mx : positive) (ex : Z) (M : positive) (e : Z) :
  canonical_mantissa prec emax mx ex = true ->
  emin <= e <= ex ->
  Z.pos mx * 2 ^ (ex - e) <= Z.pos M ->
  SFleb (S754_finite false mx ex) (binary_round prec emax false M e) = true.
Proof.
  intros Cx [Hemin He] Hle.
  pose proof Cx as Hcx. unfold canonical_mantissa in Hcx. apply Z.eqb_eq in Hcx.
  set (dM := Z.pos (digits2_pos M)).
  set (E := fexp (dM + e)).
  (* the exponent after rounding is at least [ex] *)
  assert (HE : ex <= E).
  { rewrite <- Hcx. apply fexp_mono.
    pose proof (digits2_pos_bounds mx) as [Hlo _].
    pose proof (digits2_pos_bounds M) as [_ Hhi]. fold dM in Hhi.
    destruct (Z.lt_ge_cases (dM + e) (Z.pos (digits2_pos mx) + ex)) as [Hlt|]; [|lia].
    exfalso.
    assert (2 ^ dM <= 2 ^ (Z.pos (digits2_pos mx) - 1 + (ex - e)))
      by (apply Z.pow_le_mono_r; lia).
    rewrite Z.pow_add_r in H by lia.
    assert (0 < 2 ^ (ex - e)) by (apply Z.pow_pos_nonneg; lia).
    nia. }
  unfold binary_round. fold dM. fold E.
  (* left alignment *)
  assert (Hal : exists mz ez, shl_align M e E = (mz, ez)
              /\ Z.pos mz = Z.pos M * 2 ^ (e - ez) /\ emin <= ez <= e /\ ez <= E
              /\ Z.pos (digits2_pos mz) + ez = dM + e).
  { destruct (Z.lt_ge_cases E e) as [Hlt|Hge].
    - destruct (shl_align_spec M e E ltac:(lia)) as (H1 & H2 & H3).
      destruct (shl_align M e E) as [mz ez]. cbn [fst snd] in *.
      exists mz, ez. subst ez.
      repeat split; try lia; try assumption; apply fexp_ge_emin.
    - rewrite shl_align_noop by lia. exists M, e.
      rewrite Z.sub_diag, Z.mul_1_r. repeat split; lia. }
  destruct Hal as (mz & ez & -> & Hmz & [Hez1 Hez2] & Hez3 & Hdz).
  unfold binary_round_aux.
  (* first shift *)
  pose proof (shr_fexp_spec mz ez loc_Exact Hez1) as (Hq & He' & Hqpos).
  destruct (shr_fexp prec emax (Z.pos mz) ez loc_Exact) as [mrs' e'].
  cbn [fst snd] in Hq, He', Hqpos.
  rewrite Hdz in Hq, He'. fold E in Hq, He'.
  rewrite Z.max_r in Hq, He' by lia.
  replace (ez + (E - ez)) with E in He' by lia. subst e'.
  (* rounding *)
  pose proof (round_nearest_even_ge (shr_m mrs') (loc_of_shr_record mrs')) as Hr.
  destruct (round_nearest_even (shr_m mrs') (loc_of_shr_record mrs')) as [|m1|m1] eqn:Hm1;
    try lia.
  (* second shift *)
  assert (HEmin : emin <= E) by apply fexp_ge_emin.
  pose proof (shr_fexp_spec m1 E loc_Exact HEmin) as (Hq2 & He'' & Hq2pos).
  destruct (shr_fexp prec emax (Z.pos m1) E loc_Exact) as [mrs'' e''].
  cbn [fst snd] in Hq2, He'', Hq2pos.
  set (k2 := Z.max 0 (fexp (Z.pos (digits2_pos m1) + E) - E)) in *.
  destruct (shr_m mrs'') as [|m2|m2] eqn:Hm2; try lia.
  destruct (e'' <=? emax - prec); [|reflexivity].
  unfold SFleb, SFcompare.
  destruct (Z.compare_spec ex e'') as [Heq|Hlt|Hgt]; try reflexivity.
  - (* same exponent: the mantissa did not shrink *)
    assert (k2 = 0) by lia. assert (E = ex) by lia.
    rewrite H in Hq2. cbn in Hq2. rewrite Z.div_1_r in Hq2.
    assert (Z.pos mx <= shr_m mrs').
    { rewrite Hq. apply Z.div_le_lower_bound.
      - apply Z.pow_pos_nonneg; lia.
      - rewrite Hmz.
        replace (E - ez) with ((ex - e) + (e - ez)) by lia.
        rewrite Z.pow_add_r by lia.
        assert (0 < 2 ^ (e - ez)) by (apply Z.pow_pos_nonneg; lia).
        assert (0 < 2 ^ (ex - e)) by (apply Z.pow_pos_nonneg; lia).
        nia. }
    rewrite Pos.compare_cont_spec. cbn.
    destruct (Pos.compare_spec mx m2); try reflexivity. lia.
  - unfold k2 in *. lia.
Qed.

(** A zero or a positive finite number. *)
Definition is_finite_nonneg (f : spec_float) : bool :=
  match f with
  | S754_zero _ => true
  | S754_finite s _ _ => negb s
  | _ => false
  end.

(** A negative number, [-Infinity] included. *)
Definition is_negative (f : spec_float) : bool :=
  match f with
  | S754_infinity s => s
  | S754_finite s _ _ => s
  | _ => false
  end.

(** Subtracting a negative number from a finite non-negative one never
    gives less. *)
Lemma sub_negative_ge (x y : spec_float) :
  valid x = true -> valid y = true ->
  is_finite_nonneg x = true -> is_negative y = true ->
  SFleb x (SF64sub x y) = true.
Proof.
  intros Vx Vy Hx Hy.
  destruct x as [sx|sx| |sx mx ex]; try discriminate;
    destruct y as [sy|sy| |sy my ey]; try discriminate;
    cbn in Hx, Hy; subst;
    try (destruct sx; try discriminate; reflexivity).
  destruct sx; [discriminate|].
  unfold SF64sub, SFsub. cbn [cond_Zopp].
  cbn in Vx, Vy. unfold bounded in Vx, Vy.
  apply andb_true_iff in Vx as [Cx _], Vy as [Cy _].
  pose proof (canonical_ge_emin _ _ Cx). pose proof (canonical_ge_emin _ _ Cy).
  set (ez := Z.min ex ey).
  destruct (shl_align_spec mx ex ez ltac:(lia)) as (Hx1 & _ & _).
  change (Z.pos (fst (shl_align mx ex ez)) - Z.neg (fst (shl_align my ey ez)))
    with (Z.pos (fst (shl_align mx ex ez) + fst (shl_align my ey ez))).
  cbn [binary_normalize].
  apply binary_round_ge; try assumption; try lia.
Qed.

(** *** Differences that are numbers not below zero *)

(** A number that is not below zero: a zero, a positive finite number or
    [+Infinity]; [NaN] is none. *)
Definition nonneg (f : spec_float) : bool :=
  match f with
  | S754_zero _ => true
  | S754_infinity s => negb s
  | S754_finite s _ _ => negb s
  | S754_nan => false
  end.

Definition is_number (f : spec_float) : bool :=
  match f with
  | S754_nan => false
  | _ => true
  end.

Lemma leb_zero f : SFleb (S754_zero false) f = nonneg f.
Proof. destruct f as [s|s| |s m e]; try destruct s; reflexivity. Qed.

Lemma eqb_refl f : SFeqb f f = is_number f.
Proof.
  destruct f as [s|s| |s m e]; try destruct s; try reflexivity;
    unfold SFeqb; cbn [SFcompare is_number];
    rewrite Z.compare_refl, Pos.compare_cont_refl; reflexivity.
Qed.

(** Rounding a positive integer gives a positive number or [+Infinity],
    never [NaN]. *)
Lemma binary_round_aux_nonneg (m : positive) (e : Z) :
  emin <= e ->
  nonneg (binary_round_aux prec emax false (Z.pos m) e loc_Exact) = true.
Proof.
  intros He. unfold binary_round_aux.
  pose proof (shr_fexp_spec m e loc_Exact He) as (Hq & He' & Hqpos).
  destruct (shr_fexp prec emax (Z.pos m) e loc_Exact) as [mrs' e'].
  cbn [fst snd] in Hq, He', Hqpos.
  pose proof (round_nearest_even_ge (shr_m mrs') (loc_of_shr_record mrs')) as Hr.
  destruct (round_nearest_even (shr_m mrs') (loc_of_shr_record mrs')) as [|m1|m1];
    try lia.
  assert (He1 : emin <= e') by lia.
  pose proof (shr_fexp_spec m1 e' loc_Exact He1) as (_ & _ & Hq2pos).
  destruct (shr_fexp prec emax (Z.pos m1) e' loc_Exact) as [mrs'' e''].
  cbn [fst] in Hq2pos.
  destruct (shr_m mrs'') as [|m2|m2]; try lia.
  destruct (e'' <=? emax - prec); reflexivity.
Qed.

Lemma binary_round_nonneg (M : positive) (e : Z) :
  emin <= e -> nonneg (binary_round prec emax false M e) = true.
Proof.
  intros He. unfold binary_round.
  set (E := fexp (Z.pos (digits2_pos M) + e)).
  destruct (Z.lt_ge_cases E e) as [Hlt|Hge].
  - destruct (shl_align_spec M e E ltac:(lia)) as (_ & H2 & _).
    destruct (shl_align M e E) as [mz ez]. cbn [snd] in H2. subst ez.
    apply binary_round_aux_nonneg, fexp_ge_emin.
  - rewrite shl_align_noop by lia. by apply binary_round_aux_nonneg.
Qed.

(** [x - y] is a number not below zero when [x] is one, finite, and [y] is
    a number that is not greater. *)
Lemma sub_nonneg (x y : spec_float) :
  valid x = true -> valid y = true ->
  is_finite_nonneg x = true -> is_number y = true -> SFltb x y = false ->
  nonneg (SF64sub x y) = true.
Proof.
  intros Vx Vy Hx Hy Hxy.
  destruct x as [sx|sx| |sx mx ex], y as [sy|sy| |sy my ey];
    try (repeat match goal with s : bool |- _ => destruct s end;
         cbn in Hx, Hy, Hxy |- *; first [reflexivity | discriminate]).
  cbn in Hx. destruct sx; [discriminate|].
  cbn in Vx, Vy. unfold bounded in Vx, Vy.
  apply andb_true_iff in Vx as [Cx _], Vy as [Cy _].
  pose proof (canonical_ge_emin _ _ Cx) as Hex.
  pose proof (canonical_ge_emin _ _ Cy) as Hey.
  unfold SF64sub, SFsub.
  assert (Hmin : emin <= Z.min ex ey) by lia.
  assert (Hpos : 0 <= cond_Zopp false (Z.pos (fst (shl_align mx ex (Z.min ex ey))))
                      - cond_Zopp sy (Z.pos (fst (shl_align my ey (Z.min ex ey))))).
  { destruct sy; cbn [cond_Zopp]; [lia|].
    unfold SFltb, SFcompare in Hxy.
    destruct (Z.compare_spec ex ey) as [He|He|He]; try discriminate.
    - subst ey. rewrite Z.min_id.
      rewrite !shl_align_noop by lia. cbn [fst].
      rewrite Pos.compare_cont_spec in Hxy. cbn in Hxy.
      destruct (Pos.compare_spec mx my); cbn in Hxy; try discriminate; lia.
    - rewrite Z.min_r by lia.
      rewrite (shl_align_noop my) by lia.
      destruct (shl_align_spec mx ex ey ltac:(lia)) as (-> & _ & _).
      cbn [fst].
      pose proof (canonical_exp_lt mx my ex ey Cx Cy He). lia. }
  destruct (_ - _) as [|p|p]; cbn [binary_normalize]; try lia; [reflexivity|].
  by apply binary_round_nonneg.
Qed.

(** Of two numbers, the one that is not less is greater or equal. *)
Lemma leb_of_not_ltb (x y : spec_float) :
  is_number x = true -> is_number y = true ->
  SFltb x y = false -> SFleb y x = true.
Proof.
  intros Hx Hy.
  destruct x as [sx|sx| |sx mx ex], y as [sy|sy| |sy my ey];
    try discriminate;
    try (repeat match goal with s : bool |- _ => destruct s end;
         cbn; congruence).
  unfold SFltb, SFleb. cbn [SFcompare].
  rewrite (Z.compare_antisym ex ey), !Pos.compare_cont_spec,
    (Pos.compare_antisym mx my).
  destruct sx, sy; destruct (ex ?= ey); destruct (mx ?= my)%positive;
    cbn; congruence.
Qed.

End SF.

Module JsNumFacts.
Import JsNum.

Lemma le_zero_nonneg (b : number) : le 0%float b = SF.nonneg (Prim2SF b).
Proof.
  unfold le. rewrite FloatAxioms.leb_spec.
  change (Prim2SF 0) with (S754_zero false). apply SF.leb_zero.
Qed.

Lemma is_number_spec (a : number) : is_number a = SF.is_number (Prim2SF a).
Proof. unfold is_number, strict_eq. rewrite FloatAxioms.eqb_spec. apply SF.eqb_refl. Qed.

(** What is left of a finite balance not below zero after an amount that
    is a number and not greater is a number not below zero. *)
Lemma sub_stays_nonneg (b a : number) :
  le 0%float b = true -> strict_neq b Infinity = true ->
  is_number a = true -> lt b a = false ->
  le 0%float (sub b a) = true.
Proof.
  rewrite !le_zero_nonneg, is_number_spec.
  unfold strict_neq, strict_eq, Infinity, lt, sub.
  rewrite FloatAxioms.eqb_spec, FloatAxioms.ltb_spec, FloatAxioms.sub_spec.
  change (Prim2SF infinity) with (S754_infinity false).
  intros Hb Hfin Ha Hlt.
  apply SF.sub_nonneg; auto using Prim2SF_valid.
  destruct (Prim2SF b) as [s|s| |s m e]; try destruct s; try reflexivity;
    discriminate.
Qed.

(** An amount that passes the test of line 201 is not greater than the
    balance, when both are numbers. *)
Lemma not_lt_is_le (b a : number) :
  le 0%float b = true -> is_number a = true -> lt b a = false -> le a b = true.
Proof.
  rewrite le_zero_nonneg, is_number_spec. unfold lt, le.
  rewrite FloatAxioms.ltb_spec, FloatAxioms.leb_spec. intros Hb Ha Hlt.
  apply SF.leb_of_not_ltb; auto.
  destruct (Prim2SF b) as [s|s| |s m e]; try destruct s; try reflexivity;
    discriminate.
Qed.

(** A finite non-negative [b] and a negative [a] (possibly [-Infinity]):
    [b <= b - a]. *)
Lemma sub_negative_never_decreases (b a : number) :
  le 0%float b = true -> strict_neq b Infinity = true ->
  lt a 0%float = true ->
  le b (sub b a) = true.
Proof.
  unfold le, lt, strict_neq, strict_eq, sub, Infinity.
  rewrite !FloatAxioms.leb_spec, !FloatAxioms.ltb_spec, FloatAxioms.eqb_spec, FloatAxioms.sub_spec.
  change (Prim2SF 0) with (S754_zero false).
  change (Prim2SF infinity) with (S754_infinity false).
  intros Hb Hfin Ha.
  apply SF.sub_negative_ge; auto using Prim2SF_valid.
  - destruct (Prim2SF b) as [s|s| |s m e]; try destruct s; try reflexivity; discriminate.
  - destruct (Prim2SF a) as [s|s| |s m e]; try destruct s; try reflexivity; discriminate.
Qed.

(** A negative amount is never greater than a non-negative balance. *)
Lemma negative_not_greater (b a : number) :
  le 0%float b = true -> lt a 0%float = true -> lt b a = false.
Proof.
  unfold le, lt. rewrite FloatAxioms.leb_spec, !FloatAxioms.ltb_spec.
  change (Prim2SF 0) with (S754_zero false).
  destruct (Prim2SF b) as [s|s| |s m e]; try destruct s;
    destruct (Prim2SF a) as [s'|s'| |s' m' e']; try destruct s';
    cbn; congruence.
Qed.

End JsNumFacts.

(* ===================================================================== *)
(** ** The ledger *)
(* ===================================================================== *)

Module LedgerFacts.
Import JsNum Ledger.

(** The account [deduct] writes back. *)
Definition charged (u : user) (amount : number) : user :=
  {| email := email u; credits := sub (credits u) amount; isPremium := isPremium u |}.

(** A token format to run the handlers on: ["jwt:" ++ email]. *)
Definition demo_sign (e : string) : string := String.append "jwt:" e.

Definition demo_verify (token : string) : option string :=
  match token with
  | String "j" (String "w" (String "t" (String ":" e))) => Some e
  | _ => None
  end.

Definition mock_cookie (e : string) : cookies :=
  {| mock_session := Some e; session := None |}.

Definition session_cookie (token : string) : cookies :=
  {| mock_session := None; session := Some token |}.

(** An ordinary account holding [c] credits. *)
Definition account (e : string) (c : number) : user :=
  {| email := e; credits := c; isPremium := false |}.

Section Deduct.
Variable jwt_verify : string -> option string.

(** Once the cookies name an identity with an account, [deduct] is the
    three-way choice of lines 200-204. *)
Lemma deduct_resolved db ck e u amount :
  resolves_to jwt_verify ck e -> db !! e = Some u ->
  deduct jwt_verify db ck amount =
    if strict_neq (credits u) Infinity then
      if lt (credits u) amount then (db, RError 400 "Insufficient credits")
      else (<[e := charged u amount]> db, RUser (charged u amount))
    else (db, RUser u).
Proof.
  intros Hres Hu. unfold deduct.
  destruct Hres as [-> | (-> & token & -> & ->)]; rewrite Hu; reflexivity.
Qed.

(** Whatever the cookies, [deduct] leaves the ledger alone or charges one
    metered account an amount that passes the test of line 201. *)
Lemma deduct_effect db ck amount :
  fst (deduct jwt_verify db ck amount) = db
  ∨ ∃ e u, db !! e = Some u
           ∧ strict_neq (credits u) Infinity = true
           ∧ lt (credits u) amount = false
           ∧ fst (deduct jwt_verify db ck amount) = <[e := charged u amount]> db.
Proof.
  unfold deduct.
  destruct (truthy (mock_session ck)) as [m|].
  - destruct (db !! m) as [u|] eqn:Hu; [|by left].
    destruct (strict_neq _ _) eqn:Hne; [|by left].
    destruct (lt (credits u) amount) eqn:Hlt; [by left|].
    right. by exists m, u.
  - destruct (truthy (session ck)) as [token|]; [|by left].
    destruct (jwt_verify token) as [e|]; [|by left].
    destruct (db !! e) as [u|] eqn:Hu; [|by left].
    destruct (strict_neq _ _) eqn:Hne; [|by left].
    destruct (lt (credits u) amount) eqn:Hlt; [by left|].
    right. by exists e, u.
Qed.

(** The invariant of the ledger: the balance of [e] is a number that is
    not below zero ([0 <= credits], which [NaN] fails). *)
Definition not_below_zero (e : string) (db : gmap string user) : Prop :=
  ∀ u, db !! e = Some u -> le 0%float (credits u) = true.

(** The requests whose amounts are numbers. *)
Definition numeric (reqs : list (cookies * number)) : Prop :=
  Forall (fun r => is_number (snd r) = true) reqs.

(** The requests whose cookies arrive as they were sent. *)
Definition all_as_sent (reqs : list (cookies * number)) : Prop :=
  Forall (fun r => as_sent (fst r)) reqs.

Lemma deduct_preserves e db ck amount :
  is_number amount = true ->
  not_below_zero e db -> not_below_zero e (fst (deduct jwt_verify db ck amount)).
Proof.
  intros Hnum Hinv.
  destruct (deduct_effect db ck amount)
    as [-> | (e' & u & Hu & Hmetered & Hlt & ->)]; [assumption|].
  intros u'. destruct (decide (e' = e)) as [->|Hne].
  - rewrite lookup_insert_eq. intros [= <-]. cbn.
    apply JsNumFacts.sub_stays_nonneg; auto.
  - rewrite lookup_insert_ne by done. apply Hinv.
Qed.

Lemma deduct_all_preserves e reqs : ∀ db,
  numeric reqs ->
  not_below_zero e db -> not_below_zero e (deduct_all jwt_verify db reqs).
Proof.
  induction reqs as [|[ck amount] reqs IH]; intros db Hnum Hinv; cbn [deduct_all].
  - assumption.
  - apply Forall_cons in Hnum as [Ha Hnum].
    by apply IH, deduct_preserves.
Qed.

(** C1, as the handler has it.  An account whose balance is a number not
    below zero keeps such a balance, whatever sequence of deduction
    requests (by whatever identities) the server serves, as long as their
    cookies arrive as they were sent and their amounts are numbers
    ([-Infinity] and [Infinity] included, [NaN] excluded).  And each such
    request that reaches a metered account either is refused with status
    400 and ["Insufficient credits"], the balance being less than the
    amount and the ledger unchanged, or subtracts an amount that is not
    greater than the balance it finds and leaves a number not below
    zero. *)
Theorem deduct_never_below_zero db e u :
  db !! e = Some u -> le 0%float (credits u) = true ->
  (∀ reqs u', all_as_sent reqs -> numeric reqs ->
              deduct_all jwt_verify db reqs !! e = Some u' ->
              le 0%float (credits u') = true)
  ∧ (∀ db' v ck amount,
       db' !! e = Some v -> strict_neq (credits v) Infinity = true ->
       le 0%float (credits v) = true -> is_number amount = true ->
       as_sent ck -> own_only e -> resolves_to jwt_verify ck e ->
       (lt (credits v) amount = true
        ∧ deduct jwt_verify db' ck amount = (db', RError 400 "Insufficient credits"))
       ∨ (le amount (credits v) = true
          ∧ deduct jwt_verify db' ck amount
            = (<[e := charged v amount]> db', RUser (charged v amount))
          ∧ le 0%float (credits (charged v amount)) = true)).
Proof.
  intros Hu Hpos. split.
  - intros reqs u' _ Hnum. apply (deduct_all_preserves e reqs db Hnum).
    intros u0. rewrite Hu. by intros [= <-].
  - intros db' v ck amount Hv Hmetered Hv0 Hnum _ _ Hres.
    rewrite (deduct_resolved db' ck e v amount Hres Hv), Hmetered.
    destruct (lt (credits v) amount) eqn:Hlt; [by left|]. right.
    repeat apply conj; try reflexivity.
    + by apply JsNumFacts.not_lt_is_le.
    + by apply JsNumFacts.sub_stays_nonneg.
Qed.

(** C2.  For an identity with an account and any amount: an unlimited
    balance is answered with the account, unchanged; otherwise a balance
    below the amount is answered with status 400 and the ledger is
    unchanged; otherwise the amount is subtracted and the updated account
    is answered. *)
Theorem deduct_three_cases db ck e u amount :
  resolves_to jwt_verify ck e -> db !! e = Some u ->
  (strict_eq (credits u) Infinity = true ->
     deduct jwt_verify db ck amount = (db, RUser u))
  ∧ (strict_eq (credits u) Infinity = false -> lt (credits u) amount = true ->
       deduct jwt_verify db ck amount = (db, RError 400 "Insufficient credits")
       ∧ status_of (snd (deduct jwt_verify db ck amount)) = 400%nat)
  ∧ (strict_eq (credits u) Infinity = false -> lt (credits u) amount = false ->
       deduct jwt_verify db ck amount
       = (<[e := charged u amount]> db, RUser (charged u amount))
       ∧ credits (charged u amount) = sub (credits u) amount).
Proof.
  intros Hres Hu.
  rewrite (deduct_resolved db ck e u amount Hres Hu). unfold strict_neq.
  split; [|split].
  - intros ->. reflexivity.
  - intros -> ->. split; reflexivity.
  - intros -> ->. split; reflexivity.
Qed.

(** C10, as the handler has it.  The amount is not validated: on a
    metered account with a non-negative balance a negative amount
    (possibly [-Infinity]) passes the test of line 201, is subtracted,
    and the updated account is answered; the balance never decreases.
    (It need not grow: binary64 subtraction rounds.) *)
Theorem deduct_negative_amount db ck e u amount :
  resolves_to jwt_verify ck e -> db !! e = Some u ->
  strict_neq (credits u) Infinity = true -> le 0%float (credits u) = true ->
  lt amount 0%float = true ->
  lt (credits u) amount = false
  ∧ deduct jwt_verify db ck amount
    = (<[e := charged u amount]> db, RUser (charged u amount))
  ∧ credits (charged u amount) = sub (credits u) amount
  ∧ le (credits u) (credits (charged u amount)) = true.
Proof.
  intros Hres Hu Hmetered Hpos Hneg.
  pose proof (JsNumFacts.negative_not_greater _ _ Hpos Hneg) as Hpass.
  rewrite (deduct_resolved db ck e u amount Hres Hu), Hmetered, Hpass.
  repeat split; try done.
  by apply JsNumFacts.sub_negative_never_decreases.
Qed.

(** C6, as the handlers have it, for cookies that arrive as they were
    sent and identities that [usersDb] holds only as own properties.  In
    [GET /api/user] the preview marker of an identity without an account
    creates the account and answers with it; a valid session token of an
    identity without an account is answered 404 and creates nothing.
    [POST /api/user/deduct] never creates an account: whichever
    credential names an identity without one, the answer is 404.  The
    account of a token's identity is created by [/auth/callback], before
    the token is signed. *)
Theorem accounts_created_by_marker_and_callback (jwt_sign : string -> string) db :
  (∀ ck m, as_sent ck -> truthy (mock_session ck) = Some m -> own_only m ->
     db !! m = None ->
     get_user jwt_verify db ck = (<[m := new_user m]> db, RUser (new_user m)))
  ∧ (∀ ck token e, as_sent ck ->
       truthy (mock_session ck) = None -> truthy (session ck) = Some token ->
       jwt_verify token = Some e -> own_only e -> db !! e = None ->
       get_user jwt_verify db ck = (db, RError 404 "User not found"))
  ∧ (∀ ck e amount, as_sent ck -> resolves_to jwt_verify ck e -> own_only e ->
       db !! e = None ->
       deduct jwt_verify db ck amount = (db, RError 404 "User not found"))
  ∧ (∀ e, own_only e ->
          is_Some (fst (auth_callback jwt_sign db e) !! e)
          ∧ session (snd (auth_callback jwt_sign db e)) = Some (jwt_sign e)).
Proof.
  repeat apply conj.
  - intros ck m _ Hm _ Hnone. unfold get_user. by rewrite Hm, Hnone.
  - intros ck token e _ Hm Ht Hv _ Hnone. unfold get_user.
    by rewrite Hm, Ht, Hv, Hnone.
  - intros ck e amount _ Hres _ Hnone. unfold deduct.
    destruct Hres as [-> | (-> & token & -> & ->)]; by rewrite Hnone.
  - intros e _. split; [|done]. cbn. unfold init_user. destruct (db !! e) eqn:He.
    + by rewrite He.
    + by rewrite lookup_insert_eq.
Qed.

End Deduct.

End LedgerFacts.

Module LedgerExamples.
Import JsNum Ledger LedgerFacts.

Definition alice : string := "a@x.com".

(** [alice] is no member of [Object.prototype], and neither her name nor
    her token starts with j:. *)
Lemma alice_own_only : own_only alice.
Proof.
  intros H. unfold OBJECT_PROTOTYPE in H.
  repeat (apply elem_of_cons in H as [H|H]; [discriminate|]).
  by apply elem_of_nil in H.
Qed.

Lemma alice_as_sent :
  as_sent (mock_cookie alice) ∧ as_sent (session_cookie (demo_sign alice)).
Proof. split; intros s [H|H]; cbn in H; by inversion H. Qed.

(** A ledger with one ordinary account. *)
Definition ledger_of (c : number) : gmap string user :=
  {[ alice := account alice c ]}.

(** [-2^-60], a negative amount ([-8.673617379884035e-19] in JSON). *)
Definition tiny_negative : number := (-0x1p-60)%float.

(** On a balance of 100: of three requests the second, which asks for more
    than is left, is refused, and the third empties the account. *)
Lemma deduct_never_below_zero_witness :
  ledger_of 100 !! alice = Some (account alice 100)
  ∧ (∀ reqs u', all_as_sent reqs -> numeric reqs ->
                deduct_all demo_verify (ledger_of 100) reqs !! alice = Some u' ->
                le 0%float (credits u') = true)
  ∧ deduct_all demo_verify (ledger_of 100)
      [(mock_cookie alice, 60%float); (session_cookie (demo_sign alice), 60%float);
       (mock_cookie alice, 40%float)] !! alice
    = Some (account alice 0).
Proof.
  split; [reflexivity|]. split; [|vm_compute; reflexivity].
  apply (deduct_never_below_zero demo_verify (ledger_of 100) alice (account alice 100));
    reflexivity.
Defined.

(** C1 fails as stated.  A request whose body has no numeric [amount]
    reaches the handler as [NaN]: on a balance of 100 it passes the test
    of line 201 and is subtracted, though [NaN] is not an amount that is
    no greater than 100, and it leaves [NaN], which is no balance that is
    at least zero; after that a request for a thousand million credits is
    accepted. *)
Lemma missing_amount_is_accepted :
  deduct demo_verify (ledger_of 100) (mock_cookie alice) NaN
  = (ledger_of NaN, RUser (account alice NaN))
  ∧ le NaN 100 = false
  ∧ le 0 NaN = false
  ∧ deduct demo_verify (ledger_of NaN) (mock_cookie alice) 1e9
    = (ledger_of NaN, RUser (account alice NaN))
  ∧ deduct_all demo_verify (ledger_of 100)
      [(mock_cookie alice, NaN); (mock_cookie alice, 1e9%float)] !! alice
    = Some (account alice NaN).
Proof. vm_compute. repeat split. Qed.

Lemma deduct_three_cases_witness :
  deduct demo_verify (ledger_of 100) (mock_cookie alice) 30%float
  = (<[alice := charged (account alice 100) 30%float]> (ledger_of 100),
     RUser (charged (account alice 100) 30%float))
  ∧ credits (charged (account alice 100) 30%float) = sub 100%float 30%float.
Proof.
  apply (deduct_three_cases demo_verify (ledger_of 100) (mock_cookie alice) alice
           (account alice 100) 30%float); try reflexivity.
  left. reflexivity.
Defined.

(** C10 fails as stated: subtracting [-2^-60] from 20000 gives 20000. *)
Lemma tiny_negative_amount_leaves_balance :
  lt tiny_negative 0%float = true
  ∧ deduct demo_verify (ledger_of 20000) (mock_cookie alice) tiny_negative
    = (ledger_of 20000, RUser (account alice 20000))
  ∧ lt 20000%float (sub 20000%float tiny_negative) = false.
Proof. vm_compute. repeat split. Qed.

Lemma deduct_negative_amount_witness :
  lt 100%float (-5)%float = false
  ∧ deduct demo_verify (ledger_of 100) (mock_cookie alice) (-5)%float
    = (<[alice := charged (account alice 100) (-5)%float]> (ledger_of 100),
       RUser (charged (account alice 100) (-5)%float))
  ∧ credits (charged (account alice 100) (-5)%float) = sub 100%float (-5)%float
  ∧ le 100%float (credits (charged (account alice 100) (-5)%float)) = true.
Proof.
  apply (deduct_negative_amount demo_verify (ledger_of 100) (mock_cookie alice) alice
           (account alice 100) (-5)%float); try reflexivity.
  left. reflexivity.
Defined.

(** C6 fails as stated: a valid token of an identity the ledger has not
    seen (the server restarted, say) is answered 404 and no account
    exists afterwards. *)
Lemma valid_token_creates_no_account :
  demo_verify (demo_sign alice) = Some alice
  ∧ get_user demo_verify ∅ (session_cookie (demo_sign alice))
    = (∅, RError 404 "User not found")
  ∧ fst (get_user demo_verify ∅ (session_cookie (demo_sign alice))) !! alice = None
  ∧ deduct demo_verify ∅ (mock_cookie alice) 5 = (∅, RError 404 "User not found").
Proof. vm_compute. repeat split. Qed.

Lemma accounts_created_by_marker_and_callback_witness :
  get_user demo_verify ∅ (mock_cookie alice)
  = (<[alice := new_user alice]> ∅, RUser (new_user alice))
  ∧ get_user demo_verify ∅ (session_cookie (demo_sign alice))
    = (∅, RError 404 "User not found")
  ∧ deduct demo_verify ∅ (mock_cookie alice) 5
    = (∅, RError 404 "User not found")
  ∧ get_user demo_verify (fst (auth_callback demo_sign ∅ alice))
      (snd (auth_callback demo_sign ∅ alice))
    = (fst (auth_callback demo_sign ∅ alice), RUser (new_user alice)).
Proof.
  destruct (accounts_created_by_marker_and_callback demo_verify demo_sign ∅)
    as (Hmarker & Htoken & Hdeduct & _).
  destruct alice_as_sent as [Hm Hs].
  repeat apply conj.
  - apply Hmarker; [exact Hm | reflexivity | exact alice_own_only | reflexivity].
  - apply (Htoken _ (demo_sign alice) alice);
      [exact Hs | reflexivity | reflexivity | reflexivity | exact alice_own_only
      | reflexivity].
  - apply (Hdeduct _ alice);
      [exact Hm | left; reflexivity | exact alice_own_only | reflexivity].
  - vm_compute. reflexivity.
Defined.

End LedgerExamples.

(* ===================================================================== *)
(** ** The audio container encoder *)
(* ===================================================================== *)

Module WavFacts.
Import JsString Wav.

Local Infix ">>=" := and_then (at level 61, left associativity).

Lemma blit_nil offset buf : blit offset [] buf = buf.
Proof. unfold blit. cbn. rewrite Nat.add_0_r. apply take_drop. Qed.

(** A write that fits in the first part of a buffer stays there. *)
Lemma blit_app_l offset bs pre tl :
  (offset + length bs <= length pre)%nat ->
  blit offset bs (pre ++ tl) = blit offset bs pre ++ tl.
Proof.
  intros H. unfold blit.
  rewrite take_app_le, drop_app_le by lia.
  by rewrite <- !app_assoc.
Qed.

(** A write right after the first part replaces the rest when the sizes
    agree. *)
Lemma blit_app_r bs pre tl :
  length bs = length tl -> blit (length pre) bs (pre ++ tl) = pre ++ bs.
Proof.
  intros H. unfold blit.
  rewrite take_app_length, drop_app_add, H, drop_all. by rewrite app_nil_r.
Qed.

Lemma blit_cons offset c bs buf :
  (offset < length buf)%nat ->
  blit (S offset) bs (<[offset := c]> buf) = blit offset (c :: bs) buf.
Proof.
  intros H. unfold blit.
  rewrite insert_take_drop by lia.
  assert (Hl : length (take offset buf) = offset) by (rewrite length_take; lia).
  replace (S offset) with (length (take offset buf) + 1)%nat at 1 by lia.
  rewrite take_app_add. cbn [take].
  replace (S offset + length bs)%nat
    with (length (take offset buf) + (S (length bs)))%nat by lia.
  rewrite drop_app_add. cbn [drop length].
  rewrite drop_drop, <- app_assoc, take_0. cbn [app].
  by replace (offset + S (length bs))%nat with (S offset + length bs)%nat by lia.
Qed.

Lemma writeString_blit s : ∀ offset buf,
  (offset + length s <= length buf)%nat ->
  writeString offset s buf = Some (blit offset (map (fun c => c mod 256)%N s) buf).
Proof.
  induction s as [|c r IH]; intros offset buf H; cbn [writeString map].
  - by rewrite blit_nil.
  - cbn [length] in H. unfold setUint8.
    rewrite decide_True by lia. cbn [and_then].
    rewrite IH by (rewrite length_insert; lia).
    by rewrite blit_cons by lia.
Qed.

(** A buffer seen as its first bytes and the rest. *)
Definition joined (pre tl : list N) : list N := pre ++ tl.

Lemma writeString_app offset s pre tl :
  (offset + length s <= length pre)%nat ->
  writeString offset s (joined pre tl)
  = Some (joined (blit offset (map (fun c => c mod 256)%N s) pre) tl).
Proof.
  intros H. unfold joined.
  rewrite writeString_blit by (rewrite length_app; lia).
  by rewrite blit_app_l by (rewrite length_map; lia).
Qed.

Lemma length_le_bytes n v : length (le_bytes n v) = n.
Proof. revert v. induction n as [|n IH]; intros v; cbn; [done|by rewrite IH]. Qed.

Lemma setUint32_app offset v pre tl :
  (offset + 4 <= length pre)%nat ->
  setUint32 offset v (joined pre tl)
  = Some (joined (blit offset (le_bytes 4 (ToUint 32 v)) pre) tl).
Proof.
  intros H. unfold setUint32, joined.
  rewrite decide_True by (rewrite length_app; lia).
  by rewrite blit_app_l by (rewrite length_le_bytes; lia).
Qed.

Lemma setUint16_app offset v pre tl :
  (offset + 2 <= length pre)%nat ->
  setUint16 offset v (joined pre tl)
  = Some (joined (blit offset (le_bytes 2 (ToUint 16 v)) pre) tl).
Proof.
  intros H. unfold setUint16, joined.
  rewrite decide_True by (rewrite length_app; lia).
  by rewrite blit_app_l by (rewrite length_le_bytes; lia).
Qed.

(** Reading little-endian bytes back gives the value modulo [256^n]. *)
Lemma of_le_bytes_le_bytes n : ∀ v,
  of_le_bytes (le_bytes n v) = (v mod 256 ^ N.of_nat n)%N.
Proof.
  induction n as [|n IH]; intros v; cbn [le_bytes of_le_bytes].
  - cbn. by rewrite N.mod_1_r.
  - rewrite IH, Nat2N.inj_succ, N.pow_succ_r'.
    by rewrite N.Div0.mod_mul_r.
Qed.

(** The 44 bytes of the header, field by field. *)
Definition header (n : nat) (sampleRate : Z) : list N :=
  lit "RIFF" ++ le_bytes 4 (ToUint 32 (36 + Z.of_nat n))
  ++ lit "WAVE" ++ lit "fmt " ++ le_bytes 4 (ToUint 32 16)
  ++ le_bytes 2 (ToUint 16 1) ++ le_bytes 2 (ToUint 16 1)
  ++ le_bytes 4 (ToUint 32 sampleRate) ++ le_bytes 4 (ToUint 32 (sampleRate * 2))
  ++ le_bytes 2 (ToUint 16 2) ++ le_bytes 2 (ToUint 16 16)
  ++ lit "data" ++ le_bytes 4 (ToUint 32 (Z.of_nat n)).

Lemma length_header n sampleRate : length (header n sampleRate) = 44%nat.
Proof. reflexivity. Qed.

(** One write of the header, performed on the first 44 bytes. *)
Ltac header_write :=
  first [ rewrite writeString_app by (cbn; lia)
        | rewrite setUint32_app by (cbn; lia)
        | rewrite setUint16_app by (cbn; lia) ];
  cbn [and_then blit take drop app length le_bytes map lit
         String.list_ascii_of_string Nat.add].

(** [wav_buffer] never throws: it is the header followed by the payload. *)
Lemma wav_buffer_closed_form bytes sampleRate :
  wav_buffer bytes sampleRate
  = Some (header (length bytes) sampleRate ++ map (fun b => b mod 256)%N bytes).
Proof.
  unfold wav_buffer.
  rewrite replicate_add.
  set (tl := replicate (length bytes) 0%N).
  set (payload := map (fun b => b mod 256)%N bytes).
  assert (Hpl : length payload = length tl)
    by (unfold payload, tl; by rewrite length_map, length_replicate).
  cbn [replicate].
  match goal with |- context [ ?pre ++ tl ] => change (pre ++ tl) with (joined pre tl) end.
  do 13 header_write.
  match goal with
  | |- Some (blit 44 payload (joined ?pre tl)) = _ =>
      unfold joined;
      change 44%nat with (length pre); rewrite (blit_app_r payload pre tl Hpl)
  end.
  reflexivity.
Qed.

Lemma ToUint_lt bits v : 0 <= bits -> (ToUint bits v < 2 ^ Z.to_N bits)%N.
Proof.
  intros Hb. unfold ToUint.
  assert (0 <= v mod 2 ^ bits < 2 ^ bits) by (apply Z.mod_pos_bound, Z.pow_pos_nonneg; lia).
  apply N2Z.inj_lt. rewrite Z2N.id, N2Z.inj_pow, Z2N.id by lia.
  change (Z.of_N 2) with 2. lia.
Qed.

(** C9, as the encoder has it.  For every payload and every sample rate
    the encoder returns (it never throws) a buffer of exactly 44 + N bytes:
    the header with channel count 1 and bit depth 16, then the payload.
    The two fields computed from the arguments hold them modulo [2^32]:
    the byte rate is exactly [R * 2] for [0 <= R < 2^31], the declared
    payload length exactly [N] for [N < 2^32]. *)
Theorem wav_buffer_spec (bytes : list N) (sampleRate : Z) :
  ∃ buf,
    wav_buffer bytes sampleRate = Some buf
    ∧ length buf = (44 + length bytes)%nat
    ∧ drop 44 buf = map (fun b => b mod 256)%N bytes
    ∧ getUint 2 22 buf = 1
    ∧ getUint 2 34 buf = 16
    ∧ getUint 4 28 buf = (sampleRate * 2) mod 2 ^ 32
    ∧ getUint 4 40 buf = Z.of_nat (length bytes) mod 2 ^ 32
    ∧ (0 <= sampleRate < 2 ^ 31 -> getUint 4 28 buf = sampleRate * 2)
    ∧ (Z.of_nat (length bytes) < 2 ^ 32 ->
         getUint 4 40 buf = Z.of_nat (length bytes)).
Proof.
  eexists. split; [apply wav_buffer_closed_form|].
  set (payload := map (fun b => b mod 256)%N bytes).
  assert (Hfield : ∀ v, Z.of_N (of_le_bytes (le_bytes 4 (ToUint 32 v))) = v mod 2 ^ 32).
  { intros v. rewrite of_le_bytes_le_bytes.
    change (256 ^ N.of_nat 4)%N with (2 ^ Z.to_N 32)%N.
    rewrite N.mod_small by (apply ToUint_lt; lia).
    unfold ToUint. apply Z2N.id, Z.mod_pos_bound. lia. }
  assert (H28 : getUint 4 28 (header (length bytes) sampleRate ++ payload)
                = (sampleRate * 2) mod 2 ^ 32) by apply Hfield.
  assert (H40 : getUint 4 40 (header (length bytes) sampleRate ++ payload)
                = Z.of_nat (length bytes) mod 2 ^ 32) by apply Hfield.
  repeat apply conj.
  - rewrite length_app, length_header. unfold payload. by rewrite length_map.
  - change 44%nat with (length (header (length bytes) sampleRate)).
    apply drop_app_length.
  - reflexivity.
  - reflexivity.
  - exact H28.
  - exact H40.
  - intros HR. rewrite H28. apply Z.mod_small. lia.
  - intros HN. rewrite H40. apply Z.mod_small. lia.
Qed.

(** C9 fails as stated: at a sample rate of [2^31] the byte-rate field
    holds 0, not [2^32]. *)
Lemma byte_rate_wraps :
  getUint 4 28 <$> wav_buffer [1; 2]%N (2 ^ 31) = Some 0
  ∧ 2 ^ 31 * 2 = 4294967296.
Proof. vm_compute. split; reflexivity. Qed.

(** The encoder on an empty payload, at the default rate. *)
Lemma wav_buffer_spec_witness :
  ∃ buf, wav_buffer [] 24000 = Some buf
         ∧ length buf = 44%nat
         ∧ getUint 4 28 buf = 48000
         ∧ getUint 4 40 buf = 0.
Proof.
  destruct (wav_buffer_spec [] 24000) as (buf & Hb & Hlen & _ & _ & _ & _ & _ & H28 & H40).
  exists buf. repeat split; try assumption.
  - apply H28. lia.
  - apply H40. cbn. lia.
Defined.

End WavFacts.

(* ===================================================================== *)
(** ** Strings *)
(* ===================================================================== *)

Module JsStringFacts.
Import JsString.

Lemma trim_start_nil (s : jsstring) :
  trim_start s = [] <-> forallb is_white_space s = true.
Proof.
  induction s as [|c r IH]; cbn [trim_start forallb]; [done|].
  destruct (is_white_space c); cbn [andb]; [exact IH|]. split; discriminate.
Qed.

(** What [trim_start] keeps starts with a character that is no white
    space. *)
Lemma trim_start_head (s : jsstring) c r :
  trim_start s = c :: r -> is_white_space c = false.
Proof.
  induction s as [|d s IH]; cbn [trim_start]; [discriminate|].
  destruct (is_white_space d) eqn:Hd; [exact IH|]. by intros [= <- _].
Qed.

(** [!s.trim()] holds exactly for the empty and the white-space-only
    strings. *)
Lemma trim_empty (s : jsstring) :
  is_empty (trim s) = true <-> forallb is_white_space s = true.
Proof.
  unfold trim. split.
  - intros H. apply trim_start_nil.
    destruct (trim_start s) as [|c r] eqn:Hs; [done|]. exfalso.
    pose proof (trim_start_head _ _ _ Hs) as Hc.
    destruct (trim_start (reverse (c :: r))) as [|d q] eqn:Hr.
    + apply trim_start_nil in Hr. rewrite forallb_forall in Hr.
      specialize (Hr c). rewrite Hr in Hc; [discriminate|].
      apply list_elem_of_In, elem_of_reverse. by left.
    + rewrite reverse_cons in H. destruct (reverse q); cbn in H; discriminate.
  - intros H. apply trim_start_nil in H. by rewrite H.
Qed.

Lemma trim_not_empty (s : jsstring) :
  is_empty (trim s) = false <-> forallb is_white_space s = false.
Proof.
  pose proof (trim_empty s) as [H1 H2].
  destruct (is_empty (trim s)), (forallb is_white_space s); intuition congruence.
Qed.

End JsStringFacts.

(* ===================================================================== *)
(** ** The generation pipeline *)
(* ===================================================================== *)

Module ClientFacts.
Import JsNum JsString Client.

(** The message of line 500. *)
Definition text_too_long : errmsg :=
  Msg (lit "Text exceeds the 20000 character limit.").

(** The message of lines 479 and 485 together. *)
Definition empty_transcription : errmsg :=
  Msg (lit "Failed to process audio file. Could not extract speech from audio.").

(** The entry line 566 builds. *)
Definition history_item (w : world) (txt : jsstring) (url : Wav.buffer)
    (id : jsstring) (now : number) : HistoryItem :=
  {| h_id := id;
     h_text := if len txt >? 80 then substring0 80 txt ++ lit "..." else txt;
     h_voice := voice_name (selectedVoice (cfg w));
     h_audioUrl := url;
     h_timestamp := now |}.

(** Nothing was charged and nothing recorded between [w] and [w']. *)
Definition nothing_charged (w w' : world) : Prop :=
  usersDb w' = usersDb w ∧ inflight w' = inflight w
  ∧ history (ui w') = history (ui w).

(** No call of [cs] asks for a synthesis. *)
Definition no_synthesis (cs : list call) : Prop :=
  ∀ t v, CallSynthesize t v ∉ cs.

Lemma infinity_is_not_less (c a : number) :
  lt c a = true -> strict_neq c Infinity = true.
Proof.
  unfold lt, strict_neq, strict_eq, Infinity.
  rewrite FloatAxioms.ltb_spec, FloatAxioms.eqb_spec.
  change (Prim2SF infinity) with (S754_infinity false).
  destruct (Prim2SF c) as [s|s| |s m e]; try destruct s;
    destruct (Prim2SF a) as [s'|s'| |s' m' e']; try destruct s';
    cbn; congruence.
Qed.

Section Runs.
Variable jwt_verify : string -> option string.

(** A resolved text over the ceiling that is not blank stops at line 499:
    no call is made, nothing is charged. *)
Lemma synthesize_too_long u txt w :
  is_empty (trim txt) = false -> len txt > MAX_CHARS ->
  let w' := synthesize u txt w in
  error (ui w') = Some text_too_long
  ∧ last_exit w' = Some Exit_too_long ∧ run w' = Idle
  ∧ calls w' = calls w ∧ nothing_charged w w'.
Proof.
  intros Hne Hlong. unfold synthesize. rewrite Hne.
  apply Z.gtb_gt in Hlong. rewrite Hlong. cbn. by repeat split.
Qed.

Lemma generate_direct w u :
  run w = Idle -> user (ui w) = Some u -> mode (cfg w) = tts ->
  step jwt_verify w Generate = synthesize u (text (ui w)) w.
Proof.
  intros Hrun Hu Hmode. unfold step. rewrite Hrun.
  unfold generateSpeech. by rewrite Hu, decide_True.
Qed.

Lemma generate_upload w u audio :
  run w = Idle -> user (ui w) = Some u ->
  mode (cfg w) ≠ tts -> uploadedAudio (cfg w) = Some audio ->
  step jwt_verify w Generate = transcribe u audio w.
Proof.
  intros Hrun Hu Hmode Hup. unfold step. rewrite Hrun.
  unfold generateSpeech. by rewrite Hu, decide_False, Hup.
Qed.

Lemma step_transcribed w u r :
  run w = AwaitTranscribe u ->
  step jwt_verify w (Transcribed r) = transcribed u r w.
Proof. intros Hrun. unfold step. by rewrite Hrun. Qed.

Lemma step_synthesized w u txt r id now :
  run w = AwaitSynthesis u txt ->
  step jwt_verify w (Synthesized r id now) = synthesized u txt r id now w.
Proof. intros Hrun. unfold step. by rewrite Hrun. Qed.

(** C4, as [generateSpeech] has it.  A resolved text that is over the
    ceiling and not blank ends the run with the text-too-long message
    before any synthesis call.  In direct mode no external call at all
    has been made; in the two upload modes the resolved text is the
    answer of the transcription or translation call, which therefore has
    been made (once) by then. *)
Theorem text_too_long_stops_before_synthesis w u :
  run w = Idle -> user (ui w) = Some u ->
  (mode (cfg w) = tts ->
     is_empty (trim (text (ui w))) = false -> len (text (ui w)) > MAX_CHARS ->
     let w' := step jwt_verify w Generate in
     error (ui w') = Some text_too_long
     ∧ last_exit w' = Some Exit_too_long ∧ run w' = Idle
     ∧ calls w' = calls w ∧ nothing_charged w w')
  ∧ (mode (cfg w) ≠ tts ->
     ∀ audio t, uploadedAudio (cfg w) = Some audio ->
       is_empty (trim t) = false -> len t > MAX_CHARS ->
       let w' := steps jwt_verify w [Generate; Transcribed (Return (Some t))] in
       error (ui w') = Some text_too_long
       ∧ last_exit w' = Some Exit_too_long ∧ run w' = Idle
       ∧ calls w' = calls w ++ [CallTranscribe audio (prompt_of (cfg w))]
       ∧ nothing_charged w w').
Proof.
  intros Hrun Hu. split.
  - intros Hmode Hne Hlong w'. subst w'.
    rewrite (generate_direct w u) by done.
    by apply synthesize_too_long.
  - intros Hmode audio t Hup Hne Hlong w'. subst w'.
    unfold steps. cbn [fold_left].
    rewrite (generate_upload w u audio), (step_transcribed _ u) by done.
    unfold transcribed.
    assert (Ht : or_else (Some t) [] = t).
    { unfold or_else. destruct t; [|done]. cbn in Hne. discriminate. }
    rewrite Ht, Hne.
    match goal with |- context [synthesize u t ?w0] =>
      destruct (synthesize_too_long u t w0 Hne Hlong)
        as (He & Hx & Hr & Hc & Hdb & Hfl & Hh)
    end.
    repeat apply conj; assumption.
Qed.

(** C8.  In the two upload modes, a transcription or translation that
    comes back undefined, empty or blank ends the run with the
    empty-transcription message; the only call made is that one (no
    synthesis call), and nothing is charged: the ledger is unchanged and
    no deduction request has left. *)
Theorem blank_transcription_fails w u audio t :
  run w = Idle -> user (ui w) = Some u ->
  mode (cfg w) ≠ tts -> uploadedAudio (cfg w) = Some audio ->
  forallb is_white_space (or_else t []) = true ->
  let w' := steps jwt_verify w [Generate; Transcribed (Return t)] in
  error (ui w') = Some empty_transcription
  ∧ last_exit w' = Some Exit_preprocess_error ∧ run w' = Idle
  ∧ calls w' = calls w ++ [CallTranscribe audio (prompt_of (cfg w))]
  ∧ nothing_charged w w'.
Proof.
  intros Hrun Hu Hmode Hup Hblank w'. subst w'.
  apply JsStringFacts.trim_empty in Hblank.
  unfold steps. cbn [fold_left].
  rewrite (generate_upload w u audio), (step_transcribed _ u) by done.
  unfold transcribed. rewrite Hblank.
  by repeat apply conj.
Qed.

(** Whether an event is the synthesis call answering with audio. *)
Definition is_audio_answer (e : event) : bool :=
  match e with
  | Synthesized (Return (Some a)) _ _ => negb (is_empty a)
  | _ => false
  end.

(** Only two events charge or record anything: the synthesis call answering
    with audio, and the server answering a deduction.  Every other step
    (a failed check, a failed or blank transcription, a synthesis that
    throws or answers without audio, a cancellation) leaves the ledger, the
    requests in flight and the history as they were. *)
Lemma only_audio_is_charged w e :
  is_audio_answer e = false -> e ≠ Deduct_answered ->
  nothing_charged w (step jwt_verify w e).
Proof.
  intros Haudio Hdeduct.
  destruct e as [|r|r id now| |]; try done; unfold step.
  - destruct (run w); try done.
    unfold generateSpeech, synthesize, transcribe.
    repeat case_match; try discriminate; repeat split; reflexivity.
  - destruct (run w); try done.
    unfold transcribed, synthesize, preprocess_failed.
    repeat case_match; try discriminate; repeat split; reflexivity.
  - destruct (run w); try done.
    unfold synthesized, generation_failed.
    destruct r as [[a|]|err]; cbn in Haudio.
    + apply negb_false_iff in Haudio.
      assert (Ha : or_else (Some a) [] = []) by (unfold or_else; by rewrite Haudio).
      rewrite Ha. repeat case_match; try discriminate; repeat split; reflexivity.
    + repeat case_match; try discriminate; repeat split; reflexivity.
    + repeat case_match; try discriminate; repeat split; reflexivity.
  - unfold handleCancel, generation_failed.
    repeat case_match; try discriminate; repeat split; reflexivity.
Qed.

(** While the transcription call is outstanding no [AbortController]
    exists yet, and [handleCancel] does nothing. *)
Lemma cancel_while_preprocessing w u :
  run w = AwaitTranscribe u -> abortControllerRef (ui w) = None ->
  step jwt_verify w Cancel = w.
Proof. intros Hrun Href. unfold step, handleCancel. by rewrite Href. Qed.

(** While the synthesis call is outstanding [handleCancel] ends the run;
    nothing is charged.  The rejection is [new Error('AbortError')], which
    the [catch] does not recognise as an abort (its name is [Error] and its
    message has no lower-case [abort]), so the message is shown as an
    error. *)
Lemma cancel_while_synthesizing w u txt c :
  run w = AwaitSynthesis u txt -> abortControllerRef (ui w) = Some c ->
  let w' := step jwt_verify w Cancel in
  run w' = Idle ∧ last_exit w' = Some Exit_error
  ∧ error (ui w') = Some (Msg (lit "AbortError"))
  ∧ nothing_charged w w'.
Proof.
  intros Hrun Href w'. subst w'. unfold step, handleCancel.
  rewrite Href, Hrun. by repeat apply conj.
Qed.

End Runs.

End ClientFacts.

Module ClientExamples.
Import JsNum JsString Client ClientFacts LedgerFacts LedgerExamples.

Definition frank : voice :=
  {| voice_id := lit "Puck"; voice_name := lit "VoxAI Frank (Friend Style)" |}.

(** The [DOMException] of [atob], with Chrome's message. *)
Definition invalid_character : jserror :=
  {| err_name := Some (lit "InvalidCharacterError");
     err_message :=
       Some (lit "Failed to execute 'atob' on 'Window': The string to be decoded is not correctly encoded.") |}.

Definition clip : upload :=
  {| base64 := lit "UklGRg=="; mimeType := lit "audio/wav" |}.

(** A tab where [alice] is signed in through the preview marker, showing
    [shown] credits, while the server holds [held] for her. *)
Definition tab (m : Mode) (up : option upload) (txt : jsstring)
    (shown held : number) : world :=
  {| ui := {| text := txt;
              user := Some (JUser alice (Some shown) false);
              isGenerating := false; loadingStatus := None; error := None;
              showMonetization := false; audioUrl := None; history := [];
              abortControllerRef := None |};
     cfg := {| mode := m; uploadedAudio := up; targetLanguage := lit "Hindi";
               selectedVoice := frank; atob_error := invalid_character |};
     run := Idle;
     usersDb := ledger_of held;
     cookie_jar := mock_cookie alice;
     inflight := []; calls := []; last_exit := None |}.

(** [n] times the letter a. *)
Definition letters (n : Z) : jsstring := replicate (Z.to_nat n) 97%N.

(** [n] spaces. *)
Definition spaces (n : Z) : jsstring := replicate (Z.to_nat n) 32%N.

Definition an_id : jsstring := lit "k3j9x0q2a".
Definition a_time : number := 1762128000000%float.

(** Three bytes of audio, [AQID] in base64. *)
Definition three_bytes : jsstring := lit "AQID".

(** The tab shows 20000 credits, the server holds 100, and a direct run on
    500 characters is suspended on its synthesis call. *)
Definition stale_tab_synthesizing : world :=
  step demo_verify (tab tts None (letters 500) 20000 100) Generate.

(** C4 fails as stated.  In voice-changer mode a transcript of 20001
    characters ends the run with the text-too-long message after the
    transcription call has been made.  And in direct mode 20001 spaces end
    it with the text-is-empty message instead. *)
Lemma long_transcript_was_transcribed_first :
  len (letters 20001) > MAX_CHARS
  ∧ error (ui (steps demo_verify (tab voice_changer (Some clip) [] 20000 20000)
                 [Generate; Transcribed (Return (Some (letters 20001)))]))
    = Some text_too_long
  ∧ calls (steps demo_verify (tab voice_changer (Some clip) [] 20000 20000)
             [Generate; Transcribed (Return (Some (letters 20001)))])
    = [CallTranscribe clip
         (lit "Transcribe the speech in this audio exactly. Return ONLY the transcription, nothing else.")]
  ∧ len (spaces 20001) > MAX_CHARS
  ∧ error (ui (step demo_verify (tab tts None (spaces 20001) 20000 20000) Generate))
    = Some (Msg (lit "Text is empty.")).
Proof. vm_compute. repeat split. Qed.

Lemma text_too_long_stops_before_synthesis_witness :
  error (ui (step demo_verify (tab tts None (letters 20001) 20000 20000) Generate))
  = Some text_too_long
  ∧ last_exit (step demo_verify (tab tts None (letters 20001) 20000 20000) Generate)
    = Some Exit_too_long
  ∧ run (step demo_verify (tab tts None (letters 20001) 20000 20000) Generate) = Idle
  ∧ calls (step demo_verify (tab tts None (letters 20001) 20000 20000) Generate)
    = calls (tab tts None (letters 20001) 20000 20000)
  ∧ nothing_charged (tab tts None (letters 20001) 20000 20000)
      (step demo_verify (tab tts None (letters 20001) 20000 20000) Generate).
Proof.
  apply (text_too_long_stops_before_synthesis demo_verify
           (tab tts None (letters 20001) 20000 20000)
           (JUser alice (Some 20000%float) false));
    first [ reflexivity | vm_compute; reflexivity ].
Defined.

(** A dub whose translation comes back as two spaces and a line feed. *)
Lemma blank_transcription_fails_witness :
  error (ui (steps demo_verify (tab dubbing (Some clip) [] 20000 20000)
               [Generate; Transcribed (Return (Some [32; 32; 10]%N))]))
  = Some empty_transcription
  ∧ last_exit (steps demo_verify (tab dubbing (Some clip) [] 20000 20000)
                 [Generate; Transcribed (Return (Some [32; 32; 10]%N))])
    = Some Exit_preprocess_error
  ∧ run (steps demo_verify (tab dubbing (Some clip) [] 20000 20000)
           [Generate; Transcribed (Return (Some [32; 32; 10]%N))])
    = Idle
  ∧ calls (steps demo_verify (tab dubbing (Some clip) [] 20000 20000)
             [Generate; Transcribed (Return (Some [32; 32; 10]%N))])
    = calls (tab dubbing (Some clip) [] 20000 20000)
      ++ [CallTranscribe clip (prompt_of (cfg (tab dubbing (Some clip) [] 20000 20000)))]
  ∧ nothing_charged (tab dubbing (Some clip) [] 20000 20000)
      (steps demo_verify (tab dubbing (Some clip) [] 20000 20000)
         [Generate; Transcribed (Return (Some [32; 32; 10]%N))]).
Proof.
  apply (blank_transcription_fails demo_verify (tab dubbing (Some clip) [] 20000 20000)
           (JUser alice (Some 20000%float) false) clip (Some [32; 32; 10]%N));
    first [ reflexivity | discriminate ].
Defined.

(** C5 on the code.  A voice-changer run: a cancellation while the
    transcription call is outstanding changes nothing, the pipeline stays in
    Preprocessing, and the run goes on to synthesis, history and deduction.
    A cancellation while the synthesis call is outstanding ends the run as a
    failure that shows the message AbortError, not as a cancelled run. *)
Lemma cancel_does_not_reach_cancelled :
  steps demo_verify (tab voice_changer (Some clip) [] 20000 20000) [Generate; Cancel]
  = steps demo_verify (tab voice_changer (Some clip) [] 20000 20000) [Generate]
  ∧ pipeline_of (steps demo_verify (tab voice_changer (Some clip) [] 20000 20000)
                   [Generate; Cancel])
    = Preprocessing
  ∧ last_exit (steps demo_verify (tab voice_changer (Some clip) [] 20000 20000)
                 [Generate; Cancel; Transcribed (Return (Some (lit "hi")));
                  Synthesized (Return (Some three_bytes)) an_id a_time;
                  Deduct_answered])
    = Some Exit_completed
  ∧ usersDb (steps demo_verify (tab voice_changer (Some clip) [] 20000 20000)
               [Generate; Cancel; Transcribed (Return (Some (lit "hi")));
                Synthesized (Return (Some three_bytes)) an_id a_time;
                Deduct_answered])
    = ledger_of 19998
  ∧ pipeline_of (steps demo_verify (tab voice_changer (Some clip) [] 20000 20000)
                   [Generate; Transcribed (Return (Some (lit "hi"))); Cancel])
    = Failed
  ∧ error (ui (steps demo_verify (tab voice_changer (Some clip) [] 20000 20000)
                 [Generate; Transcribed (Return (Some (lit "hi"))); Cancel]))
    = Some (Msg (lit "AbortError")).
Proof. vm_compute. repeat split. Qed.

(** C7 on the code.  A direct run on the text hi whose synthesis answers
    with the string ! (no base64): the deduction has left before [atob]
    throws, so the run fails, records no history, and two credits are
    taken. *)
Lemma undecodable_audio_is_charged :
  atob (lit "!") = None
  ∧ last_exit (steps demo_verify (tab tts None (lit "hi") 20000 20000)
                 [Generate; Synthesized (Return (Some (lit "!"))) an_id a_time;
                  Deduct_answered])
    = Some Exit_error
  ∧ pipeline_of (steps demo_verify (tab tts None (lit "hi") 20000 20000)
                   [Generate; Synthesized (Return (Some (lit "!"))) an_id a_time;
                    Deduct_answered])
    = Failed
  ∧ history (ui (steps demo_verify (tab tts None (lit "hi") 20000 20000)
                   [Generate; Synthesized (Return (Some (lit "!"))) an_id a_time;
                    Deduct_answered]))
    = []
  ∧ usersDb (steps demo_verify (tab tts None (lit "hi") 20000 20000)
               [Generate; Synthesized (Return (Some (lit "!"))) an_id a_time;
                Deduct_answered])
    = ledger_of 19998.
Proof. vm_compute. repeat split. Qed.

End ClientExamples.

(* ===================================================================== *)
(** * Further properties *)
(* ===================================================================== *)

(** ** Whole numbers in binary64

    Balances and text lengths are whole numbers far below [2^53]; on those
    binary64 subtraction and comparison are the ones of the integers. *)

Module SFExact.
Import SF.

(** The number of binary digits is determined by the two bounds. *)
Lemma digits2_pos_unique (m : positive) (d : Z) :
  2 ^ (d - 1) <= Z.pos m < 2 ^ d -> Z.pos (digits2_pos m) = d.
Proof.
  intros [Hlo Hhi].
  pose proof (digits2_pos_bounds m) as [Hlo' Hhi'].
  set (d' := Z.pos (digits2_pos m)) in *.
  assert (0 < d).
  { destruct (Z.lt_ge_cases 0 d) as [|Hd]; [done|]. exfalso.
    destruct (Z.eq_dec d 0) as [->|].
    - cbn in Hhi. lia.
    - rewrite Z.pow_neg_r in Hhi by lia. lia. }
  destruct (Z.lt_trichotomy d' d) as [Hlt|[Heq|Hgt]]; [|done|]; exfalso.
  - assert (2 ^ d' <= 2 ^ (d - 1)) by (apply Z.pow_le_mono_r; lia). lia.
  - assert (2 ^ d <= 2 ^ (d' - 1)) by (apply Z.pow_le_mono_r; lia). lia.
Qed.

(** Shifting right by as many places as a mantissa was shifted left is
    exact: nothing is lost and the location stays exact. *)
Lemma iter_shr_1_exact (p : positive) : forall T : positive,
  SpecFloat.iter_pos shr_1 p
    {| shr_m := Z.pos (shift_pos p T); shr_r := false; shr_s := false |}
  = {| shr_m := Z.pos T; shr_r := false; shr_s := false |}.
Proof.
  unfold shift_pos.
  induction p as [p IH|p IH|]; intros T; cbn [SpecFloat.iter_pos Pos.iter].
  - cbn [shr_1 orb]. by rewrite IH, IH.
  - by rewrite IH, IH.
  - reflexivity.
Qed.

(** A mantissa of 53 digits at a representable exponent, written with
    extra low zero bits, rounds to itself. *)
Lemma binary_round_aux_exact (mz T : positive) (ez E : Z) :
  Z.pos mz = Z.pos T * 2 ^ (E - ez) -> ez <= E ->
  Z.pos (digits2_pos T) = prec -> emin <= E <= emax - prec ->
  binary_round_aux prec emax false (Z.pos mz) ez loc_Exact = S754_finite false T E.
Proof.
  intros Hmz Hez HT [HE1 HE2].
  assert (HfE : fexp (prec + E) = E) by (unfold SpecFloat.fexp; lia).
  assert (Hdz : Z.pos (digits2_pos mz) + ez = prec + E).
  { destruct (Z.eq_dec ez E) as [->|Hne].
    - rewrite Z.sub_diag, Z.mul_1_r in Hmz. injection Hmz as ->. lia.
    - assert (Hp : exists p, E - ez = Z.pos p) by (exists (Z.to_pos (E - ez)); lia).
      destruct Hp as [p Hp]. rewrite Hp in Hmz.
      assert (mz = shift_pos p T).
      { apply Pos2Z.inj. rewrite shift_pos_correct, Z.pow_pos_fold. lia. }
      subst mz. rewrite digits2_pos_shift. lia. }
  unfold binary_round_aux, shr_fexp. cbn [Zdigits2].
  rewrite Hdz, HfE.
  assert (Hshr : shr (shr_record_of_loc (Z.pos mz) loc_Exact) ez (E - ez)
                 = ({| shr_m := Z.pos T; shr_r := false; shr_s := false |}, E)).
  { unfold shr. cbn [shr_record_of_loc].
    destruct (E - ez) as [|p|p] eqn:Hp; try lia.
    - rewrite Z.mul_1_r in Hmz. injection Hmz as ->. f_equal. lia.
    - assert (mz = shift_pos p T).
      { apply Pos2Z.inj. rewrite shift_pos_correct, Z.pow_pos_fold. lia. }
      subst mz. rewrite iter_shr_1_exact. f_equal. lia. }
  rewrite Hshr. cbn [shr_m loc_of_shr_record round_nearest_even Zdigits2].
  rewrite HT, HfE, Z.sub_diag. cbn [shr shr_record_of_loc shr_m].
  apply Z.leb_le in HE2. by rewrite HE2.
Qed.

(** The canonical mantissa and exponent of a positive integer of at most 53
    digits. *)
Definition mantissa (k : positive) : positive :=
  Z.to_pos (Z.pos k * 2 ^ (prec - Z.pos (digits2_pos k))).

Definition exponent (k : positive) : Z := Z.pos (digits2_pos k) - prec.

Lemma mantissa_spec (k : positive) :
  Z.pos (digits2_pos k) <= prec ->
  Z.pos (mantissa k) = Z.pos k * 2 ^ (prec - Z.pos (digits2_pos k))
  /\ Z.pos (digits2_pos (mantissa k)) = prec.
Proof.
  intros Hk. unfold mantissa.
  set (c := prec - Z.pos (digits2_pos k)).
  assert (Hc : 0 <= c) by (unfold c; lia).
  assert (0 < 2 ^ c) by (apply Z.pow_pos_nonneg; lia).
  assert (Hpos : 0 < Z.pos k * 2 ^ c) by lia.
  rewrite Z2Pos.id by lia. split; [done|].
  apply digits2_pos_unique. rewrite Z2Pos.id by lia.
  pose proof (digits2_pos_bounds k) as [Hlo Hhi].
  replace (prec - 1) with ((Z.pos (digits2_pos k) - 1) + c) by (unfold c; lia).
  replace (2 ^ prec) with (2 ^ (Z.pos (digits2_pos k) + c)) by (f_equal; unfold c; lia).
  rewrite !Z.pow_add_r by lia. nia.
Qed.

(** The integer [k * 2^s], given with exponent [-s], rounds to the canonical
    form of [k]: integers below [2^53] are represented exactly, however
    they are written. *)
Lemma binary_round_integer (M k : positive) (s : Z) :
  0 <= s -> Z.pos M = Z.pos k * 2 ^ s -> Z.pos (digits2_pos k) <= prec ->
  binary_round prec emax false M (- s) = S754_finite false (mantissa k) (exponent k).
Proof.
  intros Hs HM Hk.
  destruct (mantissa_spec k Hk) as [HT HdT].
  set (dk := Z.pos (digits2_pos k)) in *.
  assert (Hp2 : 0 < 2 ^ s) by (apply Z.pow_pos_nonneg; lia).
  assert (HdM : Z.pos (digits2_pos M) = dk + s).
  { apply digits2_pos_unique. rewrite HM.
    pose proof (digits2_pos_bounds k) as [Hlo Hhi]. fold dk in Hlo, Hhi.
    replace (dk + s - 1) with ((dk - 1) + s) by lia.
    rewrite !Z.pow_add_r by lia. nia. }
  unfold binary_round. rewrite HdM.
  replace (dk + s + - s) with dk by lia.
  assert (HE : fexp dk = exponent k).
  { unfold SpecFloat.fexp, exponent, SpecFloat.emin, emax, prec in *. fold dk. lia. }
  rewrite HE.
  assert (Hal : exists mz ez, shl_align M (- s) (exponent k) = (mz, ez)
              /\ Z.pos mz = Z.pos (mantissa k) * 2 ^ (exponent k - ez)
              /\ ez <= exponent k).
  { destruct (Z.lt_ge_cases (exponent k) (- s)) as [Hlt|Hge].
    - destruct (shl_align_spec M (- s) (exponent k) ltac:(lia)) as (H1 & H2 & _).
      destruct (shl_align M (- s) (exponent k)) as [mz ez]. cbn [fst snd] in *.
      exists mz, ez. subst ez. rewrite Z.sub_diag, Z.mul_1_r.
      repeat split; [|lia]. rewrite H1, HM, HT.
      rewrite <- Z.mul_assoc, <- Z.pow_add_r by (unfold exponent in *; fold dk in Hlt |- *; lia).
      do 2 f_equal. unfold exponent. fold dk. lia.
    - rewrite shl_align_noop by lia. exists M, (- s). repeat split; [|lia].
      rewrite HM, HT, <- Z.mul_assoc, <- Z.pow_add_r
        by (unfold exponent in *; fold dk in Hge |- *; lia).
      do 2 f_equal. unfold exponent. fold dk. lia. }
  destruct Hal as (mz & ez & -> & Hmz & Hez).
  apply binary_round_aux_exact; try done.
  unfold exponent, SpecFloat.emin, emax, prec in *. fold dk. lia.
Qed.


(** The binary64 number an integer denotes ([of_uint63]'s specification). *)
Definition SFofZ (n : Z) : spec_float := binary_normalize prec emax n 0 false.

Lemma digits2_pos_le_prec (k : positive) :
  Z.pos k < 2 ^ prec -> Z.pos (digits2_pos k) <= prec.
Proof.
  intros Hk. pose proof (digits2_pos_bounds k) as [Hlo _].
  destruct (Z.le_gt_cases (Z.pos (digits2_pos k)) prec) as [|Hgt]; [done|].
  assert (2 ^ prec <= 2 ^ (Z.pos (digits2_pos k) - 1)) by (apply Z.pow_le_mono_r; lia).
  lia.
Qed.

Lemma digits2_pos_mono (a b : positive) :
  Z.pos a <= Z.pos b -> Z.pos (digits2_pos a) <= Z.pos (digits2_pos b).
Proof.
  intros Hab.
  pose proof (digits2_pos_bounds a) as [Hlo _].
  pose proof (digits2_pos_bounds b) as [_ Hhi].
  destruct (Z.le_gt_cases (Z.pos (digits2_pos a)) (Z.pos (digits2_pos b))) as [|Hgt]; [done|].
  assert (2 ^ Z.pos (digits2_pos b) <= 2 ^ (Z.pos (digits2_pos a) - 1))
    by (apply Z.pow_le_mono_r; lia).
  lia.
Qed.

Lemma SFofZ_pos (k : positive) :
  Z.pos k < 2 ^ prec ->
  SFofZ (Z.pos k) = S754_finite false (mantissa k) (exponent k).
Proof.
  intros Hk. unfold SFofZ. cbn [binary_normalize].
  apply (binary_round_integer k k 0); [lia | cbn; lia | by apply digits2_pos_le_prec].
Qed.

(** Subtraction of integers below [2^53] is exact. *)
Lemma SFsub_integers (a b : Z) :
  0 <= a <= b -> b < 2 ^ prec ->
  SF64sub (SFofZ b) (SFofZ a) = SFofZ (b - a).
Proof.
  intros [Ha Hab] Hb.
  destruct a as [|a|a]; [|clear Ha|lia].
  { rewrite Z.sub_0_r. destruct b as [|b|b]; [reflexivity| |lia].
    rewrite SFofZ_pos by lia. reflexivity. }
  destruct b as [|b|b]; try lia.
  rewrite (SFofZ_pos a), (SFofZ_pos b) by lia.
  pose proof (digits2_pos_le_prec a ltac:(lia)) as Hda.
  pose proof (digits2_pos_le_prec b ltac:(lia)) as Hdb.
  pose proof (digits2_pos_mono a b Hab) as Hdab.
  destruct (mantissa_spec a Hda) as [HTa _].
  destruct (mantissa_spec b Hdb) as [HTb _].
  unfold SF64sub, SFsub. cbn [cond_Zopp].
  assert (Hmin : Z.min (exponent b) (exponent a) = exponent a)
    by (unfold exponent; lia).
  rewrite Hmin.
  rewrite (shl_align_noop (mantissa a)) by lia. cbn [fst].
  destruct (shl_align_spec (mantissa b) (exponent b) (exponent a)
              ltac:(unfold exponent; lia)) as (-> & _ & _).
  set (da := Z.pos (digits2_pos a)) in *. set (db := Z.pos (digits2_pos b)) in *.
  assert (HM : Z.pos (mantissa b) * 2 ^ (exponent b - exponent a) - Z.pos (mantissa a)
               = (Z.pos b - Z.pos a) * 2 ^ (prec - da)).
  { rewrite HTa, HTb, <- Z.mul_assoc, <- Z.pow_add_r by (unfold exponent; lia).
    replace (prec - db + (exponent b - exponent a)) with (prec - da)
      by (unfold exponent; lia).
    ring. }
  rewrite HM.
  destruct (Z.eq_dec (Z.pos b) (Z.pos a)) as [Heq|Hne].
  { rewrite Heq, Z.sub_diag. reflexivity. }
  assert (Hk : exists k, Z.pos b - Z.pos a = Z.pos k)
    by (exists (Z.to_pos (Z.pos b - Z.pos a)); lia).
  destruct Hk as [k Hk]. rewrite Hk.
  assert (Hp2 : 0 < 2 ^ (prec - da)) by (apply Z.pow_pos_nonneg; lia).
  assert (HMp : exists M, Z.pos k * 2 ^ (prec - da) = Z.pos M)
    by (exists (Z.to_pos (Z.pos k * 2 ^ (prec - da))); lia).
  destruct HMp as [M HMp]. rewrite HMp. cbn [binary_normalize].
  rewrite (SFofZ_pos k) by lia.
  replace (exponent a) with (- (prec - da)) by (unfold exponent; lia).
  apply binary_round_integer; [lia|lia|].
  apply digits2_pos_le_prec. lia.
Qed.

(** Integers below [2^53] compare as integers. *)
Lemma SFcompare_integers (a b : Z) :
  0 <= a < 2 ^ prec -> 0 <= b < 2 ^ prec ->
  SFcompare (SFofZ b) (SFofZ a) = Some (b ?= a).
Proof.
  intros [Ha Ha'] [Hb Hb'].
  destruct a as [|a|a], b as [|b|b]; try lia; try reflexivity;
    rewrite ?(SFofZ_pos a), ?(SFofZ_pos b) by lia; try reflexivity.
  pose proof (digits2_pos_le_prec a ltac:(lia)) as Hda.
  pose proof (digits2_pos_le_prec b ltac:(lia)) as Hdb.
  destruct (mantissa_spec a Hda) as [HTa _].
  destruct (mantissa_spec b Hdb) as [HTb _].
  pose proof (digits2_pos_bounds a) as [Hloa Hhia].
  pose proof (digits2_pos_bounds b) as [Hlob Hhib].
  cbn [SFcompare]. unfold exponent. f_equal.
  set (da := Z.pos (digits2_pos a)) in *. set (db := Z.pos (digits2_pos b)) in *.
  destruct (Z.compare_spec (db - prec) (da - prec)) as [He|He|He].
  - assert (db = da) by lia.
    rewrite Pos.compare_cont_spec.
    assert (Hsw : forall c, Pos.switch_Eq Eq c = c) by (by intros []).
    rewrite Hsw.
    change (mantissa b ?= mantissa a)%positive
      with (Z.pos (mantissa b) ?= Z.pos (mantissa a)).
    rewrite HTa, HTb.
    replace (prec - db) with (prec - da) by lia.
    assert (0 < 2 ^ (prec - da)) by (apply Z.pow_pos_nonneg; lia).
    destruct (Z.compare_spec (Z.pos b) (Z.pos a)) as [Hc|Hc|Hc].
    + apply Z.compare_eq_iff. by rewrite Hc.
    + apply Z.compare_lt_iff. nia.
    + apply Z.compare_gt_iff. nia.
  - assert (2 ^ db <= 2 ^ (da - 1)) by (apply Z.pow_le_mono_r; lia).
    symmetry. apply Z.compare_lt_iff. lia.
  - assert (2 ^ da <= 2 ^ (db - 1)) by (apply Z.pow_le_mono_r; lia).
    symmetry. apply Z.compare_gt_iff. lia.
Qed.

End SFExact.

Module JsNumExact.
Import JsNum SFExact.

Lemma Prim2SF_of_nat (n : nat) :
  Z.of_nat n < 2 ^ 63 -> Prim2SF (of_nat n) = SFofZ (Z.of_nat n).
Proof.
  intros Hn. unfold of_nat. rewrite of_uint63_spec, Uint63.of_Z_spec.
  rewrite Z.mod_small; [reflexivity|]. change Uint63.wB with (2 ^ 63). lia.
Qed.

(** [b - a] on string lengths and other integers below [2^53] is the
    integer difference. *)
Lemma of_nat_sub (a b : nat) :
  (a <= b)%nat -> Z.of_nat b < 2 ^ 53 ->
  sub (of_nat b) (of_nat a) = of_nat (b - a).
Proof.
  intros Hab Hb. apply Prim2SF_inj. unfold sub.
  assert (2 ^ 53 < 2 ^ 63) by (cbn; lia).
  rewrite FloatAxioms.sub_spec, !Prim2SF_of_nat by lia.
  rewrite Nat2Z.inj_sub by lia.
  apply SFsub_integers; [lia|]. change prec with 53. lia.
Qed.

(** [b < a] on integers below [2^53] is the integer comparison. *)
Lemma of_nat_lt (a b : nat) :
  Z.of_nat a < 2 ^ 53 -> Z.of_nat b < 2 ^ 53 ->
  lt (of_nat b) (of_nat a) = (b <? a)%nat.
Proof.
  intros Ha Hb. unfold lt.
  assert (2 ^ 53 < 2 ^ 63) by (cbn; lia).
  rewrite FloatAxioms.ltb_spec, !Prim2SF_of_nat by lia.
  unfold SFltb. rewrite SFcompare_integers by (change prec with 53; lia).
  destruct (Nat.ltb_spec b a) as [H1|H1].
  - assert (Hc : (Z.of_nat b ?= Z.of_nat a) = Lt) by (apply Z.compare_lt_iff; lia).
    by rewrite Hc.
  - destruct (Z.compare_spec (Z.of_nat b) (Z.of_nat a)); try reflexivity. lia.
Qed.

(** An integer below [2^53] is a finite number: neither [NaN] nor an
    infinity. *)
Lemma of_nat_is_finite (n : nat) :
  Z.of_nat n < 2 ^ 53 -> is_finite (of_nat n) = true.
Proof.
  intros Hn. assert (2 ^ 53 < 2 ^ 63) by (cbn; lia).
  unfold is_finite, is_nan, is_infinity.
  rewrite !FloatAxioms.eqb_spec, abs_spec, Prim2SF_of_nat by lia.
  change (Prim2SF infinity) with (S754_infinity false).
  destruct (Z.of_nat n) as [|k|k] eqn:Hk; [reflexivity| |lia].
  rewrite SFofZ_pos by (change prec with 53; lia).
  cbn [SFabs SFeqb SFcompare]. rewrite Z.compare_refl, Pos.compare_cont_refl.
  reflexivity.
Qed.

Lemma of_nat_neq_Infinity (n : nat) :
  Z.of_nat n < 2 ^ 53 -> strict_neq (of_nat n) Infinity = true.
Proof.
  intros Hn. assert (2 ^ 53 < 2 ^ 63) by (cbn; lia).
  unfold strict_neq, strict_eq, Infinity.
  rewrite FloatAxioms.eqb_spec, Prim2SF_of_nat by lia.
  change (Prim2SF infinity) with (S754_infinity false).
  destruct (Z.of_nat n) as [|k|k] eqn:Hk; [reflexivity| |lia].
  rewrite SFofZ_pos by (change prec with 53; lia). reflexivity.
Qed.

(** [JSON.stringify] followed by [JSON.parse] gives an integer below
    [2^53] back. *)
Lemma json_number_of_nat (n : nat) :
  Z.of_nat n < 2 ^ 53 -> Client.json_number (of_nat n) = Some (of_nat n).
Proof.
  intros Hn. unfold Client.json_number. rewrite of_nat_is_finite by done.
  f_equal. destruct n as [|n]; [reflexivity|].
  assert (Hne : strict_eq (of_nat (S n)) 0%float = false).
  { assert (2 ^ 53 < 2 ^ 63) by (cbn; lia).
    unfold strict_eq. rewrite FloatAxioms.eqb_spec, Prim2SF_of_nat by lia.
    change (Prim2SF 0) with (S754_zero false).
    destruct (Z.of_nat (S n)) as [|k|k] eqn:Hk; [lia| |lia].
    rewrite SFofZ_pos by (change prec with 53; lia). reflexivity. }
  by rewrite Hne.
Qed.

(** [NaN] is contagious and compares false; there is one [NaN]. *)
Lemma sub_nan_r (b : number) : sub b NaN = NaN.
Proof.
  apply Prim2SF_inj. unfold sub, NaN. rewrite FloatAxioms.sub_spec.
  change (Prim2SF nan) with S754_nan.
  destruct (Prim2SF b) as [s|s| |s m e]; reflexivity.
Qed.

Lemma sub_nan_l (a : number) : sub NaN a = NaN.
Proof.
  apply Prim2SF_inj. unfold sub, NaN. rewrite FloatAxioms.sub_spec.
  change (Prim2SF nan) with S754_nan. reflexivity.
Qed.

Lemma lt_nan_l (a : number) : lt NaN a = false.
Proof.
  unfold lt, NaN. rewrite FloatAxioms.ltb_spec.
  change (Prim2SF nan) with S754_nan. reflexivity.
Qed.

(** Subtracting [-Infinity] from a finite balance gives [Infinity]. *)
Lemma sub_neg_infinity (b : number) :
  le 0%float b = true -> strict_neq b Infinity = true ->
  sub b neg_infinity = Infinity.
Proof.
  unfold le, strict_neq, strict_eq, sub, Infinity.
  rewrite FloatAxioms.leb_spec, FloatAxioms.eqb_spec. intros Hb Hfin.
  apply Prim2SF_inj. rewrite FloatAxioms.sub_spec.
  change (Prim2SF 0) with (S754_zero false) in Hb.
  change (Prim2SF infinity) with (S754_infinity false) in *.
  change (Prim2SF neg_infinity) with (S754_infinity true).
  destruct (Prim2SF b) as [s|s| |s m e]; try destruct s; try reflexivity;
    discriminate.
Qed.

(** The only number that is [=== Infinity] is [Infinity]. *)
Lemma strict_eq_Infinity (c : number) :
  strict_eq c Infinity = true -> c = Infinity.
Proof.
  unfold strict_eq, Infinity. rewrite FloatAxioms.eqb_spec. intros H.
  apply Prim2SF_inj.
  change (Prim2SF infinity) with (S754_infinity false) in *.
  destruct (Prim2SF c) as [s|s| |s m e]; try destruct s; try reflexivity;
    discriminate.
Qed.

(** [JSON.stringify] never writes an infinity: what comes back from
    [JSON.parse] is finite. *)
Lemma json_number_finite (c n : number) :
  Client.json_number c = Some n -> strict_neq n Infinity = true.
Proof.
  unfold Client.json_number.
  destruct (is_finite c) eqn:Hfin; [|discriminate].
  intros [= <-]. destruct (strict_eq c 0) eqn:H0; [reflexivity|].
  unfold strict_neq. destruct (strict_eq c Infinity) eqn:Hinf; [|reflexivity].
  apply strict_eq_Infinity in Hinf. subst c. discriminate.
Qed.

End JsNumExact.

(* ===================================================================== *)
(** ** The server, request by request *)
(* ===================================================================== *)

Module ServerFacts.
Import JsNum Ledger LedgerFacts Session JsNumExact.

(** The account of [u] with the balance [c]. *)
Definition with_credits (u : user) (c : number) : user :=
  {| email := email u; credits := c; isPremium := isPremium u |}.

(** What is left of a balance [b] after the amounts [l] have been asked
    for, one after the other: an amount over the balance is refused. *)
Definition spend (b : nat) (l : list nat) : nat :=
  fold_left (fun b a => if (b <? a)%nat then b else (b - a)%nat) l b.

Lemma truthy_Some (m : string) : m ≠ EmptyString -> truthy (Some m) = Some m.
Proof. intros Hm. unfold truthy. by rewrite decide_False. Qed.

Section Requests.
Variable jwt_verify : string -> option string.
Variable jwt_sign : string -> string.

(** One deduction on whole numbers. *)
Lemma deduct_of_nat db ck e u (b a : nat) :
  resolves_to jwt_verify ck e -> db !! e = Some u ->
  credits u = of_nat b -> Z.of_nat b < 2 ^ 53 -> Z.of_nat a < 2 ^ 53 ->
  deduct jwt_verify db ck (of_nat a)
  = if (b <? a)%nat then (db, RError 400 "Insufficient credits")
    else (<[e := with_credits u (of_nat (b - a))]> db,
          RUser (with_credits u (of_nat (b - a)))).
Proof.
  intros Hres Hu Hc Hb Ha.
  rewrite (deduct_resolved jwt_verify db ck e u _ Hres Hu), Hc.
  rewrite of_nat_neq_Infinity, of_nat_lt by done.
  destruct (Nat.ltb_spec b a) as [Hlt|Hge]; [reflexivity|].
  unfold charged, with_credits. by rewrite Hc, of_nat_sub.
Qed.

(** [deduct] leaves the ledger alone, or writes one metered account. *)
Lemma deduct_writes db ck amount :
  fst (deduct jwt_verify db ck amount) = db
  ∨ ∃ e u, resolves_to jwt_verify ck e ∧ db !! e = Some u
           ∧ strict_neq (credits u) Infinity = true
           ∧ lt (credits u) amount = false
           ∧ deduct jwt_verify db ck amount
             = (<[e := charged u amount]> db, RUser (charged u amount)).
Proof.
  unfold deduct, resolves_to.
  destruct (truthy (mock_session ck)) as [m|] eqn:Hm.
  - destruct (db !! m) as [u|] eqn:Hu; [|by left].
    destruct (strict_neq _ _) eqn:Hne; [|by left].
    destruct (lt (credits u) amount) eqn:Hlt; [by left|].
    right. exists m, u. repeat apply conj; auto.
  - destruct (truthy (session ck)) as [token|] eqn:Ht; [|by left].
    destruct (jwt_verify token) as [e|] eqn:Hv; [|by left].
    destruct (db !! e) as [u|] eqn:Hu; [|by left].
    destruct (strict_neq _ _) eqn:Hne; [|by left].
    destruct (lt (credits u) amount) eqn:Hlt; [by left|].
    right. exists e, u. repeat apply conj; auto.
    right. split; [done|]. by exists token.
Qed.

(** [GET /api/user] leaves the ledger alone, or creates the account of a
    preview marker. *)
Lemma get_user_writes db ck :
  fst (get_user jwt_verify db ck) = db
  ∨ ∃ m, truthy (mock_session ck) = Some m ∧ db !! m = None
         ∧ get_user jwt_verify db ck = (<[m := new_user m]> db, RUser (new_user m)).
Proof.
  unfold get_user.
  destruct (truthy (mock_session ck)) as [m|] eqn:Hm.
  - destruct (db !! m) as [u|] eqn:Hu; [by left|]. right. by exists m.
  - left. repeat case_match; reflexivity.
Qed.

(** What any one request does to an account that exists: at most its
    balance changes, and not if it is unlimited. *)
Lemma serve_keeps db r e u :
  db !! e = Some u ->
  ∃ c, serve jwt_verify jwt_sign db r !! e = Some (with_credits u c)
       ∧ (strict_eq (credits u) Infinity = true -> c = credits u).
Proof.
  intros Hu.
  assert (Hsame : ∃ c, db !! e = Some (with_credits u c)
                       ∧ (strict_eq (credits u) Infinity = true -> c = credits u)).
  { exists (credits u). split; [|done]. rewrite Hu. by destruct u. }
  destruct r as [ck|ck amount|e'|ck]; cbn [serve].
  - destruct (get_user_writes db ck) as [-> | (m & _ & Hnone & ->)];
      [exact Hsame|].
    cbn [fst]. rewrite lookup_insert_ne; [exact Hsame|]. congruence.
  - destruct (deduct_writes db ck amount)
      as [-> | (e' & u' & _ & Hu' & Hmetered & _ & ->)]; [exact Hsame|].
    cbn [fst]. destruct (decide (e' = e)) as [->|Hne].
    + rewrite lookup_insert_eq. rewrite Hu in Hu'. injection Hu' as <-.
      exists (sub (credits u) amount). split; [reflexivity|].
      unfold strict_neq in Hmetered. intros Hinf. by rewrite Hinf in Hmetered.
    + rewrite lookup_insert_ne by done. exact Hsame.
  - cbn. unfold init_user. case_match; [exact Hsame|].
    rewrite lookup_insert_ne; [exact Hsame|]. congruence.
  - exact Hsame.
Qed.

(** X1.  Accounts persist.  No sequence of requests, by whomever, removes an
    account, renames it or changes its premium flag; and an unlimited
    balance stays unlimited. *)
Theorem accounts_persist db rs e u :
  db !! e = Some u ->
  ∃ c, serve_all jwt_verify jwt_sign db rs !! e = Some (with_credits u c)
       ∧ (strict_eq (credits u) Infinity = true -> c = credits u).
Proof.
  revert db u. induction rs as [|r rs IH]; intros db u Hu; cbn.
  - exists (credits u). split; [|done]. rewrite Hu. by destruct u.
  - destruct (serve_keeps db r e u Hu) as (c & Hc & Hinf).
    destruct (IH _ _ Hc) as (c' & Hc' & Hinf').
    exists c'. split; [exact Hc'|].
    intros H. specialize (Hinf H). subst c.
    apply Hinf'. exact H.
Qed.

(** X2.  The preview marker needs no token.  A request that carries a
    non-empty [mock_session] cookie which arrives as it was sent and names
    no member of [Object.prototype] is served as the identity the cookie
    names, whatever its [session] cookie holds and whatever [jwt.verify]
    would say: the profile is answered (and created when missing), the
    deduction is charged to that account. *)
Theorem preview_marker_needs_no_token (verify' : string -> option string)
    db m s amount :
  m ≠ EmptyString -> json_cookie m = false -> own_only m ->
  get_user jwt_verify db {| mock_session := Some m; session := s |}
  = get_user verify' db (mock_cookie m)
  ∧ deduct jwt_verify db {| mock_session := Some m; session := s |} amount
    = deduct verify' db (mock_cookie m) amount
  ∧ status_of (snd (get_user jwt_verify db
                      {| mock_session := Some m; session := s |})) = 200%nat
  ∧ fst (get_user jwt_verify db {| mock_session := Some m; session := s |}) !! m
    = Some (default (new_user m) (db !! m)).
Proof.
  intros Hm _ _. unfold get_user, deduct, mock_cookie. cbn [mock_session session].
  rewrite (truthy_Some m Hm).
  repeat apply conj; try reflexivity.
  - by destruct (db !! m).
  - destruct (db !! m) eqn:Hu; cbn; [done|]. by rewrite lookup_insert_eq.
Qed.

(** X3.  [GET /api/user] is idempotent.  Asking again changes nothing more
    and gets the same answer. *)
Theorem get_user_idempotent db ck :
  get_user jwt_verify (fst (get_user jwt_verify db ck)) ck
  = get_user jwt_verify db ck.
Proof.
  destruct (get_user_writes db ck) as [Hsame | (m & Hm & Hnone & Hnew)].
  - rewrite Hsame. by destruct (get_user jwt_verify db ck).
  - rewrite Hnew. cbn [fst]. unfold get_user. by rewrite Hm, lookup_insert_eq.
Qed.

(** X4.  A refused request changes nothing.  Whenever [GET /api/user] or
    [POST /api/user/deduct] answers with a status other than 200, the
    ledger is as it was; and the two routes refuse the same requests as
    unauthenticated (401). *)
Theorem refused_requests_change_nothing db ck amount :
  (status_of (snd (get_user jwt_verify db ck)) ≠ 200%nat ->
     fst (get_user jwt_verify db ck) = db)
  ∧ (status_of (snd (deduct jwt_verify db ck amount)) ≠ 200%nat ->
       fst (deduct jwt_verify db ck amount) = db)
  ∧ (status_of (snd (get_user jwt_verify db ck)) = 401%nat
     <-> status_of (snd (deduct jwt_verify db ck amount)) = 401%nat).
Proof.
  split; [|split].
  - destruct (get_user_writes db ck) as [-> | (m & _ & _ & ->)]; [done|].
    cbn. congruence.
  - destruct (deduct_writes db ck amount)
      as [-> | (e & u & _ & _ & _ & _ & ->)]; [done|].
    cbn. congruence.
  - unfold get_user, deduct.
    destruct (truthy (mock_session ck)) as [m|];
      [|destruct (truthy (session ck)) as [token|];
        [destruct (jwt_verify token) as [e|]|]];
      repeat match goal with |- context [db !! ?k] => destruct (db !! k) end;
      repeat match goal with |- context [if ?b then _ else _] => destruct b end;
      cbn [status_of snd]; split; intros Hs; try reflexivity;
      exfalso; clear -Hs; lia.
Qed.

(** X5.  Whole-number accounting.  On a metered account holding the whole
    number [b], a request for the whole number [a] is refused with status
    400 exactly when [b < a]; otherwise the account holds exactly [b - a]
    afterwards, and that is the balance the client reads from the answer. *)
Theorem deduct_exact_integers db ck e u (b a : nat) :
  resolves_to jwt_verify ck e -> db !! e = Some u ->
  credits u = of_nat b -> Z.of_nat b < 2 ^ 53 -> Z.of_nat a < 2 ^ 53 ->
  ((b < a)%nat ->
     deduct jwt_verify db ck (of_nat a) = (db, RError 400 "Insufficient credits"))
  ∧ ((a <= b)%nat ->
       deduct jwt_verify db ck (of_nat a)
       = (<[e := with_credits u (of_nat (b - a))]> db,
          RUser (with_credits u (of_nat (b - a))))
       ∧ Client.to_json (snd (deduct jwt_verify db ck (of_nat a)))
         = Client.JUser (email u) (Some (of_nat (b - a))) (isPremium u)).
Proof.
  intros Hres Hu Hc Hb Ha.
  rewrite (deduct_of_nat db ck e u b a) by done.
  split.
  - intros Hlt. apply Nat.ltb_lt in Hlt. by rewrite Hlt.
  - intros Hle. apply Nat.ltb_ge in Hle. rewrite Hle. split; [reflexivity|].
    cbn [snd Client.to_json with_credits email credits isPremium].
    rewrite json_number_of_nat; [reflexivity|]. lia.
Qed.

(** X6.  A run of whole-number requests.  Served one after the other for
    the same identity, they leave exactly what [spend] computes: each
    amount within the balance is subtracted, each amount over it is
    skipped; the other accounts are not touched. *)
Theorem deduct_all_spends ck e (l : list nat) : ∀ db u (b : nat),
  resolves_to jwt_verify ck e -> db !! e = Some u ->
  credits u = of_nat b -> Z.of_nat b < 2 ^ 53 ->
  Forall (fun a => Z.of_nat a < 2 ^ 53) l ->
  deduct_all jwt_verify db (map (fun a => (ck, of_nat a)) l)
  = <[e := with_credits u (of_nat (spend b l))]> db.
Proof.
  induction l as [|a l IH]; intros db u b Hres Hu Hc Hb Hl; cbn [map deduct_all].
  - unfold spend. cbn [fold_left]. rewrite <- Hc.
    symmetry. apply insert_id. rewrite Hu. by destruct u.
  - apply Forall_cons in Hl as [Ha Hl].
    rewrite (deduct_of_nat db ck e u b a) by done.
    unfold spend. cbn [fold_left].
    destruct (Nat.ltb_spec b a) as [Hlt|Hge]; cbn [fst].
    + by apply IH.
    + rewrite (IH _ (with_credits u (of_nat (b - a))) (b - a)%nat); try done.
      * by rewrite insert_insert_eq.
      * by rewrite lookup_insert_eq.
      * lia.
Qed.

(** X7.  An amount that is not a number.  A request without a numeric
    [amount] passes the test of line 201 on every metered account and
    leaves [NaN] as its balance.  From then on the account passes every
    deduction, whatever the amount, and its balance stays [NaN]. *)
Theorem deduct_nan_sticks db ck e u :
  resolves_to jwt_verify ck e -> db !! e = Some u ->
  strict_neq (credits u) Infinity = true ->
  deduct jwt_verify db ck NaN
  = (<[e := with_credits u NaN]> db, RUser (with_credits u NaN))
  ∧ (∀ amount,
       deduct jwt_verify (<[e := with_credits u NaN]> db) ck amount
       = (<[e := with_credits u NaN]> db, RUser (with_credits u NaN)))
  ∧ Client.to_json (RUser (with_credits u NaN))
    = Client.JUser (email u) None (isPremium u).
Proof.
  intros Hres Hu Hmetered. repeat apply conj.
  - rewrite (deduct_resolved jwt_verify db ck e u _ Hres Hu), Hmetered.
    assert (Hlt : lt (credits u) NaN = false).
    { unfold lt, NaN. rewrite FloatAxioms.ltb_spec.
      change (Prim2SF nan) with S754_nan.
      by destruct (Prim2SF (credits u)) as [s|s| |s m x]. }
    rewrite Hlt. unfold charged, with_credits. by rewrite sub_nan_r.
  - intros amount.
    rewrite (deduct_resolved jwt_verify _ ck e (with_credits u NaN) _ Hres)
      by apply lookup_insert_eq.
    cbn [credits with_credits]. rewrite lt_nan_l.
    change (strict_neq NaN Infinity) with true. cbv iota.
    unfold charged. cbn [credits email isPremium with_credits].
    by rewrite sub_nan_l, insert_insert_eq.
  - reflexivity.
Qed.

(** X8.  An amount of [-Infinity] (the JSON number [-1e999]).  On every
    metered account with a balance that is not below zero the request is
    accepted and the balance becomes [Infinity]: the account is unlimited
    from then on, no later deduction changes it.  Its premium flag is as
    before. *)
Theorem deduct_negative_infinity_unlimits db ck e u :
  resolves_to jwt_verify ck e -> db !! e = Some u ->
  strict_neq (credits u) Infinity = true -> le 0%float (credits u) = true ->
  deduct jwt_verify db ck neg_infinity
  = (<[e := with_credits u Infinity]> db, RUser (with_credits u Infinity))
  ∧ (∀ amount,
       deduct jwt_verify (<[e := with_credits u Infinity]> db) ck amount
       = (<[e := with_credits u Infinity]> db, RUser (with_credits u Infinity))).
Proof.
  intros Hres Hu Hmetered Hpos. split.
  - rewrite (deduct_resolved jwt_verify db ck e u _ Hres Hu), Hmetered.
    assert (Hneg : lt neg_infinity 0%float = true) by reflexivity.
    rewrite (JsNumFacts.negative_not_greater _ _ Hpos Hneg).
    unfold charged, with_credits. by rewrite sub_neg_infinity.
  - intros amount.
    rewrite (deduct_resolved jwt_verify _ ck e (with_credits u Infinity) _ Hres)
      by apply lookup_insert_eq.
    reflexivity.
Qed.

(** X9.  The session round trip.  When [jwt.verify] accepts what
    [jwt.sign] issued, the cookie [/auth/callback] sets names the account
    the callback initialised: [GET /api/user] answers with it, and it is
    the account deductions are charged to.  A first sign-in finds the
    initial account; a later one finds the account as it was left, its
    balance neither reset nor refilled. *)
Theorem session_round_trip db e :
  jwt_verify (jwt_sign e) = Some e -> jwt_sign e ≠ EmptyString ->
  ∃ u, fst (auth_callback jwt_sign db e) !! e = Some u
       ∧ u = default (new_user e) (db !! e)
       ∧ (is_Some (db !! e) -> fst (auth_callback jwt_sign db e) = db)
       ∧ get_user jwt_verify (fst (auth_callback jwt_sign db e))
           (snd (auth_callback jwt_sign db e))
         = (fst (auth_callback jwt_sign db e), RUser u)
       ∧ resolves_to jwt_verify (snd (auth_callback jwt_sign db e)) e.
Proof.
  intros Hv Hne. cbn [auth_callback fst snd].
  assert (Hres : resolves_to jwt_verify
                   {| mock_session := None; session := Some (jwt_sign e) |} e).
  { right. split; [done|]. exists (jwt_sign e). split; [|done].
    by apply truthy_Some. }
  assert (Hu : init_user db e !! e = Some (default (new_user e) (db !! e))).
  { unfold init_user. destruct (db !! e) eqn:He; cbn; [done|].
    by rewrite lookup_insert_eq. }
  eexists. split; [exact Hu|]. repeat apply conj; try done.
  - intros [u0 Hu0]. unfold init_user. by rewrite Hu0.
  - unfold get_user. cbn [mock_session session].
    rewrite (truthy_Some _ Hne). cbn [truthy]. by rewrite Hv, Hu.
Qed.

End Requests.
End ServerFacts.

(* ===================================================================== *)
(** ** The container around the decoded audio *)
(* ===================================================================== *)

Module WavFormat.
Import JsString Wav WavFacts.

Lemma b64_value_lt c v : b64_value c = Some v -> (v < 64)%N.
Proof.
  unfold b64_value.
  repeat case_match; intros [= <-]; try lia;
    repeat match goal with
    | H : (_ && _)%bool = true |- _ => apply andb_prop in H as [? ?]
    | H : (_ <=? _)%N = true |- _ => apply N.leb_le in H
    end; lia.
Qed.

Lemma mapM_b64_value_lt d vs :
  mapM b64_value d = Some vs -> Forall (fun v => (v < 64)%N) vs.
Proof.
  intros H. apply mapM_Some in H.
  induction H as [|c v d vs Hv _ IH]; constructor; [|exact IH].
  by apply (b64_value_lt c).
Qed.

(** Every group of sextets decodes to bytes. *)
Lemma b64_decode_bytes (n : nat) : ∀ vs,
  (length vs <= n)%nat -> Forall (fun v => (v < 64)%N) vs ->
  Forall (fun b => (b < 256)%N) (b64_decode vs).
Proof.
  induction n as [n IH] using lt_wf_ind. intros vs Hlen Hvs.
  destruct vs as [|a [|b [|c [|d rest]]]]; cbn [b64_decode]; try constructor.
  - apply Forall_cons in Hvs as [Ha Hvs]. apply Forall_cons in Hvs as [Hb _].
    apply N.Div0.div_lt_upper_bound. lia.
  - constructor.
  - apply Forall_cons in Hvs as [Ha Hvs]. apply Forall_cons in Hvs as [Hb Hvs].
    apply Forall_cons in Hvs as [Hc _].
    apply N.Div0.div_lt_upper_bound. apply N.Div0.div_lt_upper_bound. lia.
  - constructor; [|constructor]. apply N.mod_lt. lia.
  - apply Forall_cons in Hvs as [Ha Hvs]. apply Forall_cons in Hvs as [Hb Hvs].
    apply Forall_cons in Hvs as [Hc Hvs]. apply Forall_cons in Hvs as [Hd Hvs].
    apply N.Div0.div_lt_upper_bound. lia.
  - apply Forall_cons in Hvs as [Ha Hvs]. apply Forall_cons in Hvs as [Hb Hvs].
    apply Forall_cons in Hvs as [Hc Hvs]. apply Forall_cons in Hvs as [Hd Hvs].
    constructor; [apply N.mod_lt; lia|].
    constructor; [apply N.mod_lt; lia|].
    cbn [length] in Hlen.
    apply (IH (length rest)); [lia|lia|exact Hvs].
Qed.

(** What [atob] returns are bytes: the char codes of a binary string. *)
Lemma atob_bytes data bytes :
  atob data = Some bytes -> Forall (fun b => (b < 256)%N) bytes.
Proof.
  unfold atob. cbv zeta.
  match goal with |- context [mapM b64_value ?x] => generalize x end.
  intros d.
  destruct (decide (length d `mod` 4 = 1)%nat); [discriminate|].
  destruct (mapM b64_value d) as [vs|] eqn:Hvs; [|discriminate].
  cbn. intros [= <-].
  apply (b64_decode_bytes (length vs)); [lia|].
  by apply (mapM_b64_value_lt d).
Qed.

Lemma map_mod_bytes bytes :
  Forall (fun b => (b < 256)%N) bytes -> map (fun b => b mod 256)%N bytes = bytes.
Proof.
  induction 1 as [|b bytes Hb _ IH]; cbn; [done|].
  by rewrite IH, N.mod_small.
Qed.

(** X10.  The container wraps the decoded audio.  [createWavUrl] throws
    exactly when [atob] does; otherwise its result is 44 bytes longer than
    the decoded audio and carries it unaltered after the header. *)
Theorem createWavUrl_wraps_decoded_audio base64 sampleRate :
  (createWavUrl base64 sampleRate = None <-> atob base64 = None)
  ∧ (∀ bytes, atob base64 = Some bytes ->
       ∃ url, createWavUrl base64 sampleRate = Some url
              ∧ length url = (44 + length bytes)%nat
              ∧ drop 44 url = bytes
              ∧ Forall (fun b => (b < 256)%N) url).
Proof.
  unfold createWavUrl. split.
  - destruct (atob base64) as [bytes|]; [|done].
    rewrite wav_buffer_closed_form. split; discriminate.
  - intros bytes Hb. rewrite Hb, wav_buffer_closed_form.
    pose proof (atob_bytes _ _ Hb) as Hbytes.
    rewrite (map_mod_bytes _ Hbytes).
    eexists. split; [reflexivity|]. repeat apply conj.
    + by rewrite length_app, length_header.
    + change 44%nat with (length (header (length bytes) sampleRate)).
      apply drop_app_length.
    + apply Forall_app. split; [|exact Hbytes].
      unfold header.
      repeat (apply Forall_app; split);
        repeat (cbn [le_bytes lit map String.list_ascii_of_string];
                first [ apply Forall_nil_2
                      | apply Forall_cons; split;
                        [first [apply N.mod_lt; lia | by vm_compute]|] ]).
Qed.

(** X11.  The header is a canonical PCM header.  For audio that decodes, a
    sample rate below [2^31] and a file below 4 GiB, the header names the
    RIFF/WAVE container and its two chunks, and its fields agree with each
    other and with the file: the RIFF size is the file size less 8, the
    format chunk has 16 bytes and the PCM tag, the sample rate is the
    argument, the block align is channels times bytes per sample, the
    byte rate is sample rate times block align, and the data size is the
    file size less the 44 bytes of the header. *)
Theorem createWavUrl_header_is_canonical base64 sampleRate bytes :
  atob base64 = Some bytes ->
  0 <= sampleRate < 2 ^ 31 -> Z.of_nat (length bytes) + 44 < 2 ^ 32 ->
  ∃ url, createWavUrl base64 sampleRate = Some url
    ∧ take 4 url = lit "RIFF"
    ∧ getUint 4 4 url = Z.of_nat (length url) - 8
    ∧ take 4 (drop 8 url) = lit "WAVE"
    ∧ take 4 (drop 12 url) = lit "fmt "
    ∧ getUint 4 16 url = 16
    ∧ getUint 2 20 url = 1
    ∧ getUint 4 24 url = sampleRate
    ∧ getUint 2 32 url = getUint 2 22 url * (getUint 2 34 url / 8)
    ∧ getUint 4 28 url = getUint 4 24 url * getUint 2 32 url
    ∧ take 4 (drop 36 url) = lit "data"
    ∧ getUint 4 40 url = Z.of_nat (length url) - 44.
Proof.
  intros Hb HR HN. unfold createWavUrl. rewrite Hb, wav_buffer_closed_form.
  set (payload := map (fun b => b mod 256)%N bytes).
  assert (Hfield : ∀ v, 0 <= v < 2 ^ 32 ->
            Z.of_N (of_le_bytes (le_bytes 4 (ToUint 32 v))) = v).
  { intros v Hv. rewrite of_le_bytes_le_bytes.
    change (256 ^ N.of_nat 4)%N with (2 ^ Z.to_N 32)%N.
    rewrite N.mod_small by (apply ToUint_lt; lia).
    unfold ToUint. rewrite Z2N.id by (apply Z.mod_pos_bound; lia).
    apply Z.mod_small. lia. }
  assert (Hlen : Z.of_nat (length (header (length bytes) sampleRate ++ payload))
                 = 44 + Z.of_nat (length bytes)).
  { rewrite length_app, length_header. unfold payload. rewrite length_map. lia. }
  assert (H4 : getUint 4 4 (header (length bytes) sampleRate ++ payload)
               = 36 + Z.of_nat (length bytes)) by (apply Hfield; lia).
  assert (H24 : getUint 4 24 (header (length bytes) sampleRate ++ payload)
                = sampleRate) by (apply Hfield; lia).
  assert (H28 : getUint 4 28 (header (length bytes) sampleRate ++ payload)
                = sampleRate * 2) by (apply Hfield; lia).
  assert (H40 : getUint 4 40 (header (length bytes) sampleRate ++ payload)
                = Z.of_nat (length bytes)) by (apply Hfield; lia).
  eexists. split; [reflexivity|].
  rewrite H4, H24, H28, H40, Hlen.
  repeat apply conj; try reflexivity; lia.
Qed.

End WavFormat.

(* ===================================================================== *)
(** ** The session, action by action *)
(* ===================================================================== *)

Module SessionFacts.
Import JsNum JsString Client ClientFacts Session JsNumExact.

(** The component agrees with the suspended run: the busy flag is up
    exactly while a run is suspended, the [AbortController] exists exactly
    while the synthesis call is outstanding, and the text under synthesis
    passed the checks of lines 492-504. *)
Definition in_step (w : world) : Prop :=
  match run w with
  | Idle =>
      isGenerating (ui w) = false ∧ loadingStatus (ui w) = None
      ∧ abortControllerRef (ui w) = None
  | AwaitTranscribe _ =>
      isGenerating (ui w) = true ∧ is_Some (loadingStatus (ui w))
      ∧ abortControllerRef (ui w) = None
  | AwaitSynthesis _ t =>
      isGenerating (ui w) = true ∧ is_Some (loadingStatus (ui w))
      ∧ abortControllerRef (ui w) = Some (Controller false)
      ∧ 1 <= len t <= MAX_CHARS
  end.

Lemma not_blank_not_empty (t : jsstring) :
  is_empty (trim t) = false -> 1 <= len t.
Proof. destruct t; [discriminate|]. unfold len. cbn [length]. lia. Qed.

Lemma within_MAX_CHARS (t : jsstring) :
  (len t >? MAX_CHARS) = false -> len t <= MAX_CHARS.
Proof. rewrite Z.gtb_ltb. intros H. apply Z.ltb_ge in H. lia. Qed.

Lemma synthesize_in_step u t w :
  run w = Idle ∨ (∃ u', run w = AwaitTranscribe u') ->
  abortControllerRef (ui w) = None ->
  in_step (synthesize u t w).
Proof.
  intros Hrun Href. unfold synthesize.
  destruct (is_empty (trim t)) eqn:Hne; [by repeat split|].
  destruct (len t >? MAX_CHARS) eqn:Hmax; [by repeat split|].
  destruct (_ && _); [by repeat split|].
  unfold in_step. cbn. repeat split; try done.
  - by apply not_blank_not_empty.
  - by apply within_MAX_CHARS.
Qed.

(** The amounts of the deduction requests among [cs], and the lengths of
    the texts sent for synthesis, both in the order of the calls. *)
Definition deductions (cs : list call) : list nat :=
  omap (fun c => match c with CallDeduct n => Some n | _ => None end) cs.

Definition synthesis_lengths (cs : list call) : list nat :=
  omap (fun c => match c with CallSynthesize t _ => Some (length t) | _ => None end) cs.

(** An amount the client may ask for: the length of a text that passed
    the checks. *)
Definition billable (n : nat) : Prop := 1 <= Z.of_nat n <= MAX_CHARS.

(** Every deduction asked for so far pairs with a synthesis call of its
    own, made before it; the call a run is suspended on has none yet. *)
Definition billed (w : world) : Prop :=
  Forall billable (deductions (calls w))
  ∧ Forall billable (inflight w)
  ∧ match run w with
    | AwaitSynthesis _ t =>
        ∃ made, synthesis_lengths (calls w) = made ++ [length t]
                ∧ deductions (calls w) `sublist_of` made
    | _ => deductions (calls w) `sublist_of` synthesis_lengths (calls w)
    end.

(** A balance that is a whole number of credits within the initial
    20000. *)
Definition whole (c : number) : Prop :=
  ∃ k : nat, Z.of_nat k <= MAX_CHARS ∧ c = of_nat k.

Definition whole_or_unlimited (u : Ledger.user) : Prop :=
  Ledger.credits u = Infinity ∨ whole (Ledger.credits u).

Definition ledger_whole (db : gmap string Ledger.user) : Prop :=
  map_Forall (fun _ u => whole_or_unlimited u) db.

(** The balance the component holds, when it holds one. *)
Definition shown_credits (c : component) : option number :=
  match user c with
  | Some (JUser _ (Some n) _) => Some n
  | _ => None
  end.

Lemma deductions_app cs cs' :
  deductions (cs ++ cs') = deductions cs ++ deductions cs'.
Proof. apply omap_app. Qed.

Lemma synthesis_lengths_app cs cs' :
  synthesis_lengths (cs ++ cs') = synthesis_lengths cs ++ synthesis_lengths cs'.
Proof. apply omap_app. Qed.

Lemma whole_20000 : whole 20000%float.
Proof.
  exists (Z.to_nat 20000). rewrite Z2Nat.id by lia. split; [done|].
  unfold of_nat. by rewrite Z2Nat.id by lia.
Qed.

Lemma new_user_whole e : whole_or_unlimited (Ledger.new_user e).
Proof.
  unfold whole_or_unlimited, Ledger.new_user. cbn.
  destruct (bool_decide _); [by left|right; apply whole_20000].
Qed.

Lemma whole_lt_2_53 (k : nat) : Z.of_nat k <= MAX_CHARS -> Z.of_nat k < 2 ^ 53.
Proof. unfold MAX_CHARS. lia. Qed.

(** What the client reads from the profile of a whole or unlimited
    account. *)
Lemma to_json_whole u e n p :
  whole_or_unlimited u ->
  to_json (Ledger.RUser u) = JUser e (Some n) p -> whole n.
Proof.
  intros [Hinf | (k & Hk & Hc)]; cbn; rewrite ?Hinf, ?Hc.
  - discriminate.
  - rewrite json_number_of_nat by by apply whole_lt_2_53.
    intros [= _ <- _]. by exists k.
Qed.

Section Actions.
Variable jwt_verify : string -> option string.
Variable jwt_sign : string -> string.

Lemma step_in_step w e : in_step w -> in_step (step jwt_verify w e).
Proof.
  intros Hw0. pose proof Hw0 as Hw. unfold in_step in Hw.
  destruct e as [|r|r id now| |]; unfold step.
  - destruct (run w) eqn:Hrun; try (unfold in_step; by rewrite Hrun).
    destruct Hw as (Hg & Hl & Href).
    unfold generateSpeech.
    destruct (user (ui w)) as [u|]; [|unfold in_step; by cbn].
    destruct (decide _).
    + apply synthesize_in_step; auto.
    + destruct (uploadedAudio (cfg w)); unfold in_step; cbn; [|done].
      repeat split; try done; by eexists.
  - destruct (run w) eqn:Hrun; try (unfold in_step; by rewrite Hrun).
    destruct Hw as (Hg & Hl & Href).
    unfold transcribed. destruct r as [t|err]; [|unfold in_step; by cbn].
    destruct (is_empty _); [unfold in_step; by cbn|].
    apply synthesize_in_step; cbn; eauto.
  - destruct (run w) eqn:Hrun; try (unfold in_step; by rewrite Hrun).
    unfold synthesized, generation_failed.
    repeat case_match; unfold in_step; cbn; done.
  - unfold handleCancel.
    destruct (abortControllerRef (ui w)) eqn:Href; [|exact Hw0].
    destruct (run w) eqn:Hrun.
    + destruct Hw as (_ & _ & ?); congruence.
    + destruct Hw as (_ & _ & ?); congruence.
    + unfold generation_failed. repeat case_match; unfold in_step; cbn; done.
  - unfold deduct_answered. destruct (inflight w); [exact Hw0|].
    destruct (Ledger.deduct _ _ _ _). exact Hw0.
Qed.

(** [served] is [deduct_answered] with the cookies of the request. *)
Lemma served_eq ck w :
  served jwt_verify ck w
  = match inflight w with
    | [] => w
    | amount :: rest =>
        let '(db, r) :=
          Ledger.deduct jwt_verify (usersDb w) ck (of_nat amount) in
        mkWorld (setUser (Some (to_json r)) (ui w)) (cfg w) (run w) db
          (cookie_jar w) rest (calls w) (last_exit w)
    end.
Proof.
  destruct w as [c s p db jar fl cs x].
  unfold served, deduct_answered, set_jar. cbn.
  destruct fl; [reflexivity|].
  by destruct (Ledger.deduct _ _ _ _).
Qed.

Lemma act_in_step w a : in_step w -> in_step (act jwt_verify jwt_sign w a).
Proof.
  intros Hw. destruct a as [e|ck|t| | |input|e|]; cbn [act].
  - by apply step_in_step.
  - rewrite served_eq. destruct (inflight w); [exact Hw|].
    destruct (Ledger.deduct _ _ _ _). exact Hw.
  - exact Hw.
  - unfold fetch_user_on_load. destruct (Ledger.get_user _ _ _). exact Hw.
  - unfold handleMessage. destruct (Ledger.get_user _ _ _). exact Hw.
  - exact Hw.
  - exact Hw.
  - exact Hw.
Qed.

Lemma acts_in_step l : ∀ w, in_step w -> in_step (acts jwt_verify jwt_sign w l).
Proof.
  induction l as [|a l IH]; intros w Hw; cbn; [done|].
  by apply IH, act_in_step.
Qed.

(** X12.  The busy flag never sticks.  From the first render on, whatever
    the visitor, the model and the server do, as long as [generateSpeech]
    is called only when no run is suspended: the component shows itself
    busy exactly while a run is suspended on a call; a status line is shown
    only then; the [AbortController] exists exactly while the synthesis
    call is outstanding, so that [handleCancel] changes nothing at any
    other time. *)
Theorem busy_exactly_while_a_run_is_suspended s db jar l :
  one_run_at_a_time jwt_verify jwt_sign (first_render s db jar) l = true ->
  let w := acts jwt_verify jwt_sign (first_render s db jar) l in
  (isGenerating (ui w) = true <-> run w ≠ Idle)
  ∧ (is_Some (loadingStatus (ui w)) <-> run w ≠ Idle)
  ∧ (is_Some (abortControllerRef (ui w)) <-> ∃ u t, run w = AwaitSynthesis u t)
  ∧ ((∀ u t, run w ≠ AwaitSynthesis u t) -> step jwt_verify w Cancel = w).
Proof.
  intros _ w.
  assert (Hw : in_step w) by (apply acts_in_step; by repeat split).
  clearbody w. unfold in_step in Hw. unfold step, handleCancel.
  destruct (run w) as [|u|u t] eqn:Hrun.
  - destruct Hw as (-> & -> & ->).
    repeat apply conj; try done; try (intros [? ?]; done);
      try (intros (? & ? & ?); done); try (intros _; by eexists _, _);
      intros H; by destruct (H u t).
  - destruct Hw as (-> & Hl & ->).
    repeat apply conj; try done; try (intros [? ?]; done);
      try (intros (? & ? & ?); done); try (intros _; by eexists _, _);
      intros H; by destruct (H u t).
  - destruct Hw as (-> & Hl & -> & _).
    repeat apply conj; try done; try (intros [? ?]; done);
      try (intros (? & ? & ?); done); try (intros _; by eexists _, _);
      intros H; by destruct (H u t).
Qed.

(** *** What is asked for is what was synthesized *)

Lemma synthesize_billed u t w :
  run w = Idle ∨ (∃ u', run w = AwaitTranscribe u') ->
  billed w -> billed (synthesize u t w).
Proof.
  intros Hrun (Hd & Hf & Hs).
  assert (Hs' : deductions (calls w) `sublist_of` synthesis_lengths (calls w))
    by (destruct Hrun as [Hr | [u' Hr]]; by rewrite Hr in Hs).
  clear Hs. unfold synthesize.
  destruct (is_empty (trim t)); [by repeat split|].
  destruct (len t >? MAX_CHARS); [by repeat split|].
  destruct (_ && _); [by repeat split|].
  unfold billed. cbn.
  rewrite deductions_app, synthesis_lengths_app. cbn. rewrite app_nil_r.
  repeat split; try done. by eexists.
Qed.

(** A run that ends without a new call leaves the pairing as it is. *)
Lemma billed_idle w w' :
  billed w -> calls w' = calls w -> inflight w' = inflight w -> run w' = Idle ->
  billed w'.
Proof.
  intros (Hd & Hf & Hs) Hc Hi Hr. unfold billed. rewrite Hc, Hi, Hr.
  repeat split; try done.
  destruct (run w); try done.
  destruct Hs as (made & -> & Hsub). by apply sublist_inserts_r.
Qed.

Lemma step_billed w e :
  in_step w -> billed w -> billed (step jwt_verify w e).
Proof.
  intros Hin Hb. pose proof Hb as (Hd & Hf & Hs).
  unfold in_step in Hin.
  destruct e as [|r|r id now| |]; unfold step.
  - destruct (run w) eqn:Hrun; try done.
    unfold generateSpeech.
    destruct (user (ui w)) as [u|]; [|unfold billed; by cbn].
    destruct (decide _).
    + apply synthesize_billed; auto.
    + destruct (uploadedAudio (cfg w)); unfold billed; cbn; [|done].
      rewrite deductions_app, synthesis_lengths_app. cbn. by rewrite !app_nil_r.
  - destruct (run w) eqn:Hrun; try done.
    unfold transcribed. destruct r as [t|err]; [|unfold billed; by cbn].
    destruct (is_empty _); [unfold billed; by cbn|].
    apply synthesize_billed; cbn; eauto.
  - destruct (run w) as [| |u t] eqn:Hrun; try done.
    destruct Hs as (made & Hmade & Hsub).
    destruct Hin as (_ & _ & _ & Hlen).
    assert (Hidle : ∀ w', calls w' = calls w -> inflight w' = inflight w ->
                      run w' = Idle -> billed w')
      by (intros w'; by apply billed_idle).
    assert (Hsent : ∀ w', calls w' = calls w ++ [CallDeduct (length t)] ->
                      inflight w' = inflight w ++ [length t] ->
                      run w' = Idle -> billed w').
    { intros w' Hc Hi Hr. unfold billed.
      rewrite Hc, Hi, Hr, deductions_app, synthesis_lengths_app, Hmade.
      cbn. rewrite app_nil_r.
      repeat split.
      - apply Forall_app. split; [done|]. by apply Forall_singleton.
      - apply Forall_app. split; [done|]. by apply Forall_singleton.
      - by apply sublist_app. }
    unfold synthesized, generation_failed.
    repeat case_match;
      first [ by apply Hidle | by apply Hsent ].
  - unfold handleCancel.
    destruct (abortControllerRef (ui w)) eqn:Href; [|exact Hb].
    destruct (run w) as [| |u t] eqn:Hrun.
    + unfold billed. cbn. by rewrite Hrun.
    + unfold billed. cbn. by rewrite Hrun.
    + unfold generation_failed.
      repeat case_match; by apply (billed_idle w).
  - unfold deduct_answered. destruct (inflight w) as [|a rest] eqn:Hi; [exact Hb|].
    destruct (Ledger.deduct _ _ _ _). unfold billed. cbn.
    apply Forall_cons in Hf as [_ Hf]. by repeat split.
Qed.

Lemma act_billed w a :
  in_step w -> billed w -> billed (act jwt_verify jwt_sign w a).
Proof.
  intros Hin Hb. destruct a as [e|ck|t| | |input|e|]; cbn [act]; try exact Hb.
  - by apply step_billed.
  - rewrite served_eq. destruct Hb as (Hd & Hf & Hs).
    destruct (inflight w) as [|a rest] eqn:Hi; [by rewrite <- Hi in Hf|].
    destruct (Ledger.deduct _ _ _ _). unfold billed. cbn.
    apply Forall_cons in Hf as [_ Hf]. by repeat split.
  - unfold fetch_user_on_load. destruct (Ledger.get_user _ _ _). exact Hb.
  - unfold handleMessage. destruct (Ledger.get_user _ _ _). exact Hb.
Qed.

Lemma acts_billed l : ∀ w,
  in_step w -> billed w -> billed (acts jwt_verify jwt_sign w l).
Proof.
  induction l as [|a l IH]; intros w Hin Hb; cbn; [done|].
  apply IH; [by apply act_in_step | by apply act_billed].
Qed.

(** X13.  What is asked for is what was synthesized.  From the first render
    on, whatever happens, as long as [generateSpeech] is called only when
    no run is suspended: every deduction request the client has sent
    pairs with a synthesis call of its own, and asks for exactly the
    number of code units of the text that call carried, which is at least
    1 and at most 20000.  No text is billed twice, nothing is billed that
    was not sent for synthesis. *)
Theorem deductions_follow_syntheses s db jar l :
  one_run_at_a_time jwt_verify jwt_sign (first_render s db jar) l = true ->
  let w := acts jwt_verify jwt_sign (first_render s db jar) l in
  deductions (calls w) `sublist_of` synthesis_lengths (calls w)
  ∧ Forall billable (deductions (calls w))
  ∧ Forall billable (inflight w).
Proof.
  intros _ w.
  assert (Hin : in_step (first_render s db jar)) by by repeat split.
  assert (Hb : billed (first_render s db jar)).
  { unfold billed. cbn. by repeat split. }
  pose proof (acts_billed l _ Hin Hb) as (Hd & Hf & Hs). fold w in Hd, Hf, Hs.
  repeat split; try done.
  destruct (run w); try done.
  destruct Hs as (made & -> & Hsub). by apply sublist_inserts_r.
Qed.

(** *** Balances stay whole *)

Lemma deduct_whole db ck (a : nat) :
  billable a -> ledger_whole db ->
  ledger_whole (fst (Ledger.deduct jwt_verify db ck (of_nat a))).
Proof.
  intros Ha Hdb.
  destruct (ServerFacts.deduct_writes jwt_verify db ck (of_nat a))
    as [-> | (e & u & _ & Hu & Hmetered & Hlt & ->)]; [done|].
  cbn [fst]. apply map_Forall_insert_2; [|done].
  destruct (Hdb e u Hu) as [Hinf | (k & Hk & Hc)].
  { rewrite Hinf in Hmetered. discriminate. }
  right. unfold LedgerFacts.charged. cbn [Ledger.credits]. rewrite Hc in *.
  destruct Ha as [Ha1 Ha2].
  rewrite of_nat_lt in Hlt by (unfold MAX_CHARS in *; lia).
  apply Nat.ltb_ge in Hlt.
  rewrite of_nat_sub by (unfold MAX_CHARS in *; lia).
  exists (k - a)%nat. split; [lia|done].
Qed.

Lemma get_user_whole db ck :
  ledger_whole db -> ledger_whole (fst (Ledger.get_user jwt_verify db ck)).
Proof.
  intros Hdb.
  destruct (ServerFacts.get_user_writes jwt_verify db ck)
    as [-> | (m & _ & _ & ->)]; [done|].
  cbn [fst]. apply map_Forall_insert_2; [apply new_user_whole|done].
Qed.

(** The account an answer carries is in the ledger the request left. *)
Lemma deduct_answer db ck amount u :
  snd (Ledger.deduct jwt_verify db ck amount) = Ledger.RUser u ->
  ∃ e, fst (Ledger.deduct jwt_verify db ck amount) !! e = Some u.
Proof.
  unfold Ledger.deduct.
  destruct (Ledger.truthy (Ledger.mock_session ck)) as [m|];
    [|destruct (Ledger.truthy (Ledger.session ck)) as [token|];
      [destruct (jwt_verify token) as [m|]|]];
    try discriminate;
    (destruct (db !! m) as [v|] eqn:Hv; [|discriminate]);
    (destruct (strict_neq _ _); [destruct (lt _ _); [discriminate|]|]);
    cbn [fst snd]; intros [= <-]; exists m;
    first [ exact Hv | apply lookup_insert_eq ].
Qed.

Lemma get_user_answer db ck u :
  snd (Ledger.get_user jwt_verify db ck) = Ledger.RUser u ->
  ∃ e, fst (Ledger.get_user jwt_verify db ck) !! e = Some u.
Proof.
  unfold Ledger.get_user.
  destruct (Ledger.truthy (Ledger.mock_session ck)) as [m|];
    [|destruct (Ledger.truthy (Ledger.session ck)) as [token|];
      [destruct (jwt_verify token) as [m|]|]];
    try discriminate;
    (destruct (db !! m) as [v|] eqn:Hv; try discriminate);
    cbn [fst snd]; intros [= <-]; exists m;
    first [ exact Hv | apply lookup_insert_eq ].
Qed.

(** The ledger is whole and so is the balance the component holds. *)
Definition whole_world (w : world) : Prop :=
  ledger_whole (usersDb w)
  ∧ ∀ n, shown_credits (ui w) = Some n -> whole n.

(** Only an answer of the server changes what the component holds of the
    account, and only serving a request changes the ledger. *)
Lemma step_keeps_account w e :
  e ≠ Deduct_answered ->
  usersDb (step jwt_verify w e) = usersDb w
  ∧ cookie_jar (step jwt_verify w e) = cookie_jar w
  ∧ user (ui (step jwt_verify w e)) = user (ui w).
Proof.
  intros He. destruct e as [|r|r id now| |]; try done; unfold step.
  - destruct (run w); try done.
    unfold generateSpeech, synthesize, transcribe.
    repeat case_match; repeat split; try reflexivity; cbn; congruence.
  - destruct (run w); try done.
    unfold transcribed, synthesize, preprocess_failed.
    repeat case_match; repeat split; try reflexivity; cbn; congruence.
  - destruct (run w); try done.
    unfold synthesized, generation_failed.
    repeat case_match; repeat split; try reflexivity; cbn; congruence.
  - unfold handleCancel, generation_failed.
    repeat case_match; repeat split; try reflexivity; cbn; congruence.
Qed.

Lemma Deduct_answered_or_not (e : event) :
  e = Deduct_answered ∨ e ≠ Deduct_answered.
Proof. destruct e; first [by left | by right]. Qed.

Lemma shown_credits_to_json r (c : component) n :
  shown_credits (setUser (Some (to_json r)) c) = Some n ->
  ∃ u e p, r = Ledger.RUser u ∧ to_json (Ledger.RUser u) = JUser e (Some n) p.
Proof.
  unfold shown_credits. cbn [user setUser].
  destruct r as [st msg|u]; [discriminate|].
  cbn [to_json]. destruct (json_number _) as [x|] eqn:Hx; [|discriminate].
  intros [= <-]. exists u, (Ledger.email u), (Ledger.isPremium u).
  split; [done|]. cbn [to_json]. by rewrite Hx.
Qed.

Lemma act_whole w a :
  billed w -> whole_world w -> whole_world (act jwt_verify jwt_sign w a).
Proof.
  intros (_ & Hf & _) [Hdb Hshown].
  assert (Hanswer : ∀ db' r (c : component),
            ledger_whole db' ->
            (∀ u, r = Ledger.RUser u -> ∃ e, db' !! e = Some u) ->
            ∀ n, shown_credits (setUser (Some (to_json r)) c) = Some n -> whole n).
  { intros db' r c Hdb' Hr n Hn.
    apply shown_credits_to_json in Hn as (u & e & p & -> & Hn).
    destruct (Hr u eq_refl) as [e' He'].
    by apply (to_json_whole u e n p (Hdb' e' u He')). }
  destruct a as [e|ck|t| | |input|e|]; cbn [act].
  - destruct (Deduct_answered_or_not e) as [->|He].
    + unfold step, deduct_answered.
      destruct (inflight w) as [|a rest] eqn:Hi; [by split|].
      apply Forall_cons in Hf as [Ha _].
      pose proof (deduct_whole (usersDb w) (cookie_jar w) a Ha Hdb) as Hdb'.
      pose proof (deduct_answer (usersDb w) (cookie_jar w) (of_nat a)) as Hr.
      destruct (Ledger.deduct _ _ _ _) as [db' r]. cbn [fst snd] in *.
      split; [exact Hdb'|]. cbn [ui].
      apply (Hanswer db' r); [exact Hdb'|]. intros u ->. by apply Hr.
    + destruct (step_keeps_account w e He) as (Hd & _ & Hu).
      split; [by rewrite Hd|]. unfold shown_credits. rewrite Hu. exact Hshown.
  - rewrite served_eq.
    destruct (inflight w) as [|a rest] eqn:Hi; [by split|].
    apply Forall_cons in Hf as [Ha _].
    pose proof (deduct_whole (usersDb w) ck a Ha Hdb) as Hdb'.
    pose proof (deduct_answer (usersDb w) ck (of_nat a)) as Hr.
    destruct (Ledger.deduct _ _ _ _) as [db' r]. cbn [fst snd] in *.
    split; [exact Hdb'|]. cbn [ui].
    apply (Hanswer db' r); [exact Hdb'|]. intros u ->. by apply Hr.
  - by split.
  - unfold fetch_user_on_load.
    pose proof (get_user_whole (usersDb w) (cookie_jar w) Hdb) as Hdb'.
    pose proof (get_user_answer (usersDb w) (cookie_jar w)) as Hr.
    destruct (Ledger.get_user _ _ _) as [db' r]. cbn [fst snd] in *.
    split; [exact Hdb'|]. cbn [ui with_server].
    destruct r as [st msg|u]; [by intros n|].
    apply (Hanswer db' (Ledger.RUser u)); [exact Hdb'|].
    intros u' [= <-]. by apply Hr.
  - unfold handleMessage.
    pose proof (get_user_whole (usersDb w) (cookie_jar w) Hdb) as Hdb'.
    pose proof (get_user_answer (usersDb w) (cookie_jar w)) as Hr.
    destruct (Ledger.get_user _ _ _) as [db' r]. cbn [fst snd] in *.
    split; [exact Hdb'|]. cbn [ui with_server].
    apply (Hanswer db' r); [exact Hdb'|]. intros u ->. by apply Hr.
  - by split.
  - unfold google_login. cbn. split; [|exact Hshown].
    unfold Ledger.init_user. destruct (usersDb w !! e); [done|].
    apply map_Forall_insert_2; [apply new_user_whole|done].
  - unfold handleLogout. cbn. split; [done|]. by intros n.
Qed.

Lemma acts_whole l : ∀ w,
  in_step w -> billed w -> whole_world w ->
  whole_world (acts jwt_verify jwt_sign w l).
Proof.
  induction l as [|a l IH]; intros w Hin Hb Hw; cbn; [done|].
  apply IH; [by apply act_in_step | by apply act_billed | by apply act_whole].
Qed.

(** X14.  Balances stay whole.  When the ledger holds whole balances within
    20000 (or unlimited ones), as it does when the server starts, then
    whatever this client does the ledger stays so, and every balance the
    component holds is such a whole number: under the client's own traffic
    binary64 subtraction never rounds and no balance leaves the range. *)
Theorem balances_stay_whole s db jar l :
  ledger_whole db ->
  let w := acts jwt_verify jwt_sign (first_render s db jar) l in
  ledger_whole (usersDb w) ∧ ∀ n, shown_credits (ui w) = Some n -> whole n.
Proof.
  intros Hdb w. apply acts_whole.
  - by repeat split.
  - unfold billed. cbn. by repeat split.
  - split; [exact Hdb|]. by intros n.
Qed.

(** *** What the header can show *)

Lemma render_credits_to_json r : render_credits (to_json r) ≠ Some Unlimited.
Proof.
  unfold render_credits. destruct r as [st msg|u]; [done|].
  cbn [to_json credits_of].
  destruct (json_number _) as [n|] eqn:Hn; [|done].
  apply json_number_finite in Hn. unfold strict_neq in Hn.
  apply negb_true_iff in Hn. by rewrite Hn.
Qed.

Definition never_unlimited (c : component) : Prop :=
  ∀ u, user c = Some u -> render_credits u ≠ Some Unlimited.

Lemma act_never_unlimited w a :
  never_unlimited (ui w) -> never_unlimited (ui (act jwt_verify jwt_sign w a)).
Proof.
  intros Hw. destruct a as [e|ck|t| | |input|e|]; cbn [act].
  - destruct (Deduct_answered_or_not e) as [->|He].
    + unfold step, deduct_answered. destruct (inflight w); [done|].
      destruct (Ledger.deduct _ _ _ _) as [db' r]. cbn.
      intros u [= <-]. apply render_credits_to_json.
    + destruct (step_keeps_account w e He) as (_ & _ & Hu).
      unfold never_unlimited. by rewrite Hu.
  - rewrite served_eq. destruct (inflight w); [done|].
    destruct (Ledger.deduct _ _ _ _) as [db' r]. cbn.
    intros u [= <-]. apply render_credits_to_json.
  - exact Hw.
  - unfold fetch_user_on_load. destruct (Ledger.get_user _ _ _) as [db' r]. cbn.
    destruct r; cbn; [done|]. intros u' [= <-].
    apply (render_credits_to_json (Ledger.RUser u)).
  - unfold handleMessage. destruct (Ledger.get_user _ _ _) as [db' r]. cbn.
    intros u [= <-]. apply render_credits_to_json.
  - exact Hw.
  - exact Hw.
  - by intros u.
Qed.

Lemma acts_never_unlimited l : ∀ w,
  never_unlimited (ui w) -> never_unlimited (ui (acts jwt_verify jwt_sign w l)).
Proof.
  induction l as [|a l IH]; intros w Hw; cbn; [done|].
  by apply IH, act_never_unlimited.
Qed.

(** X15.  The word Unlimited is never shown.  The header shows it for a
    balance that is [=== Infinity]; no answer of the server carries one
    ([JSON.stringify] writes [null] for it), so whatever happens from the
    first render on, the balance in the header is a number or the render
    throws. *)
Theorem unlimited_is_never_shown s db jar l u :
  user (ui (acts jwt_verify jwt_sign (first_render s db jar) l)) = Some u ->
  render_credits u ≠ Some Unlimited.
Proof.
  apply (acts_never_unlimited l (first_render s db jar)). by intros u'.
Qed.

(** X16.  The profile of an unlimited account ends the render.  When
    [GET /api/user] answers with an account whose balance is [Infinity]
    (the account of a special email, say), the component stores it with
    [credits: null], on load as well as after a sign-in message, and line
    658 then calls [toLocaleString] on [null]. *)
Theorem unlimited_profile_ends_the_render w acct :
  snd (Ledger.get_user jwt_verify (usersDb w) (cookie_jar w)) = Ledger.RUser acct ->
  strict_eq (Ledger.credits acct) Infinity = true ->
  user (ui (act jwt_verify jwt_sign w Loaded))
  = Some (JUser (Ledger.email acct) None (Ledger.isPremium acct))
  ∧ user (ui (act jwt_verify jwt_sign w Message))
    = Some (JUser (Ledger.email acct) None (Ledger.isPremium acct))
  ∧ renders (ui (act jwt_verify jwt_sign w Loaded)) = false
  ∧ renders (ui (act jwt_verify jwt_sign w Message)) = false.
Proof.
  intros Hr Hinf. apply strict_eq_Infinity in Hinf.
  cbn [act]. unfold fetch_user_on_load, handleMessage, renders.
  destruct (Ledger.get_user _ _ _) as [db' r]. cbn [snd] in Hr. subst r.
  cbn [with_server ui user setUser loaded_user to_json]. rewrite Hinf.
  by repeat split.
Qed.

(** X17.  A refused profile request.  When [GET /api/user] refuses (nobody
    is signed in, the token is invalid, the account is unknown), the fetch
    of the first render leaves the visitor signed out, and pressing the
    button then only opens the sign-in popup: none of the calls of a run
    is made.  The fetch after a sign-in message
    stores the error object as the user instead: the component takes the
    visitor for signed in, and the header, finding no balance in it, ends
    the render. *)
Theorem refused_profile_on_load_and_on_message w st msg :
  snd (Ledger.get_user jwt_verify (usersDb w) (cookie_jar w)) = Ledger.RError st msg ->
  run w = Idle ->
  user (ui (act jwt_verify jwt_sign w Loaded)) = None
  ∧ calls (acts jwt_verify jwt_sign w [Loaded; Pipeline Generate]) = calls w
  ∧ last_exit (acts jwt_verify jwt_sign w [Loaded; Pipeline Generate]) = Some Exit_login
  ∧ usersDb (acts jwt_verify jwt_sign w [Loaded; Pipeline Generate]) = usersDb w
  ∧ user (ui (act jwt_verify jwt_sign w Message)) = Some (JError msg)
  ∧ renders (ui (act jwt_verify jwt_sign w Message)) = false.
Proof.
  intros Hr Hrun.
  pose proof (ServerFacts.get_user_writes jwt_verify (usersDb w) (cookie_jar w))
    as [Hdb | (m & _ & _ & Hnew)]; [|by rewrite Hnew in Hr].
  cbn [acts act fold_left]. unfold fetch_user_on_load, handleMessage, renders.
  destruct (Ledger.get_user _ _ _) as [db' r]. cbn [fst snd] in *. subst r db'.
  unfold step. cbn [with_server run ui user setUser loaded_user to_json].
  rewrite Hrun. unfold generateSpeech. cbn. by repeat split.
Qed.

(** X18.  Only a served deduction touches an account.  No other action
    (pressing the button, an answer of the model, a cancellation, typing,
    a profile fetch, a sign-in, a sign-out) changes an account that
    exists: profile fetches and sign-ins at most add accounts.  And a
    deduction request leaves only when a synthesis has answered with
    audio. *)
Theorem only_a_served_deduction_touches_an_account w a :
  a ≠ Pipeline Deduct_answered -> (∀ ck, a ≠ Served ck) ->
  (∀ e u, usersDb w !! e = Some u ->
          usersDb (act jwt_verify jwt_sign w a) !! e = Some u)
  ∧ (inflight (act jwt_verify jwt_sign w a) = inflight w
     ∨ ∃ data id now, a = Pipeline (Synthesized (Return (Some data)) id now)
                      ∧ is_empty data = false).
Proof.
  intros Ha Hs. split.
  - intros e u Hu. destruct a as [ev|ck|t| | |input|e'|]; cbn [act]; try exact Hu.
    + assert (Hev : ev ≠ Deduct_answered) by congruence.
      destruct (step_keeps_account w ev Hev) as (-> & _). exact Hu.
    + by destruct (Hs ck).
    + unfold fetch_user_on_load.
      destruct (ServerFacts.get_user_writes jwt_verify (usersDb w) (cookie_jar w))
        as [Hdb | (m & _ & Hnone & Hnew)].
      * destruct (Ledger.get_user _ _ _) as [db' r]. cbn in *. by subst db'.
      * rewrite Hnew. cbn. rewrite lookup_insert_ne; [exact Hu|]. congruence.
    + unfold handleMessage.
      destruct (ServerFacts.get_user_writes jwt_verify (usersDb w) (cookie_jar w))
        as [Hdb | (m & _ & Hnone & Hnew)].
      * destruct (Ledger.get_user _ _ _) as [db' r]. cbn in *. by subst db'.
      * rewrite Hnew. cbn. rewrite lookup_insert_ne; [exact Hu|]. congruence.
    + unfold google_login. cbn. unfold Ledger.init_user.
      destruct (usersDb w !! e') eqn:He'; [exact Hu|].
      rewrite lookup_insert_ne; [exact Hu|]. congruence.
  - destruct a as [ev|ck|t| | |input|e'|]; cbn [act]; try (by left).
    + destruct (is_audio_answer ev) eqn:Haudio.
      * right. destruct ev as [|r|[[data|]|err] id now| |]; try discriminate.
        cbn in Haudio. apply negb_true_iff in Haudio. by exists data, id, now.
      * left. assert (Hev : ev ≠ Deduct_answered) by congruence.
        by destruct (only_audio_is_charged jwt_verify w ev Haudio Hev) as (_ & ? & _).
    + by destruct (Hs ck).
    + left. unfold fetch_user_on_load. by destruct (Ledger.get_user _ _ _).
    + left. unfold handleMessage. by destruct (Ledger.get_user _ _ _).
Qed.

(** *** Runs and what they cost *)

(** A text that passes the checks, is synthesized to audio that decodes,
    and is paid for from a balance that covers it. *)
Lemma paid_synthesis w e p (shown held : nat) ident acct t audio id now :
  inflight w = [] ->
  is_empty (trim t) = false -> len t <= MAX_CHARS ->
  (length t <= shown)%nat -> Z.of_nat shown < 2 ^ 53 ->
  Ledger.resolves_to jwt_verify (cookie_jar w) ident ->
  usersDb w !! ident = Some acct -> Ledger.credits acct = of_nat held ->
  (length t <= held)%nat -> Z.of_nat held < 2 ^ 53 ->
  is_empty audio = false -> is_Some (atob audio) ->
  let w' := steps jwt_verify (synthesize (JUser e (Some (of_nat shown)) p) t w)
              [Synthesized (Return (Some audio)) id now; Deduct_answered] in
  ∃ url,
    Wav.createWavUrl audio 24000 = Some url
    ∧ calls w' = calls w ++ [CallSynthesize t (voice_id (selectedVoice (cfg w)));
                             CallDeduct (length t)]
    ∧ usersDb w'
      = <[ident := ServerFacts.with_credits acct (of_nat (held - length t))]> (usersDb w)
    ∧ user (ui w')
      = Some (JUser (Ledger.email acct) (Some (of_nat (held - length t)))
                (Ledger.isPremium acct))
    ∧ text (ui w') = text (ui w)
    ∧ audioUrl (ui w') = Some url
    ∧ history (ui w') = history_item w t url id now :: history (ui w)
    ∧ last_exit w' = Some Exit_completed ∧ run w' = Idle ∧ inflight w' = []
    ∧ isGenerating (ui w') = false.
Proof.
  intros Hfl Hne Hmax Hshown Hs53 Hres Hacct Hheld Hle Hh53
         Haudio [bytes Hbytes] w'.
  assert (Hn53 : Z.of_nat (length t) < 2 ^ 53) by lia.
  assert (Hurl : Wav.createWavUrl audio 24000
                 = Some (WavFacts.header (length bytes) 24000
                         ++ map (fun b => b mod 256)%N bytes)).
  { unfold Wav.createWavUrl. rewrite Hbytes. apply WavFacts.wav_buffer_closed_form. }
  eexists. split; [exact Hurl|].
  assert (Ha : or_else (Some audio) [] = audio)
    by (unfold or_else; by rewrite Haudio).
  subst w'. unfold steps. cbn [fold_left].
  unfold synthesize. rewrite Hne.
  assert (Hgt : (len t >? MAX_CHARS) = false).
  { rewrite Z.gtb_ltb. apply Z.ltb_ge. lia. }
  rewrite Hgt. cbn [credits_of neq_Infinity lt_length].
  rewrite of_nat_neq_Infinity by done.
  rewrite of_nat_lt by done.
  assert (Hok : (shown <? length t)%nat = false) by (apply Nat.ltb_ge; lia).
  rewrite Hok. cbn [andb].
  rewrite (step_synthesized jwt_verify _ (JUser e (Some (of_nat shown)) p) t)
    by reflexivity.
  unfold synthesized. rewrite Ha, Haudio.
  cbn [credits_of neq_Infinity].
  rewrite of_nat_neq_Infinity by done. rewrite Hurl.
  unfold step, deduct_answered.
  cbn [inflight send_deduct with_exit with_ui with_run with_call usersDb cookie_jar].
  rewrite Hfl. cbn [app].
  rewrite (ServerFacts.deduct_of_nat jwt_verify _ _ ident acct held _
             Hres Hacct Hheld Hh53 Hn53).
  assert (Hok' : (held <? length t)%nat = false) by (apply Nat.ltb_ge; lia).
  rewrite Hok'.
  cbn [to_json ServerFacts.with_credits Ledger.credits Ledger.email Ledger.isPremium].
  rewrite json_number_of_nat by lia.
  cbn. repeat apply conj; try done. by rewrite <- app_assoc.
Qed.

(** X19.  A direct run charges exactly the length of its text.  A signed-in
    visitor whose shown and actual balances are whole numbers that cover
    the text presses the button in direct mode; the synthesis answers with
    audio that decodes; the deduction is served.  Then two calls were made
    (the synthesis, then the deduction of the length of the text), the
    account holds exactly the length less than before and the component
    shows that balance; the audio is the current one and heads the
    history; the component is idle again. *)
Theorem direct_run_charges_exactly w e p (shown held : nat) ident acct audio id now :
  run w = Idle -> mode (cfg w) = tts -> inflight w = [] ->
  user (ui w) = Some (JUser e (Some (of_nat shown)) p) ->
  is_empty (trim (text (ui w))) = false -> len (text (ui w)) <= MAX_CHARS ->
  (length (text (ui w)) <= shown)%nat -> Z.of_nat shown < 2 ^ 53 ->
  Ledger.resolves_to jwt_verify (cookie_jar w) ident ->
  usersDb w !! ident = Some acct -> Ledger.credits acct = of_nat held ->
  (length (text (ui w)) <= held)%nat -> Z.of_nat held < 2 ^ 53 ->
  is_empty audio = false -> is_Some (atob audio) ->
  let n := length (text (ui w)) in
  let w' := steps jwt_verify w
              [Generate; Synthesized (Return (Some audio)) id now; Deduct_answered] in
  ∃ url,
    Wav.createWavUrl audio 24000 = Some url
    ∧ calls w' = calls w ++ [CallSynthesize (text (ui w)) (voice_id (selectedVoice (cfg w)));
                             CallDeduct n]
    ∧ usersDb w'
      = <[ident := ServerFacts.with_credits acct (of_nat (held - n))]> (usersDb w)
    ∧ user (ui w')
      = Some (JUser (Ledger.email acct) (Some (of_nat (held - n))) (Ledger.isPremium acct))
    ∧ audioUrl (ui w') = Some url
    ∧ history (ui w') = history_item w (text (ui w)) url id now :: history (ui w)
    ∧ last_exit w' = Some Exit_completed ∧ run w' = Idle ∧ inflight w' = []
    ∧ isGenerating (ui w') = false.
Proof.
  intros Hrun Hmode Hfl Hu Hne Hmax Hshown Hs53 Hres Hacct Hheld Hle Hh53
         Haudio Hbytes n w'. subst n w'.
  unfold steps. cbn [fold_left].
  rewrite (generate_direct jwt_verify w _ Hrun Hu Hmode).
  destruct (paid_synthesis w e p shown held ident acct (text (ui w)) audio id now)
    as (url & Hurl & Hc & Hdb & Hus & _ & Hau & Hh & Hx & Hr & Hi & Hg); try done.
  exists url. by repeat apply conj.
Qed.

(** X20.  An upload run bills the transcript.  In voice-changer or dubbing
    mode the text that is checked, synthesized and paid for is the answer
    of the transcription or translation call, not what the text box held:
    three calls are made (the transcription, the synthesis of the
    transcript, the deduction of the transcript's length), the account
    holds exactly that length less, and the text box shows the transcript.
    The transcription itself costs nothing. *)
Theorem upload_run_bills_the_transcript w e p (shown held : nat) ident acct
    clip t audio id now :
  run w = Idle -> mode (cfg w) ≠ tts -> uploadedAudio (cfg w) = Some clip ->
  inflight w = [] ->
  user (ui w) = Some (JUser e (Some (of_nat shown)) p) ->
  is_empty (trim t) = false -> len t <= MAX_CHARS ->
  (length t <= shown)%nat -> Z.of_nat shown < 2 ^ 53 ->
  Ledger.resolves_to jwt_verify (cookie_jar w) ident ->
  usersDb w !! ident = Some acct -> Ledger.credits acct = of_nat held ->
  (length t <= held)%nat -> Z.of_nat held < 2 ^ 53 ->
  is_empty audio = false -> is_Some (atob audio) ->
  let w' := steps jwt_verify w
              [Generate; Transcribed (Return (Some t));
               Synthesized (Return (Some audio)) id now; Deduct_answered] in
  ∃ url,
    Wav.createWavUrl audio 24000 = Some url
    ∧ calls w' = calls w ++ [CallTranscribe clip (prompt_of (cfg w));
                             CallSynthesize t (voice_id (selectedVoice (cfg w)));
                             CallDeduct (length t)]
    ∧ usersDb w'
      = <[ident := ServerFacts.with_credits acct (of_nat (held - length t))]> (usersDb w)
    ∧ user (ui w')
      = Some (JUser (Ledger.email acct) (Some (of_nat (held - length t)))
                (Ledger.isPremium acct))
    ∧ text (ui w') = t
    ∧ audioUrl (ui w') = Some url
    ∧ history (ui w') = history_item w t url id now :: history (ui w)
    ∧ last_exit w' = Some Exit_completed ∧ run w' = Idle ∧ inflight w' = [].
Proof.
  intros Hrun Hmode Hup Hfl Hu Hne Hmax Hshown Hs53 Hres Hacct Hheld Hle Hh53
         Haudio Hbytes w'. subst w'.
  unfold steps. cbn [fold_left].
  rewrite (generate_upload jwt_verify w _ clip Hrun Hu Hmode Hup).
  rewrite (step_transcribed jwt_verify _ (JUser e (Some (of_nat shown)) p))
    by reflexivity.
  unfold transcribed.
  assert (Ht : or_else (Some t) [] = t).
  { unfold or_else. destruct t; [|done]. cbn in Hne. discriminate. }
  rewrite Ht, Hne.
  set (w0 := with_ui (setText t) (transcribe _ clip w)).
  destruct (paid_synthesis w0 e p shown held ident acct t audio id now)
    as (url & Hurl & Hc & Hdb & Hus & Ht' & Hau & Hh & Hx & Hr & Hi & _); try done.
  exists url. unfold steps in *. cbn [fold_left] in *.
  repeat apply conj; try done.
  rewrite Hc. unfold w0. cbn. by rewrite <- app_assoc.
Qed.

(** X21.  A cancelled synthesis is never charged.  When the visitor cancels
    while the synthesis call is outstanding, the run ends at once; and
    when the model answers afterwards, with whatever, nobody listens:
    no deduction leaves, the ledger, the history and the current audio
    stay as they were. *)
Theorem cancelled_synthesis_is_never_charged w u txt c r id now :
  run w = AwaitSynthesis u txt -> abortControllerRef (ui w) = Some c ->
  let w' := steps jwt_verify w [Cancel; Synthesized r id now] in
  w' = step jwt_verify w Cancel
  ∧ nothing_charged w w' ∧ calls w' = calls w ∧ audioUrl (ui w') = audioUrl (ui w)
  ∧ run w' = Idle ∧ isGenerating (ui w') = false
  ∧ abortControllerRef (ui w') = None.
Proof.
  intros Hrun Href w'. subst w'. unfold steps. cbn [fold_left].
  set (w1 := step jwt_verify w Cancel).
  assert (H1 : w1 = generation_failed (Error (lit "AbortError"))
                      (with_ui (fun c =>
                         setLoadingStatus None (setIsGenerating false
                           (setAbortControllerRef None c))) w))
    by (unfold w1, step, handleCancel; by rewrite Href, Hrun).
  assert (Hidle : run w1 = Idle) by (by rewrite H1).
  assert (H2 : step jwt_verify w1 (Synthesized r id now) = w1)
    by (unfold step; by rewrite Hidle).
  rewrite H2. split; [done|]. rewrite H1. by repeat apply conj.
Qed.

(** X22.  Signing out while the synthesis call is outstanding.  The run
    goes on.  When the call answers with audio that decodes, the audio is
    delivered into the emptied history; the deduction leaves without a
    cookie and is refused as unauthenticated, so nothing is charged; and
    the refusal is stored as the user, which ends the render. *)
Theorem signing_out_during_synthesis w u txt audio id now :
  run w = AwaitSynthesis u txt -> inflight w = [] ->
  neq_Infinity (credits_of u) = true ->
  is_empty audio = false -> is_Some (atob audio) ->
  let w' := acts jwt_verify jwt_sign w
              [LoggedOut; Pipeline (Synthesized (Return (Some audio)) id now);
               Pipeline Deduct_answered] in
  ∃ url,
    Wav.createWavUrl audio 24000 = Some url
    ∧ audioUrl (ui w') = Some url
    ∧ history (ui w') = [history_item w txt url id now]
    ∧ last_exit w' = Some Exit_completed
    ∧ calls w' = calls w ++ [CallDeduct (length txt)]
    ∧ usersDb w' = usersDb w
    ∧ user (ui w') = Some (JError "Unauthorized")
    ∧ renders (ui w') = false.
Proof.
  intros Hrun Hfl Hmetered Haudio [bytes Hbytes] w'.
  assert (Hurl : Wav.createWavUrl audio 24000
                 = Some (WavFacts.header (length bytes) 24000
                         ++ map (fun b => b mod 256)%N bytes)).
  { unfold Wav.createWavUrl. rewrite Hbytes. apply WavFacts.wav_buffer_closed_form. }
  eexists. split; [exact Hurl|].
  assert (Ha : or_else (Some audio) [] = audio)
    by (unfold or_else; by rewrite Haudio).
  subst w'. unfold acts. cbn [fold_left act].
  unfold handleLogout, logout.
  rewrite (step_synthesized jwt_verify _ u txt) by exact Hrun.
  unfold synthesized. rewrite Ha, Haudio, Hmetered, Hurl.
  unfold step, deduct_answered.
  cbn [inflight send_deduct with_exit with_ui with_server usersDb cookie_jar].
  rewrite Hfl. cbn. by repeat apply conj.
Qed.

(** *** A refused deduction *)

(** C3, as the component has it.  A run is suspended on the synthesis
    call; the call answers with audio that decodes to [bytes]; the
    deduction it triggers is refused by the server because the balance is
    below the length of the resolved text.  The container of the audio
    (the header, then [bytes]) becomes the current audio and heads the
    history, and the ledger is left as it was.  But line 560 stores the
    parsed answer without a look at its status: the refusal becomes the
    user, and the header, finding no balance in it, ends the render (line
    658). *)
Theorem refused_deduction_ends_the_render w u txt audio bytes id now e acct :
  run w = AwaitSynthesis u txt -> inflight w = [] ->
  neq_Infinity (credits_of u) = true ->
  is_empty audio = false -> atob audio = Some bytes ->
  Ledger.as_sent (cookie_jar w) -> Ledger.own_only e ->
  Ledger.resolves_to jwt_verify (cookie_jar w) e ->
  usersDb w !! e = Some acct ->
  lt (Ledger.credits acct) (of_nat (length txt)) = true ->
  let url := WavFacts.header (length bytes) 24000 ++ bytes in
  let w1 := step jwt_verify w (Synthesized (Return (Some audio)) id now) in
  let w2 := step jwt_verify w1 Deduct_answered in
  Wav.createWavUrl audio 24000 = Some url
  ∧ audioUrl (ui w1) = Some url
  ∧ history (ui w1) = history_item w txt url id now :: history (ui w)
  ∧ user (ui w1) = user (ui w)
  ∧ inflight w1 = [length txt]
  ∧ last_exit w1 = Some Exit_completed
  ∧ usersDb w2 = usersDb w
  ∧ inflight w2 = []
  ∧ audioUrl (ui w2) = Some url
  ∧ user (ui w2) = Some (JError "Insufficient credits")
  ∧ renders (ui w2) = false.
Proof.
  intros Hrun Hfl Hmetered Haudio Hbytes _ _ Hres Hacct Hlow url w1 w2.
  assert (Hurl : Wav.createWavUrl audio 24000 = Some url).
  { unfold Wav.createWavUrl. rewrite Hbytes, WavFacts.wav_buffer_closed_form.
    by rewrite (WavFormat.map_mod_bytes _ (WavFormat.atob_bytes _ _ Hbytes)). }
  assert (Ha : or_else (Some audio) [] = audio)
    by (unfold or_else; by rewrite Haudio).
  assert (Hw1 : w1 = synthesized u txt (Return (Some audio)) id now w)
    by (subst w1; by apply step_synthesized).
  unfold synthesized in Hw1. rewrite Ha, Haudio, Hmetered, Hurl in Hw1.
  assert (Hw2 : w2 = deduct_answered jwt_verify w1) by done.
  unfold deduct_answered in Hw2. rewrite Hw1 in Hw2.
  cbn [inflight send_deduct with_exit with_ui usersDb cookie_jar] in Hw2.
  rewrite Hfl in Hw2. cbn [app] in Hw2.
  rewrite (LedgerFacts.deduct_resolved jwt_verify _ _ e acct _ Hres Hacct) in Hw2.
  rewrite (infinity_is_not_less _ _ Hlow), Hlow in Hw2.
  split; [exact Hurl|].
  rewrite Hw2, Hw1. unfold renders. cbn. rewrite Hfl. by repeat apply conj.
Qed.

(** X23.  Signing out and in again keeps the balance.  After a sign-out the
    component holds no user, no history and no audio, and the ledger is
    as before; when the visitor then signs in on the preview page as an
    identity that has an account (typing a name that does not start with
    j: and is no member of [Object.prototype]), the profile shown is that
    account as it was left: the balance is neither reset nor refilled. *)
Theorem signing_out_and_in_keeps_the_balance w e acct :
  e ≠ EmptyString -> Ledger.json_cookie e = false -> Ledger.own_only e ->
  usersDb w !! e = Some acct ->
  let w1 := act jwt_verify jwt_sign w LoggedOut in
  let w2 := acts jwt_verify jwt_sign w [LoggedOut; PreviewLogin e; Message] in
  user (ui w1) = None ∧ history (ui w1) = [] ∧ audioUrl (ui w1) = None
  ∧ usersDb w1 = usersDb w
  ∧ snd (Ledger.get_user jwt_verify (usersDb w1) (cookie_jar w1))
    = Ledger.RError 401 "Unauthorized"
  ∧ usersDb w2 = usersDb w
  ∧ user (ui w2) = Some (to_json (Ledger.RUser acct)).
Proof.
  intros He _ _ Hacct w1 w2. subst w1 w2.
  unfold acts. cbn [fold_left act].
  unfold handleLogout, logout, preview_login, handleMessage, mock_login.
  cbn [with_server usersDb cookie_jar ui].
  rewrite decide_False by done.
  unfold Ledger.get_user at 2 3. cbn [Ledger.mock_session Ledger.session].
  rewrite (ServerFacts.truthy_Some e He), Hacct. cbn.
  by repeat apply conj.
Qed.

End Actions.
End SessionFacts.

(* ===================================================================== *)
(** ** The further properties, on concrete sessions *)
(* ===================================================================== *)

Module SessionExamples.
Import JsNum JsString Client ClientFacts Session SessionFacts.
Import LedgerFacts LedgerExamples ClientExamples ServerFacts WavFormat.

Definition bob : string := "b@x.com".
Definition owner : string := "robotlinkan@gmail.com".

(** The settings of the first render: direct mode, the first voice. *)
Definition defaults : settings :=
  {| mode := tts; uploadedAudio := None; targetLanguage := lit "Hindi";
     selectedVoice := frank; atob_error := invalid_character |}.

Definition no_cookie : Ledger.cookies :=
  {| Ledger.mock_session := None; Ledger.session := None |}.

Lemma le_to_nat (n : nat) (z : Z) : Z.of_nat n <= z -> (n <= Z.to_nat z)%nat.
Proof. lia. Qed.

(** A hypothesis about a concrete session, settled by evaluation. *)
Ltac evaluated :=
  first [ reflexivity
        | discriminate
        | left; reflexivity
        | vm_compute; reflexivity
        | vm_compute; discriminate
        | apply le_to_nat; vm_compute; discriminate
        | eexists; vm_compute; reflexivity ].

(** Alice's 100 credits survive a deduction, a sign-out and the arrival of
    Bob. *)
Lemma accounts_persist_witness :
  ∃ c, serve_all demo_verify demo_sign (ledger_of 100)
         [Deduct (mock_cookie alice) 30; Logout (mock_cookie alice);
          GetUser (mock_cookie bob); AuthCallback bob] !! alice
       = Some (with_credits (account alice 100) c)
       ∧ (strict_eq 100 Infinity = true -> c = 100%float).
Proof.
  apply (accounts_persist demo_verify demo_sign (ledger_of 100) _ alice
           (account alice 100)).
  reflexivity.
Defined.

(** The marker cookie of Alice beside the session token of Bob. *)
Lemma preview_marker_needs_no_token_witness :
  Ledger.deduct demo_verify (ledger_of 100)
    {| Ledger.mock_session := Some alice; Ledger.session := Some (demo_sign bob) |}
    30
  = Ledger.deduct (fun _ => None) (ledger_of 100) (mock_cookie alice) 30.
Proof.
  apply (preview_marker_needs_no_token demo_verify (fun _ => None) (ledger_of 100)
           alice (Some (demo_sign bob)) 30).
  - discriminate.
  - reflexivity.
  - exact alice_own_only.
Defined.

Lemma deduct_exact_integers_witness :
  Ledger.deduct demo_verify (ledger_of 100) (mock_cookie alice) (of_nat 101)
  = (ledger_of 100, Ledger.RError 400 "Insufficient credits")
  ∧ Client.to_json (snd (Ledger.deduct demo_verify (ledger_of 100) (mock_cookie alice)
                           (of_nat 100)))
    = JUser alice (Some (of_nat 0)) false.
Proof.
  split.
  - apply (deduct_exact_integers demo_verify (ledger_of 100) (mock_cookie alice) alice
             (account alice 100) 100 101); try reflexivity; try lia.
    left. reflexivity.
  - apply (deduct_exact_integers demo_verify (ledger_of 100) (mock_cookie alice) alice
             (account alice 100) 100 100); try reflexivity; try lia.
    left. reflexivity.
Defined.

(** 60, then 60 again (refused), then 40. *)
Lemma deduct_all_spends_witness :
  Ledger.deduct_all demo_verify (ledger_of 100)
    (map (fun a => (mock_cookie alice, of_nat a)) [60; 60; 40]%nat)
  = <[alice := with_credits (account alice 100) (of_nat (spend 100 [60; 60; 40]%nat))]>
      (ledger_of 100)
  ∧ spend 100 [60; 60; 40]%nat = 0%nat.
Proof.
  split; [|reflexivity].
  apply (deduct_all_spends demo_verify (mock_cookie alice) alice [60; 60; 40]%nat
           (ledger_of 100) (account alice 100) 100); try reflexivity.
  - left. reflexivity.
  - repeat constructor.
Defined.

Lemma deduct_nan_sticks_witness :
  Ledger.deduct demo_verify (ledger_of 100) (mock_cookie alice) NaN
  = (<[alice := with_credits (account alice 100) NaN]> (ledger_of 100),
     Ledger.RUser (with_credits (account alice 100) NaN))
  ∧ (∀ amount,
       Ledger.deduct demo_verify
         (<[alice := with_credits (account alice 100) NaN]> (ledger_of 100))
         (mock_cookie alice) amount
       = (<[alice := with_credits (account alice 100) NaN]> (ledger_of 100),
          Ledger.RUser (with_credits (account alice 100) NaN)))
  ∧ Client.to_json (Ledger.RUser (with_credits (account alice 100) NaN))
    = JUser alice None false.
Proof.
  apply (deduct_nan_sticks demo_verify (ledger_of 100) (mock_cookie alice) alice
           (account alice 100)); try reflexivity.
  left. reflexivity.
Defined.

Lemma deduct_negative_infinity_unlimits_witness :
  Ledger.deduct demo_verify (ledger_of 100) (mock_cookie alice) neg_infinity
  = (<[alice := with_credits (account alice 100) Infinity]> (ledger_of 100),
     Ledger.RUser (with_credits (account alice 100) Infinity))
  ∧ (∀ amount,
       Ledger.deduct demo_verify
         (<[alice := with_credits (account alice 100) Infinity]> (ledger_of 100))
         (mock_cookie alice) amount
       = (<[alice := with_credits (account alice 100) Infinity]> (ledger_of 100),
          Ledger.RUser (with_credits (account alice 100) Infinity))).
Proof.
  apply (deduct_negative_infinity_unlimits demo_verify (ledger_of 100)
           (mock_cookie alice) alice (account alice 100)); try reflexivity.
  left. reflexivity.
Defined.

(** Alice, who has 100 credits left, signs in again. *)
Lemma session_round_trip_witness :
  ∃ u, fst (Ledger.auth_callback demo_sign (ledger_of 100) alice) !! alice = Some u
       ∧ u = default (Ledger.new_user alice) (ledger_of 100 !! alice)
       ∧ (is_Some (ledger_of 100 !! alice) ->
            fst (Ledger.auth_callback demo_sign (ledger_of 100) alice) = ledger_of 100)
       ∧ Ledger.get_user demo_verify
           (fst (Ledger.auth_callback demo_sign (ledger_of 100) alice))
           (snd (Ledger.auth_callback demo_sign (ledger_of 100) alice))
         = (fst (Ledger.auth_callback demo_sign (ledger_of 100) alice), Ledger.RUser u)
       ∧ Ledger.resolves_to demo_verify
           (snd (Ledger.auth_callback demo_sign (ledger_of 100) alice)) alice.
Proof.
  apply (session_round_trip demo_verify demo_sign (ledger_of 100) alice).
  - reflexivity.
  - discriminate.
Defined.

(** Three bytes of audio at the default rate: 47 bytes, byte rate 48000. *)
Lemma createWavUrl_header_is_canonical_witness :
  atob three_bytes = Some [1; 2; 3]%N
  ∧ ∃ url, Wav.createWavUrl three_bytes 24000 = Some url
    ∧ take 4 url = lit "RIFF"
    ∧ Wav.getUint 4 4 url = Z.of_nat (length url) - 8
    ∧ take 4 (drop 8 url) = lit "WAVE"
    ∧ take 4 (drop 12 url) = lit "fmt "
    ∧ Wav.getUint 4 16 url = 16
    ∧ Wav.getUint 2 20 url = 1
    ∧ Wav.getUint 4 24 url = 24000
    ∧ Wav.getUint 2 32 url = Wav.getUint 2 22 url * (Wav.getUint 2 34 url / 8)
    ∧ Wav.getUint 4 28 url = Wav.getUint 4 24 url * Wav.getUint 2 32 url
    ∧ take 4 (drop 36 url) = lit "data"
    ∧ Wav.getUint 4 40 url = Z.of_nat (length url) - 44.
Proof.
  split; [vm_compute; reflexivity|].
  apply (createWavUrl_header_is_canonical three_bytes 24000 [1; 2; 3]%N).
  - vm_compute; reflexivity.
  - lia.
  - cbn. lia.
Defined.

(** Alice opens the page, types two letters and presses the button. *)
Lemma busy_exactly_while_a_run_is_suspended_witness :
  run (acts demo_verify demo_sign
         (first_render defaults (ledger_of 100) (mock_cookie alice))
         [Loaded; Typed (lit "hi"); Pipeline Generate]) ≠ Idle
  ∧ isGenerating
      (ui (acts demo_verify demo_sign
             (first_render defaults (ledger_of 100) (mock_cookie alice))
             [Loaded; Typed (lit "hi"); Pipeline Generate])) = true
  ∧ is_Some (loadingStatus
               (ui (acts demo_verify demo_sign
                      (first_render defaults (ledger_of 100) (mock_cookie alice))
                      [Loaded; Typed (lit "hi"); Pipeline Generate]))).
Proof.
  destruct (busy_exactly_while_a_run_is_suspended demo_verify demo_sign defaults
              (ledger_of 100) (mock_cookie alice)
              [Loaded; Typed (lit "hi"); Pipeline Generate])
    as (Hbusy & Hstatus & _); [vm_compute; reflexivity|].
  assert (Hrun : run (acts demo_verify demo_sign
                        (first_render defaults (ledger_of 100) (mock_cookie alice))
                        [Loaded; Typed (lit "hi"); Pipeline Generate]) ≠ Idle)
    by (vm_compute; discriminate).
  split; [exact Hrun|]. split; [apply Hbusy, Hrun | apply Hstatus, Hrun].
Defined.

(** The two letters are read out, and the two credits are asked for. *)
Lemma deductions_follow_syntheses_witness :
  deductions
    (calls (acts demo_verify demo_sign
              (first_render defaults (ledger_of 100) (mock_cookie alice))
              [Loaded; Typed (lit "hi"); Pipeline Generate;
               Pipeline (Synthesized (Return (Some three_bytes)) an_id a_time);
               Pipeline Deduct_answered]))
  = [2%nat]
  ∧ deductions
      (calls (acts demo_verify demo_sign
                (first_render defaults (ledger_of 100) (mock_cookie alice))
                [Loaded; Typed (lit "hi"); Pipeline Generate;
                 Pipeline (Synthesized (Return (Some three_bytes)) an_id a_time);
                 Pipeline Deduct_answered]))
    `sublist_of`
    synthesis_lengths
      (calls (acts demo_verify demo_sign
                (first_render defaults (ledger_of 100) (mock_cookie alice))
                [Loaded; Typed (lit "hi"); Pipeline Generate;
                 Pipeline (Synthesized (Return (Some three_bytes)) an_id a_time);
                 Pipeline Deduct_answered])).
Proof.
  split; [vm_compute; reflexivity|].
  destruct (deductions_follow_syntheses demo_verify demo_sign defaults
              (ledger_of 100) (mock_cookie alice)
              [Loaded; Typed (lit "hi"); Pipeline Generate;
               Pipeline (Synthesized (Return (Some three_bytes)) an_id a_time);
               Pipeline Deduct_answered])
    as (Hsub & _); [vm_compute; reflexivity|].
  exact Hsub.
Defined.

Lemma ledger_of_whole_100 : ledger_whole (ledger_of 100).
Proof.
  apply map_Forall_singleton. right. exists 100%nat. split; [|reflexivity].
  unfold MAX_CHARS. lia.
Qed.

(** Alice, holding 100 credits, opens the page, types, and has two
    letters read out. *)
Lemma balances_stay_whole_witness :
  ledger_whole
    (usersDb (acts demo_verify demo_sign
                (first_render defaults (ledger_of 100) (mock_cookie alice))
                [Loaded; Typed (lit "hi"); Pipeline Generate;
                 Pipeline (Synthesized (Return (Some three_bytes)) an_id a_time);
                 Pipeline Deduct_answered]))
  ∧ shown_credits
      (ui (acts demo_verify demo_sign
             (first_render defaults (ledger_of 100) (mock_cookie alice))
             [Loaded; Typed (lit "hi"); Pipeline Generate;
              Pipeline (Synthesized (Return (Some three_bytes)) an_id a_time);
              Pipeline Deduct_answered]))
    = Some 98%float.
Proof.
  split; [|vm_compute; reflexivity].
  apply (balances_stay_whole demo_verify demo_sign defaults (ledger_of 100)
           (mock_cookie alice)).
  exact ledger_of_whole_100.
Defined.

Lemma unlimited_is_never_shown_witness :
  render_credits (JUser alice (Some 20000%float) false) ≠ Some Unlimited.
Proof.
  apply (unlimited_is_never_shown demo_verify demo_sign defaults ∅
           (mock_cookie alice) [Loaded]).
  vm_compute. reflexivity.
Defined.

(** The owner opens the page in preview mode for the first time. *)
Lemma unlimited_profile_ends_the_render_witness :
  user (ui (act demo_verify demo_sign
              (first_render defaults ∅ (mock_cookie owner)) Loaded))
  = Some (JUser owner None true)
  ∧ renders (ui (act demo_verify demo_sign
                   (first_render defaults ∅ (mock_cookie owner)) Loaded))
    = false.
Proof.
  destruct (unlimited_profile_ends_the_render demo_verify demo_sign
              (first_render defaults ∅ (mock_cookie owner))
              (Ledger.new_user owner))
    as (Hu & _ & Hr & _); [evaluated.. | ].
  split; [exact Hu | exact Hr].
Defined.

(** A visitor without any cookie. *)
Lemma refused_profile_on_load_and_on_message_witness :
  user (ui (act demo_verify demo_sign (first_render defaults ∅ no_cookie) Loaded))
  = None
  ∧ last_exit (acts demo_verify demo_sign (first_render defaults ∅ no_cookie)
                 [Loaded; Pipeline Generate])
    = Some Exit_login
  ∧ user (ui (act demo_verify demo_sign (first_render defaults ∅ no_cookie) Message))
    = Some (JError "Unauthorized")
  ∧ renders (ui (act demo_verify demo_sign (first_render defaults ∅ no_cookie) Message))
    = false.
Proof.
  destruct (refused_profile_on_load_and_on_message demo_verify demo_sign
              (first_render defaults ∅ no_cookie) 401 "Unauthorized")
    as (H1 & _ & H2 & _ & H3 & H4); [evaluated.. | ].
  repeat split; assumption.
Defined.

(** The text hi, paid from 20000 credits. *)
Lemma direct_run_charges_exactly_witness :
  usersDb (steps demo_verify (tab tts None (lit "hi") 20000 20000)
             [Generate; Synthesized (Return (Some three_bytes)) an_id a_time;
              Deduct_answered])
  = <[alice := with_credits (account alice 20000) (of_nat (Z.to_nat 20000 - 2))]>
      (ledger_of 20000)
  ∧ of_nat (Z.to_nat 20000 - 2) = 19998%float.
Proof.
  split; [|vm_compute; reflexivity].
  destruct (direct_run_charges_exactly demo_verify (tab tts None (lit "hi") 20000 20000)
              alice false (Z.to_nat 20000) (Z.to_nat 20000) alice
              (account alice 20000) three_bytes an_id a_time)
    as (url & _ & _ & Hdb & _); [evaluated.. | exact Hdb].
Defined.

(** A recording whose transcript is the text hello. *)
Lemma upload_run_bills_the_transcript_witness :
  calls (steps demo_verify (tab voice_changer (Some clip) (lit "typed") 20000 20000)
           [Generate; Transcribed (Return (Some (lit "hello")));
            Synthesized (Return (Some three_bytes)) an_id a_time; Deduct_answered])
  = [CallTranscribe clip
       (prompt_of (cfg (tab voice_changer (Some clip) (lit "typed") 20000 20000)));
     CallSynthesize (lit "hello") (lit "Puck"); CallDeduct 5]
  ∧ text (ui (steps demo_verify (tab voice_changer (Some clip) (lit "typed") 20000 20000)
                [Generate; Transcribed (Return (Some (lit "hello")));
                 Synthesized (Return (Some three_bytes)) an_id a_time; Deduct_answered]))
    = lit "hello".
Proof.
  destruct (upload_run_bills_the_transcript demo_verify
              (tab voice_changer (Some clip) (lit "typed") 20000 20000)
              alice false (Z.to_nat 20000) (Z.to_nat 20000) alice
              (account alice 20000) clip (lit "hello") three_bytes an_id a_time)
    as (url & _ & Hc & _ & _ & Ht & _); [evaluated.. | ].
  split; [exact Hc | exact Ht].
Defined.

(** Bob signs in while Alice's synthesis is outstanding: her account is
    as it was. *)
Lemma only_a_served_deduction_touches_an_account_witness :
  usersDb (act demo_verify demo_sign stale_tab_synthesizing (GoogleLogin bob)) !! alice
  = Some (account alice 100)
  ∧ usersDb (act demo_verify demo_sign stale_tab_synthesizing (GoogleLogin bob)) !! bob
    = Some (Ledger.new_user bob).
Proof.
  split; [|vm_compute; reflexivity].
  destruct (only_a_served_deduction_touches_an_account demo_verify demo_sign
              stale_tab_synthesizing (GoogleLogin bob))
    as [Hkeep _]; [discriminate | discriminate |].
  apply Hkeep. reflexivity.
Defined.

Lemma cancelled_synthesis_is_never_charged_witness :
  steps demo_verify stale_tab_synthesizing
    [Cancel; Synthesized (Return (Some three_bytes)) an_id a_time]
  = step demo_verify stale_tab_synthesizing Cancel
  ∧ nothing_charged stale_tab_synthesizing
      (steps demo_verify stale_tab_synthesizing
         [Cancel; Synthesized (Return (Some three_bytes)) an_id a_time]).
Proof.
  destruct (cancelled_synthesis_is_never_charged demo_verify stale_tab_synthesizing
              (JUser alice (Some 20000%float) false) (letters 500) (Controller false)
              (Return (Some three_bytes)) an_id a_time)
    as (H1 & H2 & _); [evaluated.. | ].
  split; [exact H1 | exact H2].
Defined.

Lemma signing_out_during_synthesis_witness :
  usersDb (acts demo_verify demo_sign stale_tab_synthesizing
             [LoggedOut; Pipeline (Synthesized (Return (Some three_bytes)) an_id a_time);
              Pipeline Deduct_answered])
  = usersDb stale_tab_synthesizing
  ∧ user (ui (acts demo_verify demo_sign stale_tab_synthesizing
                [LoggedOut; Pipeline (Synthesized (Return (Some three_bytes)) an_id a_time);
                 Pipeline Deduct_answered]))
    = Some (JError "Unauthorized").
Proof.
  destruct (signing_out_during_synthesis demo_verify demo_sign stale_tab_synthesizing
              (JUser alice (Some 20000%float) false) (letters 500) three_bytes
              an_id a_time)
    as (url & _ & _ & _ & _ & _ & Hdb & Hu & _); [evaluated.. | ].
  split; [exact Hdb | exact Hu].
Defined.

(** The tab of Alice shows 20000 credits, the server holds 100 for her,
    and 500 letters have been synthesized. *)
Lemma refused_deduction_ends_the_render_witness :
  usersDb (steps demo_verify stale_tab_synthesizing
             [Synthesized (Return (Some three_bytes)) an_id a_time; Deduct_answered])
  = ledger_of 100
  ∧ audioUrl (ui (steps demo_verify stale_tab_synthesizing
                    [Synthesized (Return (Some three_bytes)) an_id a_time;
                     Deduct_answered]))
    = Some (WavFacts.header 3 24000 ++ [1; 2; 3]%N)
  ∧ user (ui (steps demo_verify stale_tab_synthesizing
                [Synthesized (Return (Some three_bytes)) an_id a_time;
                 Deduct_answered]))
    = Some (JError "Insufficient credits")
  ∧ renders (ui (steps demo_verify stale_tab_synthesizing
                   [Synthesized (Return (Some three_bytes)) an_id a_time;
                    Deduct_answered]))
    = false.
Proof.
  destruct (refused_deduction_ends_the_render demo_verify stale_tab_synthesizing
              (JUser alice (Some 20000%float) false) (letters 500) three_bytes
              [1; 2; 3]%N an_id a_time alice (account alice 100))
    as (_ & _ & _ & _ & _ & _ & Hdb & _ & Haudio & Hu & Hr);
    [ evaluated | evaluated | evaluated | evaluated | evaluated
    | exact (proj1 alice_as_sent) | exact alice_own_only
    | evaluated | evaluated | evaluated | ].
  repeat apply conj; [exact Hdb | exact Haudio | exact Hu | exact Hr].
Defined.

Lemma signing_out_and_in_keeps_the_balance_witness :
  usersDb (acts demo_verify demo_sign (tab tts None [] 20000 150)
             [LoggedOut; PreviewLogin alice; Message])
  = ledger_of 150
  ∧ user (ui (acts demo_verify demo_sign (tab tts None [] 20000 150)
                [LoggedOut; PreviewLogin alice; Message]))
    = Some (to_json (Ledger.RUser (account alice 150))).
Proof.
  destruct (signing_out_and_in_keeps_the_balance demo_verify demo_sign
              (tab tts None [] 20000 150) alice (account alice 150))
    as (_ & _ & _ & _ & _ & Hdb & Hu);
    [evaluated | evaluated | exact alice_own_only | evaluated | ].
  split; [exact Hdb | exact Hu].
Defined.

End SessionExamples.
